(** * Indian stock dashboard: the client script, embedded and verified

    The development follows the unified client script (the typeahead
    revision of [js/script.js]): its global variables, the parts of the page
    it reads and writes, the timers and network requests it starts, and the
    handlers the browser runs for it. The earlier revisions of the script
    are embedded where they differ on a function studied here (module
    [Rev1]). The profile form and its modal dialog touch neither timers,
    requests nor the search panel: they are embedded as a layer around the
    page state ([Dialog]), with events of their own.

    Conventions.
    - A JavaScript string is the list of its UTF-16 code units ([list N]).
    - A JavaScript number is [NaN], an infinity, or a finite value kept as an
      exact rational; a binary64 value is one of these. Comparisons of
      finite doubles are exact, so every branch taken by the script is the
      branch taken here. The one arithmetic operation of the script, the
      quotient in [formatNumber], is rounded to binary64 as the processor
      rounds it. A numeric literal, in a JSON text or in a string that is
      converted to a number, keeps its decimal value: it is not rounded to
      the nearest double (1.005 is the decimal here, the double just below
      it in the browser), it does not overflow to an infinity, and negative
      zero is not represented.
    - A handler runs to completion: it maps a page state to a completion
      ([Normal] or [Thrown]) and the state it leaves behind. An [async]
      function is cut at its [await]: the part before it runs in the caller,
      the part after it runs when the response event comes.
    - The page provides every element the script looks up by id; the canvas
      and the chart library, which the script tests for, may be missing.
    - Timer handles are positive and handed out in increasing order, as
      browsers do.

    Layout: the embedding (strings, numbers, values, [JSON.parse], state,
    handlers, events, the profile form); then the notions the theorems are
    stated with; then checks on concrete inputs and the theorems, C1 to
    C10, followed by further properties of the handlers, X1 to X16. *)

From Stdlib Require Import Strings.String Strings.Ascii DecimalString QArith Qround Qabs.
From Stdlib Require Import QArith.Qpower Lqa DecimalFacts DecimalPos DecimalN.
From stdpp Require Import base numbers list option gmap.

Set Warnings "-register-all".
Open Scope Z_scope.

(* ================================================================== *)
(** * Strings *)

Abbreviation jsstring := (list N).

(** An ASCII literal as a list of code units. *)
Definition str (s : string) : jsstring := N_of_ascii <$> list_ascii_of_string s.

(** U+20B9, the rupee sign of the templates. *)
Definition rupee : jsstring := [8377%N].

(** ECMAScript [WhiteSpace] and [LineTerminator] code units, which
    [String.prototype.trim] strips. *)
Definition is_js_space (c : N) : bool :=
  ((9 <=? c) && (c <=? 13) || (c =? 32) || (c =? 160) || (c =? 5760)
   || (8192 <=? c) && (c <=? 8202) || (c =? 8232) || (c =? 8233)
   || (c =? 8239) || (c =? 8287) || (c =? 12288) || (c =? 65279))%N.

Fixpoint drop_while {A} (p : A -> bool) (l : list A) : list A :=
  match l with
  | c :: r => if p c then drop_while p r else l
  | [] => []
  end.

Definition trimStart (s : jsstring) : jsstring := drop_while is_js_space s.

Definition trimEnd (s : jsstring) : jsstring := rev (trimStart (rev s)).

Definition trim (s : jsstring) : jsstring := trimEnd (trimStart s).

(** [toUpperCase] on the basic Latin letters; other code units are kept
    (the special casings of Unicode are outside this model). *)
Definition upper_unit (c : N) : N :=
  if ((97 <=? c) && (c <=? 122))%N then (c - 32)%N else c.

Definition toUpperCase (s : jsstring) : jsstring := upper_unit <$> s.

(** [encodeURIComponent] throws a URIError on an unpaired surrogate and on
    nothing else. *)
Definition is_high_surrogate (c : N) : bool := ((55296 <=? c) && (c <=? 56319))%N.
Definition is_low_surrogate (c : N) : bool := ((56320 <=? c) && (c <=? 57343))%N.

Fixpoint well_formed_utf16 (s : jsstring) : bool :=
  match s with
  | [] => true
  | c :: r =>
      if is_high_surrogate c then
        match r with
        | d :: r' => is_low_surrogate d && well_formed_utf16 r'
        | [] => false
        end
      else negb (is_low_surrogate c) && well_formed_utf16 r
  end.

(** Decimal digits of a natural number. *)
Definition dec (n : N) : jsstring := str (NilZero.string_of_uint (N.to_uint n)).

(* ================================================================== *)
(** * Numbers *)

Inductive JsNum : Type :=
| NaN
| PosInf
| NegInf
| Fin (q : Q).

Definition num_of_Z (z : Z) : JsNum := Fin (inject_Z z).

(** [a >= b] of JavaScript: false as soon as one side is [NaN]. *)
Definition js_ge (a b : JsNum) : bool :=
  match a, b with
  | NaN, _ | _, NaN => false
  | PosInf, _ => true
  | _, NegInf => true
  | NegInf, _ => false
  | Fin _, PosInf => false
  | Fin x, Fin y => Qle_bool y x
  end.

(** [a > b]. *)
Definition js_gt (a b : JsNum) : bool :=
  match a, b with
  | NaN, _ | _, NaN => false
  | PosInf, PosInf => false
  | PosInf, _ => true
  | NegInf, _ => false
  | Fin _, NegInf => true
  | Fin _, PosInf => false
  | Fin x, Fin y => negb (Qle_bool x y)
  end.

(** ** Rounding to binary64 *)

(** The integer nearest to a rational that is not negative, the even one
    on a tie. *)
Definition round_half_even (x : Q) : Z :=
  let f := Qfloor x in
  match (x - inject_Z f ?= 1 # 2)%Q with
  | Lt => f
  | Gt => f + 1
  | Eq => if Z.even f then f else f + 1
  end.

(** The integer part of the base 2 logarithm of a positive rational [n/d]:
    the difference of the logarithms of [n] and [d], or one less. *)
Definition ilog2 (x : Q) : Z :=
  let k := Z.log2 (Qnum x) - Z.log2 (Zpos (Qden x)) in
  if Qle_bool (Qpower 2 k) x then k else k - 1.

(** The binary64 value nearest to [x], the one with the even significand
    on a tie (roundTiesToEven): a significand of 53 bits over the exponent
    of [x], of fewer bits below 2^-1022; an infinity from 2^1024 on. *)
Definition binary64 (x : Q) : JsNum :=
  let ax := Qabs x in
  if Qeq_bool ax 0 then Fin 0 else
  let e := Z.max (-1074) (ilog2 ax - 52) in
  let m := round_half_even (ax / Qpower 2 e) in
  let y := Qred (inject_Z m * Qpower 2 e) in
  if Qle_bool (Qpower 2 1024) y
  then (if Qle_bool 0 x then PosInf else NegInf)
  else Fin (if Qle_bool 0 x then y else - y).

(** [a / d] for a positive finite literal [d], as in [num / 10000000]: the
    binary64 quotient of the two binary64 operands. *)
Definition js_div_lit (a : JsNum) (d : Z) : JsNum :=
  match a with
  | Fin x =>
      match binary64 x with
      | Fin x' => binary64 (x' / inject_Z d)
      | other => other
      end
  | other => other
  end.

Definition isFinite (a : JsNum) : bool :=
  match a with Fin _ => true | _ => false end.

(** Nearest integer to a non-negative rational, the larger one on a tie:
    the integer [n] chosen by [toFixed] and by the locale formatter. *)
Definition round_half_up (x : Q) : Z := Qfloor (x + (1 # 2)).

Definition pad2 (n : N) : jsstring :=
  if (n <? 10)%N then str "0" ++ dec n else dec n.

Definition pad3 (n : N) : jsstring :=
  if (n <? 10)%N then str "00" ++ dec n
  else if (n <? 100)%N then str "0" ++ dec n else dec n.

Definition strip_zeros_end (s : jsstring) : jsstring :=
  rev (drop_while (fun c => (c =? 48)%N) (rev s)).

(** An integer of magnitude 10^21 or more in the shape [Number::toString]
    gives it ([d.ddd...e+N]); the digits are those of the exact value. *)
Definition exp_notation (n : N) : jsstring :=
  let ds := dec n in
  match ds with
  | [] => []
  | d :: rest =>
      let frac := strip_zeros_end rest in
      [d] ++ (if bool_decide (frac = []) then [] else str "." ++ frac)
          ++ str "e+" ++ dec (N.of_nat (length rest))
  end.

(** [x.toFixed(2)]. *)
Definition toFixed2 (a : JsNum) : jsstring :=
  match a with
  | NaN => str "NaN"
  | PosInf => str "Infinity"
  | NegInf => str "-Infinity"
  | Fin x =>
      let sign := if Qle_bool 0 x then [] else str "-" in
      let ax := Qabs x in
      if Qle_bool (inject_Z (10 ^ 21)) ax
      then sign ++ exp_notation (Z.to_N (Qfloor ax))
      else
        let n := Z.to_N (round_half_up (ax * inject_Z 100)) in
        sign ++ dec (n / 100) ++ str "." ++ pad2 (n mod 100)
  end.

(** Indian digit grouping: the last three digits, then groups of two. *)
Fixpoint group_pairs (rev_digits : jsstring) : jsstring :=
  match rev_digits with
  | a :: b :: ((_ :: _) as r) => a :: b :: 44%N :: group_pairs r
  | short => short
  end.

Definition group_indian (digits : jsstring) : jsstring :=
  match rev digits with
  | a :: b :: c :: ((_ :: _) as r) => rev (a :: b :: c :: 44%N :: group_pairs r)
  | _ => digits
  end.

(** [x.toLocaleString('en-IN')] with the default options: grouping, at most
    three fraction digits, no trailing zeros. *)
Definition toLocaleString_en_IN (a : JsNum) : jsstring :=
  match a with
  | NaN => str "NaN"
  | PosInf => [8734%N]
  | NegInf => str "-" ++ [8734%N]
  | Fin x =>
      let sign := if Qle_bool 0 x then [] else str "-" in
      let n := Z.to_N (round_half_up (Qabs x * inject_Z 1000)) in
      let frac := strip_zeros_end (pad3 (n mod 1000)) in
      sign ++ group_indian (dec (n / 1000))
           ++ (if bool_decide (frac = []) then [] else str "." ++ frac)
  end.

(** [formatNumber] of the script. *)
Definition formatNumber (num : JsNum) : jsstring :=
  if js_ge num (num_of_Z 10000000)
  then rupee ++ toFixed2 (js_div_lit num 10000000) ++ str " Cr"
  else if js_ge num (num_of_Z 100000)
  then rupee ++ toFixed2 (js_div_lit num 100000) ++ str " L"
  else rupee ++ toLocaleString_en_IN num.

(* ================================================================== *)
(** * Values *)

(** The values the script handles: what [JSON.parse] and [response.json()]
    produce, and [undefined] for a property that is not there. An object
    keeps its members in source order; [get_own] reads the last one of a
    name, as [JSON.parse] lets a later duplicate win. *)
Inductive JsValue : Type :=
| JUndefined
| JNull
| JBool (b : bool)
| JNum (n : JsNum)
| JStr (s : jsstring)
| JArray (items : list JsValue)
| JObject (members : list (jsstring * JsValue)).

(** ToBoolean. *)
Definition truthy (v : JsValue) : bool :=
  match v with
  | JUndefined | JNull => false
  | JBool b => b
  | JNum NaN => false
  | JNum (Fin q) => negb (Qeq_bool q 0)
  | JNum _ => true
  | JStr s => negb (bool_decide (s = []))
  | JArray _ | JObject _ => true
  end.

(** [a || b]. *)
Definition js_or (a b : JsValue) : JsValue := if truthy a then a else b.

Fixpoint get_own (members : list (jsstring * JsValue)) (k : jsstring) : JsValue :=
  match members with
  | [] => JUndefined
  | (k', v) :: rest =>
      match get_own rest k with
      | JUndefined => if bool_decide (k' = k) then v else JUndefined
      | later => later
      end
  end.

(** [v.k] for the property names the script reads, none of which is
    inherited from a prototype. [None] is the TypeError of reading a
    property of [null] or [undefined]. *)
Definition get_prop (v : JsValue) (k : string) : option JsValue :=
  match v with
  | JUndefined | JNull => None
  | JObject members => Some (get_own members (str k))
  | _ => Some JUndefined
  end.

(** [v?.k]. *)
Definition get_prop_opt (v : JsValue) (k : string) : JsValue :=
  default JUndefined (get_prop v k).

(** [Number.isFinite(v)]: no conversion, a finite number only. *)
Definition Number_isFinite (v : JsValue) : bool :=
  match v with JNum n => isFinite n | _ => false end.

(** ** Numeric literals *)

Definition is_digit (c : N) : bool := ((48 <=? c) && (c <=? 57))%N.

Fixpoint span_digits (s : jsstring) : jsstring * jsstring :=
  match s with
  | c :: r => if is_digit c then let '(d, r') := span_digits r in (c :: d, r')
              else ([], s)
  | [] => ([], [])
  end.

Definition digits_value (base : Z) (digit : N -> Z) (ds : jsstring) : Z :=
  foldl (fun acc c => acc * base + digit c) 0 ds.

Definition dec_digit (c : N) : Z := Z.of_N c - 48.

Definition decimal_value (ds : jsstring) : Z := digits_value 10 dec_digit ds.

(** The value [m * 10^e]. *)
Definition scale10 (m e : Z) : Q := inject_Z m * Qpower (inject_Z 10) e.

(** [s] without the leading literal [p], when it starts with it. *)
Fixpoint strip_prefix (p s : jsstring) : option jsstring :=
  match p, s with
  | [], _ => Some s
  | a :: p', b :: s' => if (a =? b)%N then strip_prefix p' s' else None
  | _ :: _, [] => None
  end.

(** An optional exponent part [e], [E] with an optional sign and digits;
    returns the exponent and the rest. *)
Definition exponent_part (s : jsstring) : option (Z * jsstring) :=
  match s with
  | c :: r =>
      if ((c =? 101) || (c =? 69))%N then
        let '(neg, r1) :=
          match strip_prefix [45%N] r with
          | Some r' => (true, r')
          | None => (false, default r (strip_prefix [43%N] r))
          end in
        let '(ds, r2) := span_digits r1 in
        if bool_decide (ds = []) then None
        else Some (if neg then - decimal_value ds else decimal_value ds, r2)
      else Some (0, s)
  | [] => Some (0, [])
  end.

(** ** StringToNumber, the conversion [Number(s)] applies to a string *)

Definition hex_digit (c : N) : option Z :=
  if is_digit c then Some (Z.of_N c - 48)
  else if ((97 <=? c) && (c <=? 102))%N then Some (Z.of_N c - 87)
  else if ((65 <=? c) && (c <=? 70))%N then Some (Z.of_N c - 55)
  else None.

Definition radix_value (base : Z) (ds : jsstring) : JsNum :=
  match ds with
  | [] => NaN
  | _ =>
      if forallb (fun c => match hex_digit c with
                           | Some d => d <? base | None => false end) ds
      then num_of_Z (digits_value base (fun c => default 0 (hex_digit c)) ds)
      else NaN
  end.

Definition unsigned_decimal (s : jsstring) : JsNum :=
  if bool_decide (s = str "Infinity") then PosInf else
  let '(ip, r1) := span_digits s in
  let '(fp, r2) :=
    match r1 with
    | 46%N :: r => span_digits r
    | _ => ([], r1)
    end in
  if bool_decide (ip = []) && bool_decide (fp = []) then NaN
  else match exponent_part r2 with
       | Some (e, []) => Fin (scale10 (decimal_value (ip ++ fp)) (e - Z.of_nat (length fp)))
       | _ => NaN
       end.

Definition js_neg (a : JsNum) : JsNum :=
  match a with
  | NaN => NaN
  | PosInf => NegInf
  | NegInf => PosInf
  | Fin x => Fin (- x)
  end.

Definition StringToNumber (s : jsstring) : JsNum :=
  match trim s with
  | [] => num_of_Z 0
  | 48%N :: 120%N :: ds | 48%N :: 88%N :: ds => radix_value 16 ds
  | 48%N :: 111%N :: ds | 48%N :: 79%N :: ds => radix_value 8 ds
  | 48%N :: 98%N :: ds | 48%N :: 66%N :: ds => radix_value 2 ds
  | 45%N :: r => js_neg (unsigned_decimal r)
  | 43%N :: r => unsigned_decimal r
  | t => unsigned_decimal t
  end.

(** [Number(v)]. An array converts through its joined text: empty text for
    no element, the text of the element for one, a text with commas (never
    numeric) for more. *)
Fixpoint ToNumber (v : JsValue) : JsNum :=
  match v with
  | JUndefined => NaN
  | JNull => num_of_Z 0
  | JBool b => num_of_Z (if b then 1 else 0)
  | JNum n => n
  | JStr s => StringToNumber s
  | JArray [] => num_of_Z 0
  | JArray [x] =>
      match x with
      | JUndefined | JNull => num_of_Z 0
      | JBool _ | JObject _ => NaN
      | _ => ToNumber x
      end
  | JArray _ => NaN
  | JObject _ => NaN
  end.

(* ================================================================== *)
(** * JSON.parse *)

Definition is_json_ws (c : N) : bool :=
  ((c =? 32) || (c =? 9) || (c =? 10) || (c =? 13))%N.

Definition skip_ws (s : jsstring) : jsstring := drop_while is_json_ws s.

(** The code unit an escape letter stands for. *)
Definition escape_unit (e : N) : option N :=
  if (e =? 34)%N then Some 34%N
  else if (e =? 92)%N then Some 92%N
  else if (e =? 47)%N then Some 47%N
  else if (e =? 98)%N then Some 8%N
  else if (e =? 102)%N then Some 12%N
  else if (e =? 110)%N then Some 10%N
  else if (e =? 114)%N then Some 13%N
  else if (e =? 116)%N then Some 9%N
  else None.

(** The characters of a string literal after its opening quote, up to the
    closing one. *)
Fixpoint parse_chars (s : jsstring) : option (jsstring * jsstring) :=
  match s with
  | [] => None
  | c :: r =>
      if (c =? 34)%N then Some ([], r)
      else if (c =? 92)%N then
        match r with
        | [] => None
        | e :: r1 =>
            if (e =? 117)%N then
              match r1 with
              | a :: b :: c' :: d :: r2 =>
                  match hex_digit a, hex_digit b, hex_digit c', hex_digit d,
                        parse_chars r2 with
                  | Some x, Some y, Some z, Some w, Some (t, r') =>
                      Some (Z.to_N (((x * 16 + y) * 16 + z) * 16 + w) :: t, r')
                  | _, _, _, _, _ => None
                  end
              | _ => None
              end
            else
              match escape_unit e, parse_chars r1 with
              | Some u, Some (t, r') => Some (u :: t, r')
              | _, _ => None
              end
        end
      else if (c <? 32)%N then None
      else match parse_chars r with
           | Some (t, r') => Some (c :: t, r')
           | None => None
           end
  end.

(** A JSON number: [-]? int frac? exp?, no leading zero, digits required
    after the point. *)
Definition parse_number (s : jsstring) : option (JsNum * jsstring) :=
  let '(neg, r0) :=
    match strip_prefix [45%N] s with
    | Some r => (true, r)
    | None => (false, s)
    end in
  let '(ip, r1) := span_digits r0 in
  match ip with
  | [] => None
  | d :: more =>
      if (d =? 48)%N && negb (bool_decide (more = [])) then None else
      let frac :=
        match strip_prefix [46%N] r1 with
        | Some r =>
            let '(fp, r2) := span_digits r in
            if bool_decide (fp = []) then None else Some (fp, r2)
        | None => Some ([], r1)
        end in
      match frac with
      | None => None
      | Some (fp, r2) =>
          match exponent_part r2 with
          | None => None
          | Some (e, r3) =>
              let m := decimal_value (ip ++ fp) in
              Some (Fin (scale10 (if neg then - m else m) (e - Z.of_nat (length fp))), r3)
          end
      end
  end.

(** The recursive descent, on a budget of calls; [None] is a SyntaxError
    (or an exhausted budget, which the budget [JSON_parse] gives rules out:
    see [JSON_parse_budget]). *)
Fixpoint parse_value (fuel : nat) (s : jsstring) : option (JsValue * jsstring) :=
  match fuel with
  | O => None
  | S fuel' =>
      let t := skip_ws s in
      match strip_prefix (str "null") t with
      | Some r => Some (JNull, r)
      | None =>
      match strip_prefix (str "true") t with
      | Some r => Some (JBool true, r)
      | None =>
      match strip_prefix (str "false") t with
      | Some r => Some (JBool false, r)
      | None =>
      match t with
      | [] => None
      | c :: r =>
          if (c =? 34)%N then
            match parse_chars r with
            | Some (text, r') => Some (JStr text, r')
            | None => None
            end
          else if (c =? 91)%N then
            match strip_prefix [93%N] (skip_ws r) with
            | Some r' => Some (JArray [], r')
            | None => parse_elements fuel' r []
            end
          else if (c =? 123)%N then
            match strip_prefix [125%N] (skip_ws r) with
            | Some r' => Some (JObject [], r')
            | None => parse_members fuel' r []
            end
          else
            match parse_number t with
            | Some (n, r') => Some (JNum n, r')
            | None => None
            end
      end end end end
  end
with parse_elements (fuel : nat) (s : jsstring) (acc : list JsValue)
  : option (JsValue * jsstring) :=
  match fuel with
  | O => None
  | S fuel' =>
      match parse_value fuel' s with
      | Some (v, r) =>
          match skip_ws r with
          | c :: r' =>
              if (c =? 44)%N then parse_elements fuel' r' (v :: acc)
              else if (c =? 93)%N then Some (JArray (rev (v :: acc)), r')
              else None
          | [] => None
          end
      | None => None
      end
  end
with parse_members (fuel : nat) (s : jsstring) (acc : list (jsstring * JsValue))
  : option (JsValue * jsstring) :=
  match fuel with
  | O => None
  | S fuel' =>
      match strip_prefix [34%N] (skip_ws s) with
      | Some r =>
          match parse_chars r with
          | Some (k, r1) =>
              match strip_prefix [58%N] (skip_ws r1) with
              | Some r2 =>
                  match parse_value fuel' r2 with
                  | Some (v, r3) =>
                      match skip_ws r3 with
                      | c :: r4 =>
                          if (c =? 44)%N then parse_members fuel' r4 ((k, v) :: acc)
                          else if (c =? 125)%N then Some (JObject (rev ((k, v) :: acc)), r4)
                          else None
                      | [] => None
                      end
                  | None => None
                  end
              | None => None
              end
          | None => None
          end
      | None => None
      end
  end.

(** [JSON.parse(text)]: [None] is the SyntaxError it throws. *)
Definition JSON_parse (text : jsstring) : option JsValue :=
  match parse_value (2 * length text + 2) text with
  | Some (v, r) => if bool_decide (skip_ws r = []) then Some v else None
  | None => None
  end.

(** A text between double quotes. *)
Definition quoted (s : string) : jsstring := [34%N] ++ str s ++ [34%N].

(** ** ToString, for a value stored into a text field *)

(** The least [e] with [10^e * x] an integer, searched up to [fuel]. *)
Fixpoint decimal_places (fuel : nat) (x : Q) : option Z :=
  if (Qden (Qred x) =? 1)%positive then Some 0
  else match fuel with
       | O => None
       | S fuel' => Z.succ <$> decimal_places fuel' (x * inject_Z 10)
       end.

Definition zeros (n : Z) : jsstring := replicate (Z.to_nat n) 48%N.

(** [Number::toString] from the digits [s] (no trailing zero, [k] of them)
    and the position [n] of the decimal point. *)
Definition place_digits (s : jsstring) (n : Z) : jsstring :=
  let k := Z.of_nat (length s) in
  if (k <=? n) && (n <=? 21) then s ++ zeros (n - k)
  else if (0 <? n) && (n <=? 21) then take (Z.to_nat n) s ++ str "." ++ drop (Z.to_nat n) s
  else if (-6 <? n) && (n <=? 0) then str "0." ++ zeros (- n) ++ s
  else
    let e := n - 1 in
    let es := (if 0 <=? e then str "+" else str "-") ++ dec (Z.to_N (Z.abs e)) in
    match s with
    | [d] => [d] ++ str "e" ++ es
    | d :: more => [d] ++ str "." ++ more ++ str "e" ++ es
    | [] => []
    end.

(** The text of a number. It is exact for a value with a finite decimal
    expansion (every value read from JSON text is one); a value without one
    is printed from its first seventeen decimals. *)
Definition Number_toString (a : JsNum) : jsstring :=
  match a with
  | NaN => str "NaN"
  | PosInf => str "Infinity"
  | NegInf => str "-Infinity"
  | Fin x =>
      if Qeq_bool x 0 then str "0" else
      let sign := if Qle_bool 0 x then [] else str "-" in
      let ax := Qabs x in
      let e := default 17 (decimal_places (Pos.to_nat (Qden (Qred ax))) ax) in
      let all := dec (Z.to_N (Qfloor (ax * Qpower (inject_Z 10) e))) in
      let s := strip_zeros_end all in
      sign ++ place_digits s (Z.of_nat (length all) - e)
  end.

Fixpoint join_with (sep : jsstring) (parts : list jsstring) : jsstring :=
  match parts with
  | [] => []
  | [p] => p
  | p :: rest => p ++ sep ++ join_with sep rest
  end.

Fixpoint ToString (v : JsValue) : jsstring :=
  match v with
  | JUndefined => str "undefined"
  | JNull => str "null"
  | JBool b => if b then str "true" else str "false"
  | JNum n => Number_toString n
  | JStr s => s
  | JArray items =>
      join_with (str ",")
        (map (fun x => match x with
                       | JUndefined | JNull => []
                       | _ => ToString x
                       end) items)
  | JObject _ => str "[object Object]"
  end.

(** Assigning [v] to the [value] of a text input: [null] gives the empty
    text, everything else its ToString. *)
Definition input_text (v : JsValue) : jsstring :=
  match v with JNull => [] | _ => ToString v end.

(* ================================================================== *)
(** * The page state *)

(** ** Global variables of the script *)

Record Globals : Type := mkGlobals {
  userProfile : JsValue;
  currentChart : option (list JsValue);   (* the series of the live chart *)
  refreshInterval : option nat;           (* null, or a timer handle *)
  suggestTimer : option nat;
  activeIndex : Z;
  lastSuggestions : list JsValue
}.

(** ** The elements the script reads and writes

    A text produced from a template is kept as text where the script
    computes it with [toFixed] or [toLocaleString]; a value handed to the
    page as it came is kept as that value. *)

Record Button : Type := mkButton {
  innerHTML : jsstring;
  disabled : bool
}.

(** One suggestion row: the item it was rendered from, and whether it
    carries the class [active]. *)
Record Row : Type := mkRow {
  row_item : JsValue;
  row_active : bool
}.

Record InfoPanel : Type := mkInfo {
  stockName : JsValue;
  currentPrice : jsstring;
  priceChange_text : jsstring;
  priceChange_class : jsstring;
  volume : jsstring;
  marketCap : jsstring;
  peRatio : jsstring;
  weekRange : jsstring
}.

Inductive NewsNode : Type :=
| NoNews                       (* the paragraph "No recent news found." *)
| NewsItem (item : JsValue).

Inductive RecNode : Type :=
| NoRecommendations            (* "No recommendations found based on your profile." *)
| RecCard (rating_class : jsstring) (rec : JsValue).

Record ProfileView : Type := mkProfileView {
  userBudget : JsValue;        (* the budget shown after "Budget: " *)
  budgetField : JsValue;
  riskField : JsValue;
  timelineField : JsValue
}.

Record Page : Type := mkPage {
  stockSearch : jsstring;                 (* value of #stockSearch *)
  searchBtn : Button;
  recBtn : Button;                        (* #getRecommendations *)
  suggestions : list Row;                 (* children of #suggestions *)
  suggestions_hidden : bool;
  stockInfoPanel : jsstring;              (* style.display *)
  info : InfoPanel;
  newsContainer : list NewsNode;
  recommendationsContainer : list RecNode;
  profileView : ProfileView
}.

(** ** The host: clock, timers, network, storage, and what was shown *)

Inductive TimerTask : Type :=
| SuggestTask                             (* the debounced input callback *)
| RefreshTask (symbol : jsstring).        (* the callback of startAutoRefresh *)

Record Timer : Type := mkTimer {
  due : Z;
  period : option Z;                      (* [Some p] for setInterval *)
  task : TimerTask
}.

Inductive Request : Type :=
| ReqSuggest (q : jsstring)
| ReqSearch (symbol : jsstring)
| ReqNews (symbol : jsstring)
| ReqRecommendations (profile : JsValue).

Inductive JsError : Type :=
| TypeError
| SyntaxError
| URIError
| NetworkFailure
| ErrorWith (message : JsValue).

(** What the script did, for the record: requests sent, alerts shown,
    console lines, and each call of [fetchSuggestions] with its argument
    (the latter is bookkeeping for the statements on debouncing; no handler
    reads it). *)
Inductive Effect : Type :=
| CallFetchSuggestions (q : jsstring)
| Sent (rid : nat) (r : Request)
| Alert (message : JsValue)
| ConsoleLog (e : JsError)
| UnhandledRejection (e : JsError).

Record Host : Type := mkHost {
  now : Z;                                (* milliseconds *)
  next_timer : nat;
  timers : gmap nat Timer;
  next_request : nat;
  inflight : gmap nat Request;
  stored_profile : option jsstring;       (* localStorage item 'userProfile' *)
  has_canvas : bool;                      (* #priceChart is in the page *)
  has_Chart : bool;                       (* Chart.js is loaded *)
  wired : bool;                           (* setupEventListeners has run *)
  effects : list Effect                   (* latest first *)
}.

Record State : Type := mkState {
  globals : Globals;
  page : Page;
  host : Host
}.

(** ** Field updates *)

Definition upd_globals (f : Globals -> Globals) (st : State) : State :=
  mkState (f (globals st)) (page st) (host st).
Definition upd_page (f : Page -> Page) (st : State) : State :=
  mkState (globals st) (f (page st)) (host st).
Definition upd_host (f : Host -> Host) (st : State) : State :=
  mkState (globals st) (page st) (f (host st)).

Definition set_userProfile v g :=
  mkGlobals v (currentChart g) (refreshInterval g) (suggestTimer g) (activeIndex g) (lastSuggestions g).
Definition set_currentChart v g :=
  mkGlobals (userProfile g) v (refreshInterval g) (suggestTimer g) (activeIndex g) (lastSuggestions g).
Definition set_refreshInterval v g :=
  mkGlobals (userProfile g) (currentChart g) v (suggestTimer g) (activeIndex g) (lastSuggestions g).
Definition set_suggestTimer v g :=
  mkGlobals (userProfile g) (currentChart g) (refreshInterval g) v (activeIndex g) (lastSuggestions g).
Definition set_activeIndex v g :=
  mkGlobals (userProfile g) (currentChart g) (refreshInterval g) (suggestTimer g) v (lastSuggestions g).
Definition set_lastSuggestions v g :=
  mkGlobals (userProfile g) (currentChart g) (refreshInterval g) (suggestTimer g) (activeIndex g) v.

Definition set_stockSearch v p :=
  mkPage v (searchBtn p) (recBtn p) (suggestions p) (suggestions_hidden p) (stockInfoPanel p)
         (info p) (newsContainer p) (recommendationsContainer p) (profileView p).
Definition set_searchBtn v p :=
  mkPage (stockSearch p) v (recBtn p) (suggestions p) (suggestions_hidden p) (stockInfoPanel p)
         (info p) (newsContainer p) (recommendationsContainer p) (profileView p).
Definition set_recBtn v p :=
  mkPage (stockSearch p) (searchBtn p) v (suggestions p) (suggestions_hidden p) (stockInfoPanel p)
         (info p) (newsContainer p) (recommendationsContainer p) (profileView p).
Definition set_suggestions rows hid p :=
  mkPage (stockSearch p) (searchBtn p) (recBtn p) rows hid (stockInfoPanel p)
         (info p) (newsContainer p) (recommendationsContainer p) (profileView p).
Definition set_stockInfoPanel v p :=
  mkPage (stockSearch p) (searchBtn p) (recBtn p) (suggestions p) (suggestions_hidden p) v
         (info p) (newsContainer p) (recommendationsContainer p) (profileView p).
Definition set_info v p :=
  mkPage (stockSearch p) (searchBtn p) (recBtn p) (suggestions p) (suggestions_hidden p)
         (stockInfoPanel p) v (newsContainer p) (recommendationsContainer p) (profileView p).
Definition set_newsContainer v p :=
  mkPage (stockSearch p) (searchBtn p) (recBtn p) (suggestions p) (suggestions_hidden p)
         (stockInfoPanel p) (info p) v (recommendationsContainer p) (profileView p).
Definition set_recommendationsContainer v p :=
  mkPage (stockSearch p) (searchBtn p) (recBtn p) (suggestions p) (suggestions_hidden p)
         (stockInfoPanel p) (info p) (newsContainer p) v (profileView p).
Definition set_profileView v p :=
  mkPage (stockSearch p) (searchBtn p) (recBtn p) (suggestions p) (suggestions_hidden p)
         (stockInfoPanel p) (info p) (newsContainer p) (recommendationsContainer p) v.

Definition set_now v h :=
  mkHost v (next_timer h) (timers h) (next_request h) (inflight h) (stored_profile h)
         (has_canvas h) (has_Chart h) (wired h) (effects h).
Definition set_timers nt ts h :=
  mkHost (now h) nt ts (next_request h) (inflight h) (stored_profile h)
         (has_canvas h) (has_Chart h) (wired h) (effects h).
Definition set_inflight nr fl h :=
  mkHost (now h) (next_timer h) (timers h) nr fl (stored_profile h)
         (has_canvas h) (has_Chart h) (wired h) (effects h).
Definition set_wired v h :=
  mkHost (now h) (next_timer h) (timers h) (next_request h) (inflight h) (stored_profile h)
         (has_canvas h) (has_Chart h) v (effects h).
Definition add_effect e h :=
  mkHost (now h) (next_timer h) (timers h) (next_request h) (inflight h) (stored_profile h)
         (has_canvas h) (has_Chart h) (wired h) (e :: effects h).

(* ================================================================== *)
(** * Handlers as state transformers that may throw *)

Inductive Completion : Type :=
| Normal
| Thrown (e : JsError).

Definition Js : Type := State -> Completion * State.

Definition skip : Js := fun st => (Normal, st).
Definition throw (e : JsError) : Js := fun st => (Thrown e, st).
Definition modify (f : State -> State) : Js := fun st => (Normal, f st).

(** [a ;; b]: [b] runs only when [a] completes normally. *)
Definition and_then (a b : Js) : Js :=
  fun st => match a st with
            | (Normal, st') => b st'
            | (Thrown e, st') => (Thrown e, st')
            end.

(** [try { body } catch (e) { handler e }]. *)
Definition try_catch (body : Js) (handler : JsError -> Js) : Js :=
  fun st => match body st with
            | (Normal, st') => (Normal, st')
            | (Thrown e, st') => handler e st'
            end.

(** [try { body } finally { final }]: [final] runs on both exits and the
    completion of [body] is kept ([final] itself does not throw here unless
    it says so, in which case its completion wins). *)
Definition try_finally (body final : Js) : Js :=
  fun st => match body st with
            | (c, st') =>
                match final st' with
                | (Normal, st'') => (c, st'')
                | (Thrown e, st'') => (Thrown e, st'')
                end
            end.

Declare Scope js_scope.
Delimit Scope js_scope with js.
Bind Scope js_scope with Js.
Notation "a ;; b" := (and_then a b) (at level 100, b at level 200, right associativity) : js_scope.
Open Scope js_scope.

(** Host operations. *)

Definition alert (v : JsValue) : Js := modify (upd_host (add_effect (Alert v))).
Definition console (e : JsError) : Js := modify (upd_host (add_effect (ConsoleLog e))).

(** [setTimeout] / [setInterval]: a fresh handle, never reused. *)
Definition new_timer (tm : Timer) (st : State) : nat * State :=
  let h := host st in
  (next_timer h, upd_host (set_timers (S (next_timer h)) (<[next_timer h := tm]> (timers h))) st).

(** [clearTimeout] / [clearInterval]: one table of handles serves both. *)
Definition clear_timer (id : nat) : State -> State :=
  upd_host (fun h => set_timers (next_timer h) (delete id (timers h)) h).

Definition clear_handle (handle : option nat) : State -> State :=
  match handle with
  | Some id => clear_timer id
  | None => id
  end.

(** [if (handle)]: a handle is a positive integer, [null] and 0 are falsy. *)
Definition handle_truthy (handle : option nat) : bool :=
  match handle with
  | Some (S _) => true
  | _ => false
  end.

(** [fetch(...)]: the request is in flight until its response event. *)
Definition send (r : Request) : Js :=
  modify (fun st =>
    let h := host st in
    let rid := next_request h in
    upd_host (fun h => add_effect (Sent rid r)
                         (set_inflight (S rid) (<[rid := r]> (inflight h)) h)) st).

(** A call of an [async] function returns a promise at once: whatever its
    body throws rejects that promise and does not reach the caller. *)
Definition async (body : Js) : Js :=
  fun st => match body st with
            | (Normal, st') => (Normal, st')
            | (Thrown e, st') => (Normal, upd_host (add_effect (UnhandledRejection e)) st')
            end.

(** What a response event carries to the continuation of a [fetch]. *)
Inductive Outcome : Type :=
| NetworkError                       (* fetch() rejects *)
| BodyError (ok : bool)              (* response.json() rejects *)
| Body (ok : bool) (data : JsValue). (* response.ok and the parsed body *)

Definition nullish (v : JsValue) : bool :=
  match v with JUndefined | JNull => true | _ => false end.

(* ================================================================== *)
(** * Typeahead: render, fetch, pick, navigate *)

Definition renderSuggestions (items : list JsValue) : Js :=
  modify (upd_globals (fun g => set_activeIndex (-1) (set_lastSuggestions items g))) ;;
  match items with
  | [] => modify (upd_page (set_suggestions [] true))
  | _ =>
      (* the template reads s.symbol, s.exchange and s.name of every item *)
      if forallb (fun s => negb (nullish s)) items
      then modify (upd_page (set_suggestions (map (fun s => mkRow s false) items) false))
      else throw TypeError
  end.

Definition fetchSuggestions_catch (e : JsError) : Js :=
  console e ;; renderSuggestions [].

(** [fetchSuggestions(q)] up to its first [await]. *)
Definition fetchSuggestions (q : jsstring) : Js :=
  async (
    modify (upd_host (add_effect (CallFetchSuggestions q))) ;;
    if bool_decide (q = []) || (length q <? 2)%nat
    then renderSuggestions []
    else try_catch
           (if well_formed_utf16 q then send (ReqSuggest q) else throw URIError)
           fetchSuggestions_catch).

(** ... and from the response on. *)
Definition fetchSuggestions_resume (o : Outcome) : Js :=
  async (
    try_catch
      match o with
      | NetworkError => throw NetworkFailure
      | BodyError _ => throw SyntaxError
      | Body _ data => renderSuggestions (match data with JArray l => l | _ => [] end)
      end
      fetchSuggestions_catch).

(* ================================================================== *)
(** * Auto refresh *)

Definition startAutoRefresh (symbol : jsstring) : Js :=
  modify (fun st =>
    let st1 := if handle_truthy (refreshInterval (globals st))
               then clear_handle (refreshInterval (globals st)) st else st in
    let '(id, st2) := new_timer (mkTimer (now (host st1) + 30000) (Some 30000)
                                         (RefreshTask symbol)) st1 in
    upd_globals (set_refreshInterval (Some id)) st2).

Definition stopAutoRefresh : Js :=
  modify (fun st =>
    if handle_truthy (refreshInterval (globals st))
    then clear_handle (refreshInterval (globals st)) st else st).

(* ================================================================== *)
(** * Chart and news *)

Definition drawPriceChart (historicalData : JsValue) : Js :=
  fun st =>
    if negb (has_canvas (host st)) then (Normal, st) else
    (* currentChart.destroy(): the old chart is gone from the canvas; the
       variable is rewritten only by the constructor below *)
    if negb (has_Chart (host st))
    then console (ErrorWith (JStr (str "Chart.js is not loaded. Please include it in index.html"))) st
    else match historicalData with
         | JArray l =>
             if forallb (fun d => negb (nullish d)) l
             then modify (upd_globals (set_currentChart (Some l))) st
             else throw TypeError st
         | _ => throw TypeError st          (* no [map] on it *)
         end.

Fixpoint append_news (items : list JsValue) : Js :=
  match items with
  | [] => skip
  | item :: rest =>
      if nullish item then throw TypeError     (* item.published *)
      else (modify (upd_page (fun p => set_newsContainer (newsContainer p ++ [NewsItem item]) p)) ;;
            append_news rest)
  end.

Definition loadNews (symbol : jsstring) : Js :=
  async (try_catch
           (if well_formed_utf16 symbol then send (ReqNews symbol) else throw URIError)
           console).

Definition loadNews_resume (o : Outcome) : Js :=
  async (
    try_catch
      match o with
      | NetworkError => throw NetworkFailure
      | BodyError _ => throw SyntaxError
      | Body _ news =>
          modify (upd_page (set_newsContainer [])) ;;
          match news with
          | JArray (item :: rest) => append_news (item :: rest)
          | _ => modify (upd_page (set_newsContainer [NoNews]))
          end
      end
      console).

(* ================================================================== *)
(** * Search flow *)

(** The sign and two decimals of a change, as the template writes them. *)
Definition change_part (x : JsNum) : jsstring :=
  (if isFinite x && js_ge x (num_of_Z 0) then str "+" else [])
  ++ (if isFinite x then toFixed2 x else str "-").

Definition change_text (changeVal changePct : JsNum) : jsstring :=
  change_part changeVal ++ str " (" ++ change_part changePct ++ str "%)".

Definition change_class (changeVal : JsNum) : jsstring :=
  if isFinite changeVal && js_ge changeVal (num_of_Z 0)
  then str "price-change positive" else str "price-change negative".

Definition displayStockInfo (data : JsValue) : Js :=
  if nullish data then throw TypeError else
  let changeVal := ToNumber (get_prop_opt data "change") in
  let changePct := ToNumber (get_prop_opt data "change_percent") in
  let mcap := ToNumber (get_prop_opt data "market_cap") in
  let pe := ToNumber (get_prop_opt data "pe_ratio") in
  let low52 := ToNumber (get_prop_opt data "week_52_low") in
  let high52 := ToNumber (get_prop_opt data "week_52_high") in
  modify (upd_page (set_info {|
    stockName := js_or (js_or (get_prop_opt data "name") (get_prop_opt data "symbol")) (JStr (str "-"));
    currentPrice :=
      if Number_isFinite (get_prop_opt data "current_price")
      then rupee ++ toFixed2 (ToNumber (get_prop_opt data "current_price")) else str "-";
    priceChange_text := change_text changeVal changePct;
    priceChange_class := change_class changeVal;
    volume :=
      if Number_isFinite (get_prop_opt data "volume")
      then toLocaleString_en_IN (ToNumber (get_prop_opt data "volume")) else str "-";
    marketCap := if truthy (JNum mcap) then formatNumber mcap else str "-";
    peRatio := if isFinite pe && js_gt pe (num_of_Z 0) then toFixed2 pe else str "-";
    weekRange :=
      if isFinite low52 && isFinite high52
      then rupee ++ toFixed2 low52 ++ str " - " ++ rupee ++ toFixed2 high52
      else str "-"
  |})) ;;
  drawPriceChart (js_or (get_prop_opt data "historical_data") (JArray [])).

Definition busy_search : Button :=
  mkButton (str "<span class=" ++ quoted "loading" ++ str "></span>") true.
Definition idle_search : Button := mkButton (str "Search") false.

(** The [try] / [catch] / [finally] of [searchStock] around a body. *)
Definition searchStock_settle (body : Js) : Js :=
  try_finally
    (try_catch body
       (fun e => console e ;;
                 alert (JStr (str "Error fetching stock data. Please try again."))))
    (modify (upd_page (set_searchBtn idle_search))).

(** [searchStock()] up to its first [await]. *)
Definition searchStock : Js :=
  async (fun st =>
    let symbol := toUpperCase (trim (stockSearch (page st))) in
    if bool_decide (symbol = []) then (Normal, st)
    else (modify (upd_page (set_searchBtn busy_search)) ;;
          if well_formed_utf16 symbol
          then send (ReqSearch symbol)
          else searchStock_settle (throw URIError)) st).

(** ... and from the response on; [symbol] is the constant of the call. *)
Definition searchStock_resume (symbol : jsstring) (o : Outcome) : Js :=
  async (
    searchStock_settle
      match o with
      | NetworkError => throw NetworkFailure
      | BodyError _ => throw SyntaxError
      | Body true data =>
          displayStockInfo data ;;
          loadNews symbol ;;
          modify (upd_page (set_stockInfoPanel (str "block"))) ;;
          startAutoRefresh symbol
      | Body false data =>
          alert (js_or (get_prop_opt data "error")
                       (JStr (str "Stock not found. Please check the symbol.")))
      end).

Definition pickSuggestion (idx : Z) : Js :=
  fun st =>
    let items := lastSuggestions (globals st) in
    if (idx <? 0) || (Z.of_nat (length items) <=? idx) then (Normal, st)
    else match items !! Z.to_nat idx with
         | None => (Normal, st)
         | Some s =>
             match get_prop s "symbol" with
             | None => (Thrown TypeError, st)
             | Some sym =>
                 (modify (upd_page (set_stockSearch (input_text sym))) ;;
                  renderSuggestions [] ;;
                  searchStock) st
             end
         end.

Inductive Direction : Type := Down | Up | OtherDirection.

Definition clear_active (rows : list Row) : list Row :=
  map (fun r => mkRow (row_item r) false) rows.

(** [items[i]] for a number [i]: an element for an index in range. *)
Definition at_index {A} (l : list A) (i : Z) : option A :=
  if i <? 0 then None else l !! Z.to_nat i.

Definition navigateSuggestions (direction : Direction) : Js :=
  fun st =>
    let items := suggestions (page st) in
    match items with
    | [] => (Normal, st)
    | _ =>
        let n := Z.of_nat (length items) in
        let cleared := clear_active items in
        let st1 := upd_page (set_suggestions cleared (suggestions_hidden (page st))) st in
        let i := activeIndex (globals st) in
        let i' := match direction with
                  | Down => Z.rem (i + 1) n
                  | Up => Z.rem (i - 1 + n) n
                  | OtherDirection => i
                  end in
        let st2 := upd_globals (set_activeIndex i') st1 in
        match at_index cleared i' with
        | None => (Thrown TypeError, st2)
        | Some r =>
            (Normal, upd_page (set_suggestions
                                 (<[Z.to_nat i' := mkRow (row_item r) true]> cleared)
                                 (suggestions_hidden (page st))) st2)
        end
    end.

(* ================================================================== *)
(** * Recommendations *)

Definition lower_unit (c : N) : N :=
  if ((65 <=? c) && (c <=? 90))%N then (c + 32)%N else c.

Definition toLowerCase (s : jsstring) : jsstring := lower_unit <$> s.

(** [s.replace(' ', '-')]: the first space only. *)
Fixpoint replace_first_space (s : jsstring) : jsstring :=
  match s with
  | [] => []
  | c :: r => if (c =? 32)%N then 45%N :: r else c :: replace_first_space r
  end.

(** The card of one recommendation, or the TypeError of building it. *)
Definition rec_card (rec : JsValue) : option RecNode :=
  match get_prop rec "recommendation" with
  | None => None                                          (* rec is null *)
  | Some recommendation =>
      match js_or (get_prop_opt recommendation "rating") (JStr (str "Hold")),
            js_or (get_prop_opt recommendation "reasons") (JArray []) with
      | JStr rating, JArray _ =>
          Some (RecCard (replace_first_space (toLowerCase rating)) rec)
      | _, _ => None                                      (* no toLowerCase, or no map *)
      end
  end.

Fixpoint append_cards (recs : list JsValue) : Js :=
  match recs with
  | [] => skip
  | rec :: rest =>
      match rec_card rec with
      | None => throw TypeError
      | Some card =>
          modify (upd_page (fun p =>
            set_recommendationsContainer (recommendationsContainer p ++ [card]) p)) ;;
          append_cards rest
      end
  end.

Definition displayRecommendations (recommendations : JsValue) : Js :=
  modify (upd_page (set_recommendationsContainer [])) ;;
  match recommendations with
  | JArray (rec :: rest) => append_cards (rec :: rest)
  | _ => modify (upd_page (set_recommendationsContainer [NoRecommendations]))
  end.

Definition busy_rec : Button :=
  mkButton (str "<span class=" ++ quoted "loading" ++ str "></span> Loading...") true.
Definition idle_rec : Button := mkButton (str "Get Recommendations") false.

(** The [try] / [catch] / [finally] of [getRecommendations] around a body. *)
Definition getRecommendations_settle (body : Js) : Js :=
  try_finally
    (try_catch body
       (fun e => console e ;;
                 alert (JStr (str "Error getting recommendations. Please try again."))))
    (modify (upd_page (set_recBtn idle_rec))).

(** [getRecommendations()] up to its first [await]. *)
Definition getRecommendations : Js :=
  async (
    modify (upd_page (set_recBtn busy_rec)) ;;
    fun st => send (ReqRecommendations (userProfile (globals st))) st).

Definition getRecommendations_resume (o : Outcome) : Js :=
  async (
    getRecommendations_settle
      match o with
      | NetworkError => throw NetworkFailure
      | BodyError _ => throw SyntaxError
      | Body ok recommendations =>
          if negb ok
          then throw (ErrorWith (js_or (get_prop_opt recommendations "error")
                                       (JStr (str "Failed to load recommendations"))))
          else displayRecommendations recommendations
      end).

(* ================================================================== *)
(** * Profile *)

Definition default_profile : JsValue :=
  JObject [(str "budget", JNum (num_of_Z 100000));
           (str "risk_tolerance", JStr (str "medium"));
           (str "timeline", JStr (str "medium"))].

(** [if (saved)] on what [localStorage.getItem] returned: [null] and the
    empty text are falsy. *)
Definition saved_truthy (saved : option jsstring) : option jsstring :=
  match saved with
  | Some (c :: r) => Some (c :: r)
  | _ => None
  end.

Definition loadUserProfile : Js :=
  fun st =>
    match saved_truthy (stored_profile (host st)) with
    | Some saved =>
        match JSON_parse saved with
        | Some v => (Normal, upd_globals (set_userProfile v) st)
        | None => (Thrown SyntaxError, st)
        end
    | None => (Normal, st)
    end.

(** Whether [v.toLocaleString('en-IN')] returns, for a value that came out
    of [JSON.parse] or of the script: [null] and [undefined] have no such
    method; an object with an own member of that name has a value there
    that cannot be called; the method objects inherit calls [toString],
    which an own member of that name hides likewise; the method of arrays
    calls [toLocaleString] on every element that is not [null]. *)
Fixpoint localizable (v : JsValue) : bool :=
  match v with
  | JUndefined | JNull => false
  | JBool _ | JNum _ | JStr _ => true
  | JArray items =>
      forallb (fun x => match x with
                        | JUndefined | JNull => true
                        | _ => localizable x
                        end) items
  | JObject members =>
      negb (existsb (fun kv => bool_decide (kv.1 = str "toLocaleString")
                               || bool_decide (kv.1 = str "toString")) members)
  end.

(** Whether the conversion of [v] to a string returns, as in the
    assignment of [v] to the [value] of a form field: an object with an
    own member [toString] has no method to convert it (the [valueOf] it
    inherits returns the object itself); an array converts every element
    that is not [null]. *)
Fixpoint stringable (v : JsValue) : bool :=
  match v with
  | JArray items =>
      forallb (fun x => match x with
                        | JUndefined | JNull => true
                        | _ => stringable x
                        end) items
  | JObject members =>
      negb (existsb (fun kv => bool_decide (kv.1 = str "toString")) members)
  | _ => true
  end.

(** The four assignments of [updateProfileDisplay], in order; one that
    throws leaves the earlier ones done. *)
Definition updateProfileDisplay : Js :=
  fun st =>
    let profile := userProfile (globals st) in
    let old := profileView (page st) in
    match get_prop profile "budget" with
    | None => (Thrown TypeError, st)                 (* userProfile is null *)
    | Some budget =>
        let show b r t :=
          upd_page (set_profileView {| userBudget := budget; budgetField := b;
                                       riskField := r; timelineField := t |}) st in
        if negb (localizable budget) then (Thrown TypeError, st)
        else if negb (stringable budget)
        then (Thrown TypeError, show (budgetField old) (riskField old) (timelineField old))
        else
          let risk := get_prop_opt profile "risk_tolerance" in
          if negb (stringable risk)
          then (Thrown TypeError, show budget (riskField old) (timelineField old))
          else
            let timeline := get_prop_opt profile "timeline" in
            if negb (stringable timeline)
            then (Thrown TypeError, show budget risk (timelineField old))
            else (Normal, show budget risk timeline)
    end.

(** The first revisions of the script refresh the display from inside
    [loadUserProfile]. *)
Module Rev1.

Definition loadUserProfile : Js :=
  fun st =>
    match saved_truthy (stored_profile (host st)) with
    | Some saved =>
        match JSON_parse saved with
        | Some v => updateProfileDisplay (upd_globals (set_userProfile v) st)
        | None => (Thrown SyntaxError, st)
        end
    | None => (Normal, st)
    end.

End Rev1.

(* ================================================================== *)
(** * Events *)

Inductive Key : Type := Enter | ArrowDown | ArrowUp | Escape | OtherKey.

Inductive Event : Type :=
| DOMContentLoaded
| InputEvent (text : jsstring)     (* the field now holds [text] *)
| Keydown (k : Key)
| ClickSearch
| ClickRow (i : nat)
| ClickElsewhere                   (* outside the field and the dropdown *)
| ClickRecommendations
| TimerFires (id : nat)
| Response (rid : nat) (o : Outcome).

(** Two listeners of one event: the second runs whatever the first did. *)
Definition then_listener (a b : Js) : Js :=
  fun st => match a st with
            | (Normal, st') => b st'
            | (Thrown e, st') => (Thrown e, snd (b st'))
            end.

(** A call of the function [debounce(fn, delay)] returns: the pending
    timeout is cleared and a new one is set, to run [fn] in [delay] ms. *)
Definition debounce (fn : TimerTask) (delay : Z) : Js :=
  modify (fun st =>
    let st1 := clear_handle (suggestTimer (globals st)) st in
    let '(id, st2) := new_timer (mkTimer (now (host st1) + delay) None fn) st1 in
    upd_globals (set_suggestTimer (Some id)) st2).

(** The callback a timer runs. *)
Definition run_task (tk : TimerTask) : Js :=
  match tk with
  | SuggestTask =>
      fun st => fetchSuggestions (trim (stockSearch (page st))) st
  | RefreshTask symbol =>
      (if bool_decide (symbol = []) then skip
       else modify (upd_page (set_stockSearch symbol))) ;;
      searchStock
  end.

Definition on_keydown (k : Key) : Js :=
  match k with
  | Enter =>
      fun st =>
        if 0 <=? activeIndex (globals st)
        then pickSuggestion (activeIndex (globals st)) st
        else (renderSuggestions [] ;; searchStock) st
  | ArrowDown => navigateSuggestions Down
  | ArrowUp => navigateSuggestions Up
  | Escape => renderSuggestions []
  | OtherKey => skip
  end.

Definition document_click_outside : Js := renderSuggestions [].

Definition handle (ev : Event) (st : State) : option (Completion * State) :=
  match ev with
  | DOMContentLoaded =>
      if wired (host st) then None
      else Some ((loadUserProfile ;; updateProfileDisplay ;;
                  modify (upd_host (set_wired true))) st)
  | InputEvent text =>
      if wired (host st)
      then Some (debounce SuggestTask 250 (upd_page (set_stockSearch text) st))
      else None
  | Keydown k =>
      if wired (host st) then Some (on_keydown k st) else None
  | ClickSearch =>
      if wired (host st) && negb (disabled (searchBtn (page st)))
      then Some (then_listener (renderSuggestions [] ;; searchStock)
                               document_click_outside st)
      else None
  | ClickRow i =>
      if wired (host st) && (i <? length (suggestions (page st)))%nat
      then Some (then_listener (pickSuggestion (Z.of_nat i))
                   (fun st' => match suggestions (page st') with
                               | [] => document_click_outside st'
                               | _ => (Normal, st')    (* the row is still in the box *)
                               end) st)
      else None
  | ClickElsewhere =>
      if wired (host st) then Some (document_click_outside st) else None
  | ClickRecommendations =>
      if wired (host st) && negb (disabled (recBtn (page st)))
      then Some (then_listener getRecommendations document_click_outside st)
      else None
  | TimerFires id =>
      match timers (host st) !! id with
      | Some tm =>
          if due tm <=? now (host st) then
            let table :=
              match period tm with
              | None => delete id (timers (host st))
              | Some p => <[id := mkTimer (now (host st) + p) (Some p) (task tm)]> (timers (host st))
              end in
            Some (run_task (task tm)
                    (upd_host (fun h => set_timers (next_timer h) table h) st))
          else None
      | None => None
      end
  | Response rid o =>
      match inflight (host st) !! rid with
      | Some req =>
          let st1 := upd_host (fun h => set_inflight (next_request h)
                                          (delete rid (inflight h)) h) st in
          Some (match req with
                | ReqSuggest _ => fetchSuggestions_resume o
                | ReqSearch symbol => searchStock_resume symbol o
                | ReqNews _ => loadNews_resume o
                | ReqRecommendations _ => getRecommendations_resume o
                end st1)
      | None => None
      end
  end.

(** An event at time [t]: the clock never runs backwards. *)
Definition dispatch (t : Z) (ev : Event) (st : State) : option (Completion * State) :=
  if now (host st) <=? t
  then handle ev (upd_host (set_now t) st)
  else None.

Definition step (te : Z * Event) (st : State) : option State :=
  snd <$> dispatch (fst te) (snd te) st.

Fixpoint run (trace : list (Z * Event)) (st : State) : option State :=
  match trace with
  | [] => Some st
  | te :: rest =>
      match step te st with
      | Some st' => run rest st'
      | None => None
      end
  end.

(** The page as it is served, before the script has run. *)
Definition blank_info : InfoPanel :=
  mkInfo (JStr []) [] [] [] [] [] [] [].

Definition initial (saved : option jsstring) : State :=
  {| globals := mkGlobals default_profile None None None (-1) [];
     page := mkPage [] idle_search idle_rec [] true (str "none") blank_info [] []
                    (mkProfileView JUndefined JUndefined JUndefined JUndefined);
     host := mkHost 0 1 ∅ 0 ∅ saved true true false [] |}.

(* ================================================================== *)
(** * Saving the profile *)

(** [parseInt(s, 10)]: white space is skipped, then an optional sign, then
    the longest run of decimal digits is read; without a digit the result
    is [NaN], otherwise the double nearest to the integer read. *)
Definition parseInt10 (s : jsstring) : JsNum :=
  let t := trimStart s in
  let '(neg, r) :=
    match strip_prefix [45%N] t with
    | Some r' => (true, r')
    | None => (false, default t (strip_prefix [43%N] t))
    end in
  let '(ds, _) := span_digits r in
  if bool_decide (ds = []) then NaN
  else binary64 (inject_Z (if neg then - decimal_value ds else decimal_value ds)).

(** ** JSON.stringify, for the object [saveProfile] stores *)

Definition hex_unit (d : N) : N := (if d <? 10 then 48 + d else 87 + d)%N.

(** [\uXXXX], in lower case. *)
Definition unicode_escape (c : N) : jsstring :=
  [92; 117; hex_unit (c / 4096 mod 16); hex_unit (c / 256 mod 16);
   hex_unit (c / 16 mod 16); hex_unit (c mod 16)]%N.

(** The code units of a string between the quotes of its JSON text: the
    short escapes, [\uXXXX] for the other control characters and for a
    surrogate without its partner, everything else as it is. *)
Fixpoint quote_units (s : jsstring) : jsstring :=
  match s with
  | [] => []
  | c :: r =>
      if (c =? 8)%N then str "\b" ++ quote_units r
      else if (c =? 9)%N then str "\t" ++ quote_units r
      else if (c =? 10)%N then str "\n" ++ quote_units r
      else if (c =? 12)%N then str "\f" ++ quote_units r
      else if (c =? 13)%N then str "\r" ++ quote_units r
      else if (c =? 34)%N then [92; 34]%N ++ quote_units r
      else if (c =? 92)%N then [92; 92]%N ++ quote_units r
      else if (c <? 32)%N then unicode_escape c ++ quote_units r
      else if is_high_surrogate c then
        match r with
        | d :: r' =>
            if is_low_surrogate d then c :: d :: quote_units r'
            else unicode_escape c ++ quote_units r
        | [] => unicode_escape c
        end
      else if is_low_surrogate c then unicode_escape c ++ quote_units r
      else c :: quote_units r
  end.

Definition JSON_quote (s : jsstring) : jsstring := [34%N] ++ quote_units s ++ [34%N].

(** A number in JSON text: [null] unless it is finite (an integer up to
    2^53 in magnitude is written with all its digits). *)
Definition JSON_number (n : JsNum) : jsstring :=
  if isFinite n then Number_toString n else str "null".

(** [JSON.stringify({budget, risk_tolerance, timeline})] for a number and
    two strings: the members in the order of the literal, no white space. *)
Definition stringify_profile (budget : JsNum) (risk timeline : jsstring) : jsstring :=
  str "{" ++ JSON_quote (str "budget") ++ str ":" ++ JSON_number budget
  ++ str "," ++ JSON_quote (str "risk_tolerance") ++ str ":" ++ JSON_quote risk
  ++ str "," ++ JSON_quote (str "timeline") ++ str ":" ++ JSON_quote timeline
  ++ str "}".

Definition set_stored_profile v h :=
  mkHost (now h) (next_timer h) (timers h) (next_request h) (inflight h) v
         (has_canvas h) (has_Chart h) (wired h) (effects h).

(** ** The page with its profile dialog *)

Record Dialog : Type := mkDialog {
  shown : State;
  profileModal : jsstring                 (* style.display of #profileModal *)
}.

Definition openProfileModal (d : Dialog) : Dialog := mkDialog (shown d) (str "block").

Definition closeProfileModal (d : Dialog) : Dialog := mkDialog (shown d) (str "none").

(** The profile [saveProfile] builds from the three fields of the form. *)
Definition profile_of (budget risk timeline : jsstring) : JsValue :=
  JObject [(str "budget", JNum (parseInt10 budget));
           (str "risk_tolerance", JStr risk);
           (str "timeline", JStr timeline)].

(** [saveProfile(e)], the form holding the three texts when it is
    submitted. The storage takes the item ([setItem] does not run out of
    quota). *)
Definition saveProfile (budget risk timeline : jsstring) (d : Dialog)
  : Completion * Dialog :=
  let st1 := upd_globals (set_userProfile (profile_of budget risk timeline)) (shown d) in
  let st2 := upd_host (set_stored_profile
                         (Some (stringify_profile (parseInt10 budget) risk timeline))) st1 in
  match updateProfileDisplay st2 with
  | (Normal, st3) =>
      (Normal, mkDialog (upd_page (set_recommendationsContainer []) st3) (str "none"))
  | (Thrown e, st3) => (Thrown e, mkDialog st3 (profileModal d))
  end.

(** The events of the dialog, next to those of the page. A click on one of
    its controls is also a click outside the suggestions, which the listener
    on the document answers; a click on the backdrop reaches the listener on
    the window as well. *)
Inductive DialogEvent : Type :=
| PageEvent (ev : Event)
| ClickProfileBtn
| ClickClose
| ClickBackdrop
| SubmitProfile (budget risk timeline : jsstring).

Definition on_page (m : Js) (d : Dialog) : Completion * Dialog :=
  let r := m (shown d) in (r.1, mkDialog r.2 (profileModal d)).

Definition handle_dialog (ev : DialogEvent) (d : Dialog) : option (Completion * Dialog) :=
  match ev with
  | PageEvent ev =>
      (fun r : Completion * State => (r.1, mkDialog r.2 (profileModal d)))
        <$> handle ev (shown d)
  | ClickProfileBtn =>
      if wired (host (shown d))
      then Some (on_page document_click_outside (openProfileModal d)) else None
  | ClickClose =>
      if wired (host (shown d))
      then Some (on_page document_click_outside (closeProfileModal d)) else None
  | ClickBackdrop =>
      if wired (host (shown d))
      then Some (let r := on_page document_click_outside d in (r.1, closeProfileModal r.2))
      else None
  | SubmitProfile budget risk timeline =>
      if wired (host (shown d)) then Some (saveProfile budget risk timeline d) else None
  end.

Definition step_dialog (te : Z * DialogEvent) (d : Dialog) : option Dialog :=
  if now (host (shown d)) <=? te.1
  then snd <$> handle_dialog te.2 (mkDialog (upd_host (set_now te.1) (shown d)) (profileModal d))
  else None.

Fixpoint run_dialog (trace : list (Z * DialogEvent)) (d : Dialog) : option Dialog :=
  match trace with
  | [] => Some d
  | te :: rest =>
      match step_dialog te d with
      | Some d' => run_dialog rest d'
      | None => None
      end
  end.

(** The page as it is served; the style sheet decides whether the dialog
    shows. *)
Definition initial_dialog (saved : option jsstring) (modal : jsstring) : Dialog :=
  mkDialog (initial saved) modal.

(** The page after a reload: what the storage holds is what the last page
    left there. *)
Definition reload (d : Dialog) : State := initial (stored_profile (host (shown d))).

(* ================================================================== *)
(** * Observations, invariants and sample states

    What the theorems below are stated with: the display forms of the
    specification, the timer bookkeeping and its invariant, what a run has
    fetched, and a few concrete pages. *)

(** ** The budget of the JSON parser *)

(** What a successful parse on some budget tells: the rest is no longer
    than the input, and any budget of twice the consumed length plus one
    gives the same result. *)
Definition enough (consumed budget : nat) : Prop := (2 * consumed + 1 <= budget)%nat.

Definition value_ok (f : nat) : Prop :=
  forall s v r, parse_value f s = Some (v, r) ->
    (length r <= length s)%nat /\
    forall f', enough (length s - length r) f' -> parse_value f' s = Some (v, r).

Definition elements_ok (f : nat) : Prop :=
  forall s acc v r, parse_elements f s acc = Some (v, r) ->
    (length r <= length s)%nat /\
    forall f', enough (length s - length r) f' -> parse_elements f' s acc = Some (v, r).

Definition members_ok (f : nat) : Prop :=
  forall s acc v r, parse_members f s acc = Some (v, r) ->
    (length r <= length s)%nat /\
    forall f', enough (length s - length r) f' -> parse_members f' s acc = Some (v, r).

(** ** Display forms *)

(** The three display forms the specification names. *)
Inductive Magnitude : Type := Crore | Lakh | Plain.

(** [a < b] of JavaScript. *)
Definition js_lt (a b : JsNum) : bool := js_gt b a.

(** The specification's table: at least 10,000,000 is crore; at least
    100,000 and below 10,000,000 is lakh; anything else is plain. *)
Definition magnitude_of (num : JsNum) : Magnitude :=
  if js_ge num (num_of_Z 10000000) then Crore
  else if js_ge num (num_of_Z 100000) && js_lt num (num_of_Z 10000000) then Lakh
  else Plain.

(** Each form: the quotient by the unit with [toFixed(2)] and the unit's
    suffix, or the locale-grouped number. *)
Definition form (m : Magnitude) (num : JsNum) : jsstring :=
  match m with
  | Crore => rupee ++ toFixed2 (js_div_lit num 10000000) ++ str " Cr"
  | Lakh => rupee ++ toFixed2 (js_div_lit num 100000) ++ str " L"
  | Plain => rupee ++ toLocaleString_en_IN num
  end.

(** ** Keyboard navigation *)

(** The state after one arrow key. *)
Definition press (d : Direction) (st : State) : State :=
  snd (navigateSuggestions d st).

Definition rows_of (st : State) : nat := length (suggestions (page st)).

Definition next_index (d : Direction) (n i : Z) : Z :=
  match d with
  | Down => Z.rem (i + 1) n
  | Up => Z.rem (i - 1 + n) n
  | OtherDirection => i
  end.

(** ** What a handler keeps *)

(** [m] keeps [P], whether it completes or throws. *)
Definition stable (P : State -> Prop) (m : Js) : Prop :=
  forall st, P st -> P (snd (m st)).

(** ** Timers *)

(** What the timer bookkeeping of the script consists of. *)
Definition timer_state (st : State) : nat * gmap nat Timer * option nat * option nat :=
  (next_timer (host st), timers (host st),
   refreshInterval (globals st), suggestTimer (globals st)).

Definition is_interval (tm : Timer) : bool :=
  match period tm with Some _ => true | None => false end.

(** The live refresh polls and the live debounce timeouts. *)
Definition polls (st : State) : gmap nat Timer :=
  filter (fun kv => is_interval kv.2 = true) (timers (host st)).

Definition pending_suggests (st : State) : gmap nat Timer :=
  filter (fun kv => is_interval kv.2 = false) (timers (host st)).

(** The bookkeeping invariant: live handles are positive and below the
    next fresh one, and so are the two handles the script keeps; a live
    timer is an interval exactly when [refreshInterval] names it, and a
    timeout exactly when [suggestTimer] names it; a timeout carries the
    debounced callback. *)
Record timers_ok (st : State) : Prop := mk_timers_ok {
  ok_next : (0 < next_timer (host st))%nat;
  ok_live : forall id tm, timers (host st) !! id = Some tm ->
              (0 < id < next_timer (host st))%nat;
  ok_refresh : forall id, refreshInterval (globals st) = Some id ->
                 (id < next_timer (host st))%nat;
  ok_suggest : forall id, suggestTimer (globals st) = Some id ->
                 (id < next_timer (host st))%nat;
  ok_interval : forall id tm, timers (host st) !! id = Some tm ->
                  (is_interval tm = true <-> refreshInterval (globals st) = Some id);
  ok_timeout : forall id tm, timers (host st) !! id = Some tm ->
                 (is_interval tm = false <-> suggestTimer (globals st) = Some id);
  ok_task : forall id tm, timers (host st) !! id = Some tm ->
              is_interval tm = false -> task tm = SuggestTask
}.

(** [keeps m]: the handler leaves the timer bookkeeping alone. *)
Definition keeps (m : Js) : Prop :=
  forall ts, stable (fun st => timer_state st = ts) m.

(** The table [startAutoRefresh] inserts into: the old poll is gone. *)
Definition without_poll (st : State) : gmap nat Timer :=
  timers (host (if handle_truthy (refreshInterval (globals st))
                then clear_handle (refreshInterval (globals st)) st else st)).

(** The table the debounced handler inserts into: the pending call is
    cancelled. *)
Definition without_suggest (st : State) : gmap nat Timer :=
  timers (host (clear_handle (suggestTimer (globals st)) st)).

(** ** Typing and fetching *)

(** The queries [fetchSuggestions] has been called with, latest first. *)
Definition fetch_calls (st : State) : list jsstring :=
  omap (fun e => match e with CallFetchSuggestions q => Some q | _ => None end)
       (effects (host st)).

(** Whether [fetchSuggestions q] goes to the network: the query has two
    code units or more (and a URL can be built from it). *)
Definition sends_request (q : jsstring) : bool :=
  negb (bool_decide (q = []) || (length q <? 2)%nat) && well_formed_utf16 q.

(** A run of keystrokes: each leaves the field holding its text. *)
Definition keystrokes (burst : list (Z * jsstring)) : list (Z * Event) :=
  map (fun k => (k.1, InputEvent k.2)) burst.

(** Every keystroke after the first comes less than 250 ms after the one
    before it. *)
Fixpoint spaced (prev : Z) (more : list (Z * jsstring)) : Prop :=
  match more with
  | [] => True
  | k :: rest => prev <= k.1 < prev + 250 /\ spaced k.1 rest
  end.

(** Every live interval runs the refresh of some symbol. *)
Definition polls_refresh (st : State) : Prop :=
  forall id tm, timers (host st) !! id = Some tm -> is_interval tm = true ->
    exists symbol, task tm = RefreshTask symbol.

(** The bookkeeping, the tasks of the polls and the pending calls: all
    three are read from the timers and the two handles. *)
Definition timers_view (v : gmap nat Timer) (st : State) : Prop :=
  timers_ok st /\ polls_refresh st /\ pending_suggests st = v.

(** What a debounced call depends on: the text in the field, and the calls
    of [fetchSuggestions] so far. *)
Definition typing_view (st : State) : jsstring * list jsstring :=
  (stockSearch (page st), fetch_calls st).

(** [apart m]: the handler neither assigns to the field nor calls
    [fetchSuggestions]. *)
Definition apart (m : Js) : Prop :=
  forall v, stable (fun st => typing_view st = v) m.

(** [silent m]: the handler does not call [fetchSuggestions]. *)
Definition silent (m : Js) : Prop :=
  forall v, stable (fun st => fetch_calls st = v) m.

Definition is_fetch_call (e : Effect) : bool :=
  match e with CallFetchSuggestions _ => true | _ => false end.

(** An event that is neither a keystroke nor the firing of timer [id]. *)
Definition elsewhere (id : nat) (ev : Event) : bool :=
  match ev with
  | InputEvent _ => false
  | TimerFires j => negb (bool_decide (j = id))
  | _ => true
  end.

(** An event whose handlers never assign to the field: not a keystroke,
    not the pick of a row (a click on it, or Enter), not a timer. *)
Definition keeps_field (ev : Event) : bool :=
  match ev with
  | InputEvent _ | ClickRow _ | Keydown Enter | TimerFires _ => false
  | _ => true
  end.


(** ** The dropdown and the script's copy of it *)

(** What the typeahead consists of: the rows in the box, the list the
    script keeps of them, and the index of the selection. *)
Definition session_view (st : State) : list Row * list JsValue * Z :=
  (suggestions (page st), lastSuggestions (globals st), activeIndex (globals st)).

(** The rows on the page are those of [lastSuggestions], in order; the
    index is -1 or that of a row; and a row carries the class [active]
    exactly when the index is its own. *)
Record session_ok (st : State) : Prop := mk_session_ok {
  ok_rows : row_item <$> suggestions (page st) = lastSuggestions (globals st);
  ok_index : -1 <= activeIndex (globals st) < Z.of_nat (length (suggestions (page st)))
             \/ (suggestions (page st) = [] /\ activeIndex (globals st) = -1);
  ok_active : forall i r, suggestions (page st) !! i = Some r ->
                (row_active r = true <-> activeIndex (globals st) = Z.of_nat i)
}.

(** [calm m]: the handler leaves the typeahead alone. *)
Definition calm (m : Js) : Prop :=
  forall v, stable (fun st => session_view st = v) m.

(** ** Symbols on their way *)

(** A symbol as [searchStock] sends it: not empty, fit for a URL, and
    already trimmed and in upper case. *)
Definition searchable (symbol : jsstring) : bool :=
  negb (bool_decide (symbol = [])) && well_formed_utf16 symbol
  && bool_decide (toUpperCase (trim symbol) = symbol).

(** The requests in flight and the timers set. *)
Definition traffic (st : State) : gmap nat Timer * gmap nat Request :=
  (timers (host st), inflight (host st)).

(** Every search in flight asks for a searchable symbol, and every live
    interval is a 30 s poll for one. *)
Record symbols_ok (st : State) : Prop := mk_symbols_ok {
  ok_search : forall rid symbol,
    inflight (host st) !! rid = Some (ReqSearch symbol) -> searchable symbol = true;
  ok_poll : forall id tm, timers (host st) !! id = Some tm -> is_interval tm = true ->
    period tm = Some 30000 /\
    exists symbol, task tm = RefreshTask symbol /\ searchable symbol = true
}.

(** [quiet m]: the handler sends nothing and sets no timer. *)
Definition quiet (m : Js) : Prop :=
  forall v, stable (fun st => traffic st = v) m.

(** ** What a response puts on the page *)











(** ** Stored profiles *)

(** The text of an integer, as [Number::toString] writes one of fewer than
    22 digits. *)
Definition int_text (z : Z) : jsstring :=
  (if z <? 0 then str "-" else []) ++ dec (Z.to_N (Z.abs z)).

(** ** Sample data and pages *)

Definition flat_quote : JsValue :=
  JObject [(str "symbol", JStr (str "TCS"));
           (str "change", JNum (num_of_Z 0));
           (str "change_percent", JNum (num_of_Z 0))].

Definition suggestion (symbol name : string) : JsValue :=
  JObject [(str "symbol", JStr (str symbol));
           (str "exchange", JStr (str "NSE"));
           (str "name", JStr (str name))].

Definition three_rows : State :=
  snd (renderSuggestions [suggestion "TCS" "Tata Consultancy Services";
                          suggestion "TATAMOTORS" "Tata Motors";
                          suggestion "TATASTEEL" "Tata Steel"] (initial None)).

Definition searching : State :=
  snd (searchStock (upd_page (set_stockSearch (str " tcs ")) (initial None))).

Definition loaded : State :=
  default (initial None) (run [(0, DOMContentLoaded)] (initial None)).

(** A page on which TCS was searched and the quote has arrived: the poll
    for TCS is running under handle 2 (handle 1 went to the debounce). *)
Definition tcs_trace : list (Z * Event) :=
  [(0, DOMContentLoaded); (10, InputEvent (str "tcs")); (20, Keydown Enter);
   (100, Response 0 (Body true flat_quote))].

Definition polling : State := default (initial None) (run tcs_trace (initial None)).



(** Page events as events of the page with its dialog. *)
Definition page_events (trace : list (Z * Event)) : list (Z * DialogEvent) :=
  map (fun te => (te.1, PageEvent te.2)) trace.

(** A search for TCS, then a profile saved while the quote is polled. *)
Definition saving_trace : list (Z * DialogEvent) :=
  page_events tcs_trace
  ++ [(200, ClickProfileBtn);
      (900, SubmitProfile (str "250000") (str "high") (str "long"))].

Definition saved_page : Dialog :=
  default (initial_dialog None []) (run_dialog saving_trace (initial_dialog None [])).

(* ================================================================== *)
(** * Checks on concrete inputs *)

Example formatNumber_12500000 :
  formatNumber (num_of_Z 12500000) = rupee ++ str "1.25 Cr".
Proof. reflexivity. Qed.

Example formatNumber_250000 :
  formatNumber (num_of_Z 250000) = rupee ++ str "2.50 L".
Proof. reflexivity. Qed.

Example formatNumber_5000 :
  formatNumber (num_of_Z 5000) = rupee ++ str "5,000".
Proof. reflexivity. Qed.

Example formatNumber_99999 :
  formatNumber (num_of_Z 99999) = rupee ++ str "99,999".
Proof. reflexivity. Qed.

Example formatNumber_neg :
  formatNumber (num_of_Z (-20000000)) = rupee ++ str "-2,00,00,000".
Proof. reflexivity. Qed.

Example Number_of_text : ToNumber (JStr (str " 12.50 ")) = Fin (scale10 1250 (-2)).
Proof. reflexivity. Qed.

Example Number_of_hex : ToNumber (JStr (str "0x1F")) = num_of_Z 31.
Proof. reflexivity. Qed.

Example Number_of_dot : ToNumber (JStr (str ".")) = NaN.
Proof. reflexivity. Qed.

Example Number_of_pair : ToNumber (JArray [JNum (num_of_Z 1); JNum (num_of_Z 2)]) = NaN.
Proof. reflexivity. Qed.

Example parse_chars_escapes :
  parse_chars (str "a\n\u0041b" ++ [34%N] ++ str "rest")
  = Some (str "a" ++ [10%N; 65%N] ++ str "b", str "rest").
Proof. reflexivity. Qed.

Example JSON_parse_profile :
  JSON_parse (str "{" ++ quoted "budget" ++ str ": 5000, "
                ++ quoted "risk_tolerance" ++ str ": " ++ quoted "low" ++ str ", "
                ++ quoted "timeline" ++ str ":" ++ quoted "long" ++ str "} ")
  = Some (JObject [(str "budget", JNum (Fin (scale10 5000 0)));
                   (str "risk_tolerance", JStr (str "low"));
                   (str "timeline", JStr (str "long"))]).
Proof. reflexivity. Qed.

Example JSON_parse_open_brace : JSON_parse (str "{") = None.
Proof. reflexivity. Qed.

Example JSON_parse_blank : JSON_parse (str " ") = None.
Proof. reflexivity. Qed.

Example JSON_parse_leading_zero : JSON_parse (str "[01]") = None.
Proof. reflexivity. Qed.

Example JSON_parse_nested :
  JSON_parse (str " [1, [true, {}], null ] ")
  = Some (JArray [JNum (Fin (scale10 1 0)); JArray [JBool true; JObject []]; JNull]).
Proof. reflexivity. Qed.

Example Number_toString_int : Number_toString (num_of_Z 1200) = str "1200".
Proof. reflexivity. Qed.

Example Number_toString_frac : Number_toString (Fin (scale10 (-125) (-2))) = str "-1.25".
Proof. reflexivity. Qed.

Example Number_toString_small : Number_toString (Fin (scale10 5 (-7))) = str "5e-7".
Proof. reflexivity. Qed.

Example Number_toString_milli : Number_toString (Fin (scale10 5 (-3))) = str "0.005".
Proof. reflexivity. Qed.

(* ================================================================== *)
(** * The budget of the JSON parser *)

Section ParserBudget.

Lemma drop_while_length {A} (p : A -> bool) l : (length (drop_while p l) <= length l)%nat.
Proof. induction l as [|c r IH]; simpl; [lia|]. destruct (p c); simpl; lia. Qed.

Lemma skip_ws_length s : (length (skip_ws s) <= length s)%nat.
Proof. apply drop_while_length. Qed.

Lemma strip_prefix_length p : forall s r,
  strip_prefix p s = Some r -> (length r <= length s)%nat.
Proof.
  induction p as [|a p IH]; intros [|b s] r; simpl; try done.
  - by intros [= <-].
  - by intros [= <-].
  - destruct (a =? b)%N; [|done]. intros H%IH. lia.
Qed.

Lemma strip_unit_length c s r :
  strip_prefix [c] s = Some r -> length s = S (length r).
Proof.
  destruct s as [|b s]; simpl; [done|].
  destruct (c =? b)%N; [|done]. by intros [= <-].
Qed.

Lemma parse_chars_length n : forall s t r,
  (length s <= n)%nat -> parse_chars s = Some (t, r) -> (length r <= length s)%nat.
Proof.
  induction n as [|n IH]; intros [|c s] t r Hn; simpl in *; try done; [lia|].
  destruct (c =? 34)%N; [intros [= _ <-]; lia|].
  destruct (c =? 92)%N.
  - destruct s as [|e r1]; [done|].
    destruct (e =? 117)%N.
    + destruct r1 as [|a [|b [|c' [|d r2]]]]; try done.
      destruct (hex_digit a), (hex_digit b), (hex_digit c'), (hex_digit d); try done.
      destruct (parse_chars r2) as [[t' r']|] eqn:E; [|done].
      intros [= _ <-]. apply IH in E; simpl in *; lia.
    + destruct (escape_unit e); [|done].
      destruct (parse_chars r1) as [[t' r']|] eqn:E; [|done].
      intros [= _ <-]. apply IH in E; simpl in *; lia.
  - destruct (c <? 32)%N; [done|].
    destruct (parse_chars s) as [[t' r']|] eqn:E; [|done].
    intros [= _ <-]. apply IH in E; simpl in *; lia.
Qed.

Lemma span_digits_length s : (length (span_digits s).2 <= length s)%nat.
Proof.
  induction s as [|c r IH]; simpl; [lia|].
  destruct (is_digit c); [|simpl; lia].
  destruct (span_digits r) as [d r']. simpl in *. lia.
Qed.

Lemma exponent_digits_length (neg : bool) r1 e r :
  (let '(ds, r2) := span_digits r1 in
   if bool_decide (ds = []) then None
   else Some (if neg then - decimal_value ds else decimal_value ds, r2)) = Some (e, r) ->
  (length r <= length r1)%nat.
Proof.
  pose proof (span_digits_length r1) as Hd.
  destruct (span_digits r1) as [ds r2]. destruct (bool_decide _); [done|].
  by intros [= _ <-].
Qed.

Lemma exponent_part_length s e r :
  exponent_part s = Some (e, r) -> (length r <= length s)%nat.
Proof.
  unfold exponent_part. destruct s as [|c s]; [by intros [= _ <-]|].
  destruct ((c =? 101) || (c =? 69))%N; [|by intros [= _ <-]].
  destruct (strip_prefix [45%N] s) as [r'|] eqn:E1.
  - apply strip_prefix_length in E1. intros H.
    apply (exponent_digits_length true) in H. simpl. lia.
  - destruct (strip_prefix [43%N] s) as [r'|] eqn:E2; simpl; intros H;
      apply (exponent_digits_length false) in H; [|lia].
    apply strip_prefix_length in E2. lia.
Qed.

Lemma number_body_length (neg : bool) r0 n r :
  (let '(ip, r1) := span_digits r0 in
   match ip with
   | [] => None
   | d :: more =>
       if (d =? 48)%N && negb (bool_decide (more = [])) then None else
       let frac :=
         match strip_prefix [46%N] r1 with
         | Some r =>
             let '(fp, r2) := span_digits r in
             if bool_decide (fp = []) then None else Some (fp, r2)
         | None => Some ([], r1)
         end in
       match frac with
       | None => None
       | Some (fp, r2) =>
           match exponent_part r2 with
           | None => None
           | Some (e, r3) =>
               let m := decimal_value (ip ++ fp) in
               Some (Fin (scale10 (if neg then - m else m) (e - Z.of_nat (length fp))), r3)
           end
       end
   end) = Some (n, r) ->
  (length r <= length r0)%nat.
Proof.
  pose proof (span_digits_length r0) as Hd.
  destruct (span_digits r0) as [ip r1]. destruct ip as [|d more]; [done|].
  destruct (_ && _); [done|]. cbv zeta.
  destruct (strip_prefix [46%N] r1) as [r'|] eqn:E1.
  - apply strip_prefix_length in E1. pose proof (span_digits_length r') as Hd'.
    destruct (span_digits r') as [fp r2]. destruct (bool_decide _); [done|].
    destruct (exponent_part r2) as [[e r3]|] eqn:E2; [|done].
    apply exponent_part_length in E2. intros [= _ <-]. simpl in *. lia.
  - destruct (exponent_part r1) as [[e r3]|] eqn:E2; [|done].
    apply exponent_part_length in E2. intros [= _ <-]. simpl in *. lia.
Qed.

Lemma parse_number_length s n r :
  parse_number s = Some (n, r) -> (length r <= length s)%nat.
Proof.
  unfold parse_number.
  destruct (strip_prefix [45%N] s) as [r'|] eqn:E1.
  - apply strip_prefix_length in E1. intros H.
    apply (number_body_length true) in H. lia.
  - apply (number_body_length false).
Qed.

Lemma parse_value_S f s :
  parse_value (S f) s =
    let t := skip_ws s in
    match strip_prefix (str "null") t with
    | Some r => Some (JNull, r)
    | None =>
    match strip_prefix (str "true") t with
    | Some r => Some (JBool true, r)
    | None =>
    match strip_prefix (str "false") t with
    | Some r => Some (JBool false, r)
    | None =>
    match t with
    | [] => None
    | c :: r =>
        if (c =? 34)%N then
          match parse_chars r with
          | Some (text, r') => Some (JStr text, r')
          | None => None
          end
        else if (c =? 91)%N then
          match strip_prefix [93%N] (skip_ws r) with
          | Some r' => Some (JArray [], r')
          | None => parse_elements f r []
          end
        else if (c =? 123)%N then
          match strip_prefix [125%N] (skip_ws r) with
          | Some r' => Some (JObject [], r')
          | None => parse_members f r []
          end
        else
          match parse_number t with
          | Some (n, r') => Some (JNum n, r')
          | None => None
          end
    end end end end.
Proof. reflexivity. Qed.

Lemma parse_elements_S f s acc :
  parse_elements (S f) s acc =
    match parse_value f s with
    | Some (v, r) =>
        match skip_ws r with
        | c :: r' =>
            if (c =? 44)%N then parse_elements f r' (v :: acc)
            else if (c =? 93)%N then Some (JArray (rev (v :: acc)), r')
            else None
        | [] => None
        end
    | None => None
    end.
Proof. reflexivity. Qed.

Lemma parse_members_S f s acc :
  parse_members (S f) s acc =
    match strip_prefix [34%N] (skip_ws s) with
    | Some r =>
        match parse_chars r with
        | Some (k, r1) =>
            match strip_prefix [58%N] (skip_ws r1) with
            | Some r2 =>
                match parse_value f r2 with
                | Some (v, r3) =>
                    match skip_ws r3 with
                    | c :: r4 =>
                        if (c =? 44)%N then parse_members f r4 ((k, v) :: acc)
                        else if (c =? 125)%N then Some (JObject (rev ((k, v) :: acc)), r4)
                        else None
                    | [] => None
                    end
                | None => None
                end
            | None => None
            end
        | None => None
        end
    | None => None
    end.
Proof. reflexivity. Qed.

Lemma parse_budget f : value_ok f /\ elements_ok f /\ members_ok f.
Proof.
  induction f as [|f (IHv & IHe & IHm)].
  { split; [|split]; intros ?; intros; discriminate. }
  split; [|split].
  - intros s v r. rewrite parse_value_S. cbv zeta.
    pose proof (skip_ws_length s) as Hws.
    destruct (strip_prefix (str "null") (skip_ws s)) as [r0|] eqn:E1.
    { intros [= ? ?]; subst v r. pose proof (strip_prefix_length _ _ _ E1) as Hlen. split; [lia|].
      intros [|f'] Hf; [unfold enough in Hf; lia|].
      rewrite parse_value_S. cbv zeta. by rewrite E1. }
    destruct (strip_prefix (str "true") (skip_ws s)) as [r0|] eqn:E2.
    { intros [= ? ?]; subst v r. pose proof (strip_prefix_length _ _ _ E2) as Hlen. split; [lia|].
      intros [|f'] Hf; [unfold enough in Hf; lia|].
      rewrite parse_value_S. cbv zeta. by rewrite E1, E2. }
    destruct (strip_prefix (str "false") (skip_ws s)) as [r0|] eqn:E3.
    { intros [= ? ?]; subst v r. pose proof (strip_prefix_length _ _ _ E3) as Hlen. split; [lia|].
      intros [|f'] Hf; [unfold enough in Hf; lia|].
      rewrite parse_value_S. cbv zeta. by rewrite E1, E2, E3. }
    destruct (skip_ws s) as [|c t] eqn:Et; [done|].
    simpl in Hws.
    destruct (c =? 34)%N eqn:Ec1.
    { destruct (parse_chars t) as [[text r']|] eqn:Ep; [|done].
      intros [= ? ?]; subst v r. pose proof (parse_chars_length _ _ _ _ (Nat.le_refl _) Ep) as Hlen.
      split; [lia|].
      intros [|f'] Hf; [unfold enough in Hf; lia|].
      rewrite parse_value_S. cbv zeta. by rewrite Et, E1, E2, E3, Ec1, Ep. }
    destruct (c =? 91)%N eqn:Ec2.
    { pose proof (skip_ws_length t) as Hwt.
      destruct (strip_prefix [93%N] (skip_ws t)) as [r'|] eqn:Ea.
      - intros [= ? ?]; subst v r. pose proof (strip_prefix_length _ _ _ Ea) as Hlen. split; [lia|].
        intros [|f'] Hf; [unfold enough in Hf; lia|].
        rewrite parse_value_S. cbv zeta. by rewrite Et, E1, E2, E3, Ec1, Ec2, Ea.
      - intros He. destruct (IHe _ _ _ _ He) as [Hl Hre]. split; [lia|].
        intros [|f'] Hf; [unfold enough in Hf; lia|].
        rewrite parse_value_S. cbv zeta. rewrite Et, E1, E2, E3, Ec1, Ec2, Ea.
        apply Hre. unfold enough in *. lia. }
    destruct (c =? 123)%N eqn:Ec3.
    { pose proof (skip_ws_length t) as Hwt.
      destruct (strip_prefix [125%N] (skip_ws t)) as [r'|] eqn:Ea.
      - intros [= ? ?]; subst v r. pose proof (strip_prefix_length _ _ _ Ea) as Hlen. split; [lia|].
        intros [|f'] Hf; [unfold enough in Hf; lia|].
        rewrite parse_value_S. cbv zeta. by rewrite Et, E1, E2, E3, Ec1, Ec2, Ec3, Ea.
      - intros He. destruct (IHm _ _ _ _ He) as [Hl Hre]. split; [lia|].
        intros [|f'] Hf; [unfold enough in Hf; lia|].
        rewrite parse_value_S. cbv zeta. rewrite Et, E1, E2, E3, Ec1, Ec2, Ec3, Ea.
        apply Hre. unfold enough in *. lia. }
    destruct (parse_number (c :: t)) as [[n r']|] eqn:En; [|done].
    intros [= ? ?]; subst v r. pose proof (parse_number_length _ _ _ En) as Hlen. simpl in Hlen. split; [lia|].
    intros [|f'] Hf; [unfold enough in Hf; lia|].
    rewrite parse_value_S. cbv zeta. by rewrite Et, E1, E2, E3, Ec1, Ec2, Ec3, En.
  - intros s acc v r. rewrite parse_elements_S.
    destruct (parse_value f s) as [[v0 r0]|] eqn:Ev; [|done].
    destruct (IHv _ _ _ Ev) as [Hl0 Hre0].
    pose proof (skip_ws_length r0) as Hws.
    destruct (skip_ws r0) as [|c r'] eqn:Et; [done|]. simpl in Hws.
    destruct (c =? 44)%N eqn:Ec1.
    { intros He. destruct (IHe _ _ _ _ He) as [Hl Hre]. split; [lia|].
      intros [|f'] Hf; [unfold enough in Hf; lia|].
      rewrite parse_elements_S, Hre0 by (unfold enough in *; lia).
      rewrite Et, Ec1. apply Hre. unfold enough in *. lia. }
    destruct (c =? 93)%N eqn:Ec2; [|done].
    intros [= ? ?]; subst v r. split; [lia|].
    intros [|f'] Hf; [unfold enough in Hf; lia|].
    rewrite parse_elements_S, Hre0 by (unfold enough in *; lia).
    by rewrite Et, Ec1, Ec2.
  - intros s acc v r. rewrite parse_members_S.
    pose proof (skip_ws_length s) as Hws.
    destruct (strip_prefix [34%N] (skip_ws s)) as [r0|] eqn:Eq; [|done].
    pose proof (strip_prefix_length _ _ _ Eq) as Hq.
    destruct (parse_chars r0) as [[k r1]|] eqn:Ek; [|done].
    pose proof (parse_chars_length _ _ _ _ (Nat.le_refl _) Ek) as Hk.
    pose proof (skip_ws_length r1) as Hws1.
    destruct (strip_prefix [58%N] (skip_ws r1)) as [r2|] eqn:Ecol; [|done].
    pose proof (strip_unit_length _ _ _ Ecol) as Hcol.
    destruct (parse_value f r2) as [[v0 r3]|] eqn:Ev; [|done].
    destruct (IHv _ _ _ Ev) as [Hl0 Hre0].
    pose proof (skip_ws_length r3) as Hws3.
    destruct (skip_ws r3) as [|c r4] eqn:Et; [done|]. simpl in Hws3.
    destruct (c =? 44)%N eqn:Ec1.
    { intros He. destruct (IHm _ _ _ _ He) as [Hl Hre]. split; [lia|].
      intros [|f'] Hf; [unfold enough in Hf; lia|].
      rewrite parse_members_S, Eq, Ek, Ecol, Hre0 by (unfold enough in *; lia).
      rewrite Et, Ec1. apply Hre. unfold enough in *. lia. }
    destruct (c =? 125)%N eqn:Ec2; [|done].
    intros [= ? ?]; subst v r. split; [lia|].
    intros [|f'] Hf; [unfold enough in Hf; lia|].
    rewrite parse_members_S, Eq, Ek, Ecol, Hre0 by (unfold enough in *; lia).
    by rewrite Et, Ec1, Ec2.
Qed.

(** The budget [JSON_parse] gives is never what rejects a text: a text
    that parses on any budget parses on that one. *)
Lemma JSON_parse_budget f text v r :
  parse_value f text = Some (v, r) -> skip_ws r = [] ->
  JSON_parse text = Some v.
Proof.
  intros Hp Hr. destruct (parse_budget f) as (Hv & _).
  destruct (Hv _ _ _ Hp) as [Hl Hre].
  unfold JSON_parse. rewrite Hre by (unfold enough; lia).
  by rewrite Hr.
Qed.

End ParserBudget.

(* ================================================================== *)
(** * Number formatting *)

Lemma js_ge_Fin q c : js_ge (Fin q) (num_of_Z c) = true <-> (inject_Z c <= q)%Q.
Proof. simpl. apply Qle_bool_iff. Qed.

Lemma js_lt_Fin q c : js_lt (Fin q) (num_of_Z c) = true <-> (q < inject_Z c)%Q.
Proof.
  unfold js_lt. simpl. rewrite negb_true_iff. split.
  - intros H. apply Qnot_le_lt. intros Hle. apply Qle_bool_iff in Hle. congruence.
  - intros H. destruct (Qle_bool (inject_Z c) q) eqn:E; [|done].
    apply Qle_bool_iff in E. exfalso. exact (Qlt_not_le _ _ H E).
Qed.

Lemma not_ge_lt_Fin q c :
  js_ge (Fin q) (num_of_Z c) = false -> js_lt (Fin q) (num_of_Z c) = true.
Proof. unfold js_lt. simpl. by intros ->. Qed.

(** Which numbers fall in which class. *)
Lemma magnitude_Fin q :
  magnitude_of (Fin q) =
    if Qle_bool (inject_Z 10000000) q then Crore
    else if Qle_bool (inject_Z 100000) q then Lakh else Plain.
Proof.
  unfold magnitude_of, js_lt. simpl.
  destruct (Qle_bool (inject_Z 10000000) q); [done|].
  by rewrite andb_true_r.
Qed.

Lemma two_digits m :
  (m < 100)%N -> pad2 m = [(48 + m / 10)%N; (48 + m mod 10)%N].
Proof.
  intros Hm.
  assert (Hall : forallb (fun k => bool_decide
            (pad2 k = [(48 + k / 10)%N; (48 + k mod 10)%N]))
            (N.of_nat <$> seq 0%nat 100%nat) = true) by (vm_compute; reflexivity).
  rewrite forallb_forall in Hall.
  specialize (Hall m). apply bool_decide_eq_true in Hall; [done|].
  apply list_elem_of_In, list_elem_of_fmap. exists (N.to_nat m).
  split; [lia|]. apply list_elem_of_In, in_seq. lia.
Qed.

(** [toFixed(2)] of a finite number below 10^21 in magnitude: an optional
    sign, the integer digits, a point and exactly two digits. *)
Lemma toFixed2_two_decimals x :
  Qle_bool (inject_Z (10 ^ 21)) (Qabs x) = false ->
  exists (i d1 d2 : N), (d1 < 10)%N /\ (d2 < 10)%N /\
    toFixed2 (Fin x) =
      (if Qle_bool 0 x then [] else str "-") ++ dec i ++ str "." ++ [(48 + d1)%N; (48 + d2)%N].
Proof.
  intros Hsmall. unfold toFixed2. rewrite Hsmall.
  set (n := Z.to_N (round_half_up (Qabs x * inject_Z 100))).
  exists (n / 100)%N, ((n mod 100) / 10)%N, ((n mod 100) mod 10)%N.
  assert (Hm : (n mod 100 < 100)%N) by (apply N.mod_upper_bound; lia).
  split; [apply N.Div0.div_lt_upper_bound; lia|].
  split; [apply N.mod_upper_bound; lia|].
  by rewrite (two_digits _ Hm).
Qed.

Lemma formatNumber_form (num : JsNum) :
  formatNumber num = form (magnitude_of num) num.
Proof.
  unfold formatNumber, magnitude_of.
  destruct (js_ge num (num_of_Z 10000000)) eqn:Hcr; [reflexivity|].
  destruct (js_ge num (num_of_Z 100000)) eqn:Hlk; [|reflexivity].
  destruct num as [| | |q]; try discriminate.
  by rewrite (not_ge_lt_Fin _ _ Hcr).
Qed.

(** The class of a finite number, in the order of the rationals. *)
Lemma magnitude_ranges q :
  (magnitude_of (Fin q) = Crore <-> (inject_Z 10000000 <= q)%Q) /\
  (magnitude_of (Fin q) = Lakh <->
     (inject_Z 100000 <= q)%Q /\ (q < inject_Z 10000000)%Q) /\
  (magnitude_of (Fin q) = Plain <-> (q < inject_Z 100000)%Q).
Proof.
  rewrite magnitude_Fin.
  destruct (Qle_bool (inject_Z 10000000) q) eqn:Hcr.
  - apply Qle_bool_iff in Hcr. repeat split; try done.
    + intros [_ Hlt]. exfalso. exact (Qlt_not_le _ _ Hlt Hcr).
    + intros Hlt. exfalso. apply (Qlt_not_le _ _ Hlt).
      eapply Qle_trans; [|exact Hcr]. by rewrite <- Zle_Qle.
  - assert (Hlt : (q < inject_Z 10000000)%Q).
    { apply Qnot_le_lt. intros H%Qle_bool_iff. congruence. }
    destruct (Qle_bool (inject_Z 100000) q) eqn:Hlk.
    + apply Qle_bool_iff in Hlk. repeat split; try done.
      * intros H. exfalso. exact (Qlt_not_le _ _ Hlt H).
      * intros H. exfalso. exact (Qlt_not_le _ _ H Hlk).
    + assert (Hlt' : (q < inject_Z 100000)%Q).
      { apply Qnot_le_lt. intros H%Qle_bool_iff. congruence. }
      repeat split; try done.
      * intros H. exfalso. exact (Qlt_not_le _ _ Hlt H).
      * intros [H _]. exfalso. exact (Qlt_not_le _ _ Hlt' H).
Qed.

(** *** The quotient, rounded *)

Lemma round_half_even_bounds t :
  (0 <= t)%Q ->
  0 <= round_half_even t /\ (inject_Z (round_half_even t) <= t + (1 # 2))%Q.
Proof.
  intros Ht. unfold round_half_even.
  pose proof (Qfloor_le t) as Hf.
  assert (H0 : 0 <= Qfloor t).
  { change 0 with (Qfloor 0). by apply Qfloor_resp_le. }
  destruct (Qcompare_spec (t - inject_Z (Qfloor t)) (1 # 2)) as [E|E|E].
  - destruct (Z.even (Qfloor t)).
    + split; [done|]. lra.
    + split; [lia|]. rewrite inject_Z_plus. change (inject_Z 1) with 1%Q. lra.
  - split; [done|]. lra.
  - split; [lia|]. rewrite inject_Z_plus. change (inject_Z 1) with 1%Q. lra.
Qed.

Lemma pow2_pos e : (0 < Qpower 2 e)%Q.
Proof. by apply Qpower_0_lt. Qed.

Lemma ilog2_le x : (0 < x)%Q -> (Qpower 2 (ilog2 x) <= x)%Q.
Proof.
  intros Hx. unfold ilog2. destruct x as [n d]. cbn [Qnum Qden].
  destruct (Qle_bool _ _) eqn:E; [by apply Qle_bool_iff|]. clear E.
  assert (Hn : 0 < n) by (unfold Qlt in Hx; simpl in Hx; lia).
  pose proof (Z.log2_spec n Hn) as [Ha _].
  pose proof (Z.log2_spec (Zpos d) ltac:(lia)) as [_ Hb].
  pose proof (Z.log2_nonneg n) as Ha0.
  pose proof (Z.log2_nonneg (Zpos d)) as Hb0.
  set (a := Z.log2 n) in *. set (b := Z.log2 (Zpos d)) in *. clearbody a b.
  replace (a - b - 1) with (a - Z.succ b) by lia.
  rewrite Qpower_minus by done.
  change 2%Q with (inject_Z 2).
  rewrite <- !Zpower_Qpower by lia.
  assert (Hp : 0 < 2 ^ Z.succ b) by (apply Z.pow_pos_nonneg; lia).
  apply Qle_shift_div_r.
  - rewrite Zlt_Qlt in Hp. exact Hp.
  - unfold Qle, Qmult, inject_Z. simpl.
    rewrite !Z.mul_1_r. nia.
Qed.

Lemma Qabs_nonneg_eq x : (0 <= x)%Q -> Qabs x = x.
Proof.
  destruct x as [n d]. unfold Qle. simpl. intros H.
  rewrite Z.mul_1_r in H. by rewrite Z.abs_eq.
Qed.

(** The double nearest to a number that is not negative is not negative
    and at most twice the number plus one (the rounding adds at most half
    a unit in the last place); it is an infinity only from there on. *)
Lemma binary64_nonneg x :
  (0 <= x)%Q ->
  match binary64 x with
  | Fin x' => (0 <= x')%Q /\ (x' <= 2 * x + 1)%Q
  | PosInf => (Qpower 2 1024 <= 2 * x + 1)%Q
  | _ => False
  end.
Proof.
  intros Hx. unfold binary64. rewrite (Qabs_nonneg_eq x Hx).
  destruct (Qeq_bool x 0) eqn:E0.
  { split; [done|]. lra. }
  assert (Hpos : (0 < x)%Q).
  { apply Qle_lteq in Hx as [?|Heq]; [done|].
    symmetry in Heq. apply Qeq_bool_iff in Heq. congruence. }
  set (e := Z.max (-1074) (ilog2 x - 52)).
  set (m := round_half_even (x / Qpower 2 e)).
  pose proof (pow2_pos e) as He.
  assert (Ht : (0 <= x / Qpower 2 e)%Q).
  { apply Qle_shift_div_l; [done|]. lra. }
  destruct (round_half_even_bounds _ Ht) as [Hm0 Hm]. fold m in Hm0, Hm.
  assert (Hy : (inject_Z m * Qpower 2 e <= x + Qpower 2 e * (1 # 2))%Q).
  { apply (Qmult_le_compat_r _ _ (Qpower 2 e)) in Hm; [|lra].
    assert (Heq : ((x / Qpower 2 e + (1 # 2)) * Qpower 2 e
                   == x + Qpower 2 e * (1 # 2))%Q) by (field; lra).
    by rewrite Heq in Hm. }
  assert (Hhalf : (Qpower 2 e * (1 # 2) <= x + 1)%Q).
  { unfold e. destruct (Z.max_spec (-1074) (ilog2 x - 52)) as [[_ ->]|[_ ->]].
    - pose proof (Qpower_le_compat_l 2 (ilog2 x - 52) (ilog2 x) ltac:(lia)
                    ltac:(done)) as Hmono.
      pose proof (ilog2_le x Hpos). lra.
    - assert (Qpower 2 (-1074) <= 1)%Q; [|lra].
      change 1%Q with (Qpower 2 0). by apply Qpower_le_compat_l. }
  assert (Hy0 : (0 <= inject_Z m * Qpower 2 e)%Q).
  { apply Qmult_le_0_compat; [|lra].
    change 0%Q with (inject_Z 0). by rewrite <- Zle_Qle. }
  pose proof (Qred_correct (inject_Z m * Qpower 2 e)) as Hred.
  set (y := Qred (inject_Z m * Qpower 2 e)) in *.
  replace (Qle_bool 0 x) with true by (symmetry; by apply Qle_bool_iff).
  destruct (Qle_bool (Qpower 2 1024) y) eqn:Ebig.
  - apply Qle_bool_iff in Ebig. lra.
  - split; lra.
Qed.

(** The quotient of a number that is not negative by a positive literal is
    not negative, or the positive infinity. *)
Lemma js_div_lit_sign q (d : Z) x :
  0 < d -> (0 <= q)%Q -> js_div_lit (Fin q) d = Fin x -> (0 <= x)%Q.
Proof.
  intros Hd Hq. unfold js_div_lit.
  pose proof (binary64_nonneg q Hq) as H1.
  destruct (binary64 q) as [| | |x1]; try done.
  destruct H1 as [H1 _].
  assert (Hd' : (0 < inject_Z d)%Q) by (change 0%Q with (inject_Z 0); by rewrite <- Zlt_Qlt).
  assert (Hpos : (0 <= x1 / inject_Z d)%Q).
  { apply Qle_shift_div_l; [done|]. by rewrite Qmult_0_l. }
  pose proof (binary64_nonneg _ Hpos) as H2.
  destruct (binary64 (x1 / inject_Z d)) as [| | |x2]; try done.
  intros [= <-]. tauto.
Qed.

(** Below half of 2^1024 the nearest double is finite. *)
Lemma binary64_bound x :
  (0 <= x)%Q -> (2 * x + 1 < Qpower 2 1024)%Q ->
  exists x', binary64 x = Fin x' /\ (0 <= x')%Q /\ (x' <= 2 * x + 1)%Q.
Proof.
  intros Hx Hs. pose proof (binary64_nonneg x Hx) as H.
  destruct (binary64 x) as [| | |x']; lazy beta iota in H;
    [contradiction | | contradiction | by exists x'].
  exfalso. exact (Qlt_not_le _ _ Hs H).
Qed.

(** Below 10^27 the quotient by a literal that is at least 1 is finite and
    at most [(4 q + 2) / d + 1]. *)
Lemma js_div_lit_small q (d : Z) :
  0 < d -> (0 <= q)%Q -> (q < inject_Z (10 ^ 27))%Q ->
  exists x, js_div_lit (Fin q) d = Fin x /\ (0 <= x)%Q /\
            (x * inject_Z d <= 4 * q + 2 + inject_Z d)%Q.
Proof.
  intros Hd Hq Hlt. unfold js_div_lit.
  assert (Hbig : (4 * inject_Z (10 ^ 27) + 3 < Qpower 2 1024)%Q).
  { change 2%Q with (inject_Z 2). rewrite <- Zpower_Qpower by lia.
    change 4%Q with (inject_Z 4). change 3%Q with (inject_Z 3).
    rewrite <- inject_Z_mult, <- inject_Z_plus.
    rewrite <- Zlt_Qlt. by vm_compute. }
  set (T := inject_Z (10 ^ 27)) in *. clearbody T.
  assert (Hd' : (1 <= inject_Z d)%Q) by (change 1%Q with (inject_Z 1); rewrite <- Zle_Qle; lia).
  set (D := inject_Z d) in *. clearbody D.
  destruct (binary64_bound q Hq) as (x1 & -> & H1 & H1').
  { eapply Qlt_trans; [|exact Hbig]. clear Hbig. lra. }
  assert (Hpos : (0 <= x1 / D)%Q).
  { apply Qle_shift_div_l; [clear Hbig; lra|]. by rewrite Qmult_0_l. }
  assert (Hquot : (x1 / D <= x1)%Q).
  { apply Qle_shift_div_r; [clear Hbig; lra|]. clear Hbig. nra. }
  destruct (binary64_bound _ Hpos) as (x2 & -> & H2 & H2').
  { eapply Qlt_trans; [|exact Hbig]. clear Hbig. lra. }
  clear Hbig.
  exists x2. split; [done|]. split; [done|].
  apply (Qmult_le_compat_r _ _ D) in H2'; [|lra].
  assert (Heq : ((2 * (x1 / D) + 1) * D == 2 * x1 + D)%Q) by (field; lra).
  rewrite Heq in H2'. lra.
Qed.

(** A number that is at least 0 and below 10^21 comes out of [toFixed(2)]
    as digits, a point and two digits. *)
Lemma fixed_two_decimals x :
  (0 <= x)%Q -> (x < inject_Z (10 ^ 21))%Q ->
  exists (i d1 d2 : N), (d1 < 10)%N /\ (d2 < 10)%N /\
    toFixed2 (Fin x) = dec i ++ str "." ++ [(48 + d1)%N; (48 + d2)%N].
Proof.
  intros Hpos Hsmall.
  destruct (toFixed2_two_decimals x) as (i & d1 & d2 & H1 & H2 & Heq).
  - destruct (Qle_bool _ _) eqn:E; [|done]. apply Qle_bool_iff in E.
    rewrite (Qabs_pos _ Hpos) in E. exfalso. exact (Qlt_not_le _ _ Hsmall E).
  - exists i, d1, d2. split; [done|]. split; [done|]. rewrite Heq.
    apply Qle_bool_iff in Hpos. by rewrite Hpos.
Qed.

(** The quotient of a number from 0 on and below [10^20 d] by a literal
    [d] from 1 to 10^7 comes out of [toFixed(2)] with two decimals. *)
Lemma quotient_two_decimals q (d : Z) :
  0 < d <= 10 ^ 7 -> (0 <= q)%Q -> (q < inject_Z (10 ^ 20 * d))%Q ->
  exists (i d1 d2 : N), (d1 < 10)%N /\ (d2 < 10)%N /\
    toFixed2 (js_div_lit (Fin q) d) = dec i ++ str "." ++ [(48 + d1)%N; (48 + d2)%N].
Proof.
  intros Hd Hq Hlt.
  assert (Hd1 : (1 <= inject_Z d)%Q) by (change 1%Q with (inject_Z 1); rewrite <- Zle_Qle; lia).
  destruct (js_div_lit_small q d) as (x & Hx & H0 & Hle); [lia | done | |].
  { eapply Qlt_le_trans; [exact Hlt|]. rewrite <- Zle_Qle. nia. }
  rewrite Hx. apply fixed_two_decimals; [done|].
  rewrite inject_Z_mult in Hlt.
  assert (H21 : (inject_Z (10 ^ 21) == 10 * inject_Z (10 ^ 20))%Q) by by vm_compute.
  assert (H1le : (1 <= inject_Z (10 ^ 20))%Q) by by vm_compute.
  rewrite H21. clear H21.
  set (T := inject_Z (10 ^ 20)) in *. set (D := inject_Z d) in *. clearbody T D.
  apply Qnot_le_lt. intros Hge.
  apply (Qmult_le_compat_r _ _ D) in Hge; [|lra]. nra.
Qed.

(** C5. For every number, [formatNumber] gives the form the
    specification's table assigns to it: the crore form (the quotient by
    10,000,000 rendered by [toFixed(2)], suffix Cr) from 10,000,000 on, the
    lakh form (the quotient by 100,000, suffix L) from 100,000 and below
    10,000,000, the plain locale-grouped form for everything else, NaN
    included. For a finite number the classes are these ranges exactly.
    The quotient is the binary64 quotient, and it is written with exactly
    two decimals whenever it is below 10^21: always in the lakh form, and
    in the crore form for every number below 10^27. (From 10^21 on, and
    for the infinity, [toFixed] gives the notation of [String]: see
    [formatNumber_crore_exponent].) *)
Theorem formatNumber_thresholds (num : JsNum) :
  formatNumber num = form (magnitude_of num) num /\
  forall q, num = Fin q ->
    (magnitude_of num = Crore <-> (inject_Z 10000000 <= q)%Q) /\
    (magnitude_of num = Lakh <->
       (inject_Z 100000 <= q)%Q /\ (q < inject_Z 10000000)%Q) /\
    (magnitude_of num = Plain <-> (q < inject_Z 100000)%Q) /\
    ((inject_Z 10000000 <= q)%Q ->
     forall x, js_div_lit num 10000000 = Fin x -> (x < inject_Z (10 ^ 21))%Q ->
       exists (i d1 d2 : N), (d1 < 10)%N /\ (d2 < 10)%N /\
         formatNumber num
         = rupee ++ (dec i ++ str "." ++ [(48 + d1)%N; (48 + d2)%N]) ++ str " Cr") /\
    ((inject_Z 10000000 <= q)%Q -> (q < inject_Z (10 ^ 27))%Q ->
       exists (i d1 d2 : N), (d1 < 10)%N /\ (d2 < 10)%N /\
         formatNumber num
         = rupee ++ (dec i ++ str "." ++ [(48 + d1)%N; (48 + d2)%N]) ++ str " Cr") /\
    ((inject_Z 100000 <= q)%Q -> (q < inject_Z 10000000)%Q ->
       exists (i d1 d2 : N), (d1 < 10)%N /\ (d2 < 10)%N /\
         formatNumber num
         = rupee ++ (dec i ++ str "." ++ [(48 + d1)%N; (48 + d2)%N]) ++ str " L").
Proof.
  split; [apply formatNumber_form|]. intros q ->.
  destruct (magnitude_ranges q) as (Hcr & Hlk & Hpl).
  split; [exact Hcr|]. split; [exact Hlk|]. split; [exact Hpl|].
  split; [|split].
  - intros Hge x Hx Hlt. rewrite formatNumber_form, (proj2 Hcr Hge).
    assert (Hq : (0 <= q)%Q) by (eapply Qle_trans; [|exact Hge]; by compute).
    destruct (fixed_two_decimals x) as (i & d1 & d2 & H1 & H2 & Heq);
      [apply (js_div_lit_sign q 10000000 x); [lia | exact Hq | exact Hx] | exact Hlt |].
    exists i, d1, d2. split; [done|]. split; [done|].
    unfold form. by rewrite Hx, Heq.
  - intros Hge Hlt. rewrite formatNumber_form, (proj2 Hcr Hge).
    destruct (quotient_two_decimals q 10000000) as (i & d1 & d2 & H1 & H2 & Heq);
      [lia | | exact Hlt |].
    { eapply Qle_trans; [|exact Hge]. by compute. }
    exists i, d1, d2. split; [done|]. split; [done|].
    unfold form. by rewrite Heq.
  - intros Hge Hlt. rewrite formatNumber_form, (proj2 Hlk (conj Hge Hlt)).
    destruct (quotient_two_decimals q 100000) as (i & d1 & d2 & H1 & H2 & Heq); [lia | | |].
    { eapply Qle_trans; [|exact Hge]. by compute. }
    { eapply Qlt_trans; [exact Hlt|]. by compute. }
    exists i, d1, d2. split; [done|]. split; [done|].
    unfold form. by rewrite Heq.
Qed.

Lemma formatNumber_thresholds_witness :
  formatNumber (num_of_Z 12500000) = rupee ++ str "1.25 Cr" /\
  formatNumber (num_of_Z 250000) = rupee ++ str "2.50 L" /\
  formatNumber (num_of_Z 5000) = rupee ++ str "5,000" /\
  magnitude_of (num_of_Z 10000000) = Crore /\
  magnitude_of (num_of_Z 100000) = Lakh /\
  (exists (i d1 d2 : N), (d1 < 10)%N /\ (d2 < 10)%N /\
    formatNumber (num_of_Z 9999999)
    = rupee ++ (dec i ++ str "." ++ [(48 + d1)%N; (48 + d2)%N]) ++ str " L") /\
  (exists (i d1 d2 : N), (d1 < 10)%N /\ (d2 < 10)%N /\
    formatNumber (num_of_Z 10050000)
    = rupee ++ (dec i ++ str "." ++ [(48 + d1)%N; (48 + d2)%N]) ++ str " Cr") /\
  (exists (i d1 d2 : N), (d1 < 10)%N /\ (d2 < 10)%N /\
    formatNumber (num_of_Z (10 ^ 26))
    = rupee ++ (dec i ++ str "." ++ [(48 + d1)%N; (48 + d2)%N]) ++ str " Cr").
Proof.
  destruct (formatNumber_thresholds (num_of_Z 12500000)) as [Hcrore _].
  destruct (formatNumber_thresholds (num_of_Z 250000)) as [Hlakh _].
  destruct (formatNumber_thresholds (num_of_Z 5000)) as [Hplain _].
  destruct (formatNumber_thresholds (num_of_Z 10000000)) as [_ Hten].
  destruct (formatNumber_thresholds (num_of_Z 100000)) as [_ Hone].
  destruct (formatNumber_thresholds (num_of_Z 9999999)) as [_ Hnine].
  destruct (formatNumber_thresholds (num_of_Z 10050000)) as [_ Hquot].
  destruct (formatNumber_thresholds (num_of_Z (10 ^ 26))) as [_ Hlarge].
  split; [rewrite Hcrore; reflexivity|].
  split; [rewrite Hlakh; reflexivity|].
  split; [rewrite Hplain; reflexivity|].
  split; [apply (Hten (inject_Z 10000000) eq_refl); rewrite <- Zle_Qle; lia|].
  split.
  { apply (Hone (inject_Z 100000) eq_refl).
    split; [rewrite <- Zle_Qle; lia | rewrite <- Zlt_Qlt; lia]. }
  split.
  { apply (Hnine (inject_Z 9999999) eq_refl);
      [rewrite <- Zle_Qle; lia | rewrite <- Zlt_Qlt; lia]. }
  split.
  { destruct (Hquot (inject_Z 10050000) eq_refl) as (_ & _ & _ & Hfin & _).
    apply (Hfin ltac:(rewrite <- Zle_Qle; lia)
             (1131529406376837 # 1125899906842624)%Q);
      [vm_compute; reflexivity | vm_compute; reflexivity]. }
  { destruct (Hlarge (inject_Z (10 ^ 26)) eq_refl) as (_ & _ & _ & _ & Hbelow & _).
    apply Hbelow; [rewrite <- Zle_Qle; lia | rewrite <- Zlt_Qlt; lia]. }
Defined.

(** The crore form without two decimals: the quotient of the double 10^28
    (the integer 9999999999999999583119736832) is rounded to 10^21, where
    [toFixed] changes to the notation of [String]; the quotient of the
    infinity is the infinity. Both numbers are at least 10,000,000. *)
Lemma formatNumber_crore_exponent :
  js_ge (num_of_Z 9999999999999999583119736832) (num_of_Z 10000000) = true /\
  binary64 (inject_Z 9999999999999999583119736832)
    = Fin (inject_Z 9999999999999999583119736832) /\
  formatNumber (num_of_Z 9999999999999999583119736832) = rupee ++ str "1e+21 Cr" /\
  js_ge PosInf (num_of_Z 10000000) = true /\
  formatNumber PosInf = rupee ++ str "Infinity Cr".
Proof. repeat split; vm_compute; reflexivity. Qed.

(** The quotient is the rounded one: 10050000 / 10000000 is the double
    just below 1.005, which [toFixed(2)] writes 1.00. *)
Example formatNumber_rounded_quotient :
  js_div_lit (num_of_Z 10050000) 10000000
    = Fin (1131529406376837 # 1125899906842624) /\
  formatNumber (num_of_Z 10050000) = rupee ++ str "1.00 Cr".
Proof. split; vm_compute; reflexivity. Qed.

(** C10. A negative number, whatever its magnitude, takes neither the
    crore nor the lakh branch: [formatNumber] gives the plain
    locale-grouped form. *)
Theorem formatNumber_negative_plain (num : JsNum) :
  js_lt num (num_of_Z 0) = true ->
  formatNumber num = rupee ++ toLocaleString_en_IN num.
Proof.
  intros Hneg. unfold formatNumber.
  assert (Hno : forall c, (0 <= c) -> js_ge num (num_of_Z c) = false).
  { intros c Hc. destruct num as [| | |q]; try done.
    apply js_lt_Fin in Hneg.
    destruct (js_ge (Fin q) (num_of_Z c)) eqn:E; [|done].
    apply js_ge_Fin in E. exfalso.
    apply (Qlt_not_le _ _ Hneg). eapply Qle_trans; [|exact E].
    rewrite <- Zle_Qle. exact Hc. }
  by rewrite !Hno by lia.
Qed.

Lemma formatNumber_negative_plain_witness :
  js_lt (num_of_Z (-20000000)) (num_of_Z 0) = true /\
  formatNumber (num_of_Z (-20000000)) = rupee ++ str "-2,00,00,000".
Proof.
  split; [reflexivity|].
  rewrite (formatNumber_negative_plain (num_of_Z (-20000000))); reflexivity.
Defined.

(* ================================================================== *)
(** * The quote panel *)






Example flat_quote_text :
  priceChange_text (info (page (snd (displayStockInfo flat_quote (initial None)))))
  = str "+0.00 (+0.00%)".
Proof. reflexivity. Qed.

Example falling_quote_text :
  let data := JObject [(str "change", JNum (Fin (scale10 (-525) (-2))));
                       (str "change_percent", JNum (Fin (scale10 (-110) (-2))))] in
  let shown := info (page (snd (displayStockInfo data (initial None)))) in
  priceChange_text shown = str "-5.25 (-1.10%)" /\
  priceChange_class shown = str "price-change negative".
Proof. split; reflexivity. Qed.

(* ================================================================== *)
(** * Search: the empty input *)

Lemma trimStart_spaces s : forallb is_js_space s = true -> trimStart s = [].
Proof.
  induction s as [|c r IH]; [done|]. simpl.
  intros [Hc Hr]%andb_true_iff. unfold trimStart in *. simpl. rewrite Hc. auto.
Qed.

Lemma trim_spaces s : forallb is_js_space s = true -> trim s = [].
Proof. intros H. unfold trim. by rewrite (trimStart_spaces s H). Qed.

(** C7. With an empty or all-whitespace text in the field, [searchStock]
    changes nothing at all: no request is sent, the button, panels, chart,
    news and timers are as they were. *)
Theorem searchStock_blank_noop (st : State) :
  forallb is_js_space (stockSearch (page st)) = true ->
  searchStock st = (Normal, st).
Proof.
  intros Hblank. unfold searchStock, async.
  by rewrite (trim_spaces _ Hblank).
Qed.

Lemma searchStock_blank_noop_witness :
  let st := upd_page (set_stockSearch (str "   ")) (initial None) in
  searchStock st = (Normal, st).
Proof.
  apply searchStock_blank_noop. reflexivity.
Defined.

(* ================================================================== *)
(** * Keyboard navigation *)

Section Navigation.

Lemma navigate_empty d st :
  suggestions (page st) = [] -> navigateSuggestions d st = (Normal, st).
Proof. intros H. unfold navigateSuggestions. by rewrite H. Qed.

(** With rows in the box and the new index in range, the key completes
    normally, moves the index, keeps the rows and marks the row. *)
Lemma navigate_step d st :
  let n := Z.of_nat (rows_of st) in
  let i' := next_index d n (activeIndex (globals st)) in
  0 <= i' < n ->
  fst (navigateSuggestions d st) = Normal /\
  activeIndex (globals (press d st)) = i' /\
  rows_of (press d st) = rows_of st /\
  row_active <$> (suggestions (page (press d st)) !! Z.to_nat i') = Some true.
Proof.
  unfold press, rows_of, navigateSuggestions.
  destruct (suggestions (page st)) as [|r rs] eqn:Hrows; [simpl; lia|].
  cbv zeta. intros Hi.
  set (n := Z.of_nat (length (r :: rs))) in *.
  fold (next_index d n (activeIndex (globals st))).
  set (i' := next_index d n (activeIndex (globals st))) in *.
  assert (Hlen : length (clear_active (r :: rs)) = length (r :: rs))
    by apply length_map.
  assert (Hin : (Z.to_nat i' < length (clear_active (r :: rs)))%nat)
    by (rewrite Hlen; lia).
  destruct (lookup_lt_is_Some_2 _ _ Hin) as [row Hrow].
  unfold at_index. destruct (Z.ltb_spec i' 0) as [|_]; [lia|].
  rewrite Hrow. simpl.
  repeat split.
  - by rewrite length_insert.
  - by rewrite list_lookup_insert_eq.
Qed.

Lemma rem_next n i : 0 < n -> -1 <= i < n -> Z.rem (i + 1) n = (i + 1) mod n.
Proof. intros. apply Z.rem_mod_nonneg; lia. Qed.

Lemma rem_prev n i : 0 < n -> 0 <= i < n -> Z.rem (i - 1 + n) n = (i - 1) mod n.
Proof.
  intros. rewrite Z.rem_mod_nonneg by lia.
  replace (i - 1 + n) with (i - 1 + 1 * n) by lia. apply Z_mod_plus_full.
Qed.

(** Either arrow takes an index in range, or no selection, to an index in
    range. *)
Lemma next_index_range d n i :
  0 < n -> -1 <= i < n -> d <> OtherDirection -> 0 <= next_index d n i < n.
Proof.
  intros Hn Hi Hd. destruct d; [| |done]; simpl.
  - rewrite Z.rem_mod_nonneg by lia. apply Z.mod_pos_bound. lia.
  - destruct (Z.eq_dec (i - 1 + n) (-1)) as [E|E].
    + assert (n = 1) as -> by lia. rewrite Z.rem_1_r. lia.
    + rewrite Z.rem_mod_nonneg by lia. apply Z.mod_pos_bound. lia.
Qed.

Lemma clear_active_items rows : row_item <$> clear_active rows = row_item <$> rows.
Proof.
  unfold clear_active. induction rows as [|r rs IH]; [done|]. simpl. by f_equal.
Qed.

Lemma clear_active_lookup rows i r :
  clear_active rows !! i = Some r -> row_active r = false.
Proof.
  unfold clear_active. intros (x & -> & _)%list_lookup_fmap_Some. done.
Qed.

(** With the new index in range, the rows keep their items and their
    order, and the row at the new index is the one that is marked. *)
Lemma navigate_rows d st :
  let n := Z.of_nat (rows_of st) in
  let i' := next_index d n (activeIndex (globals st)) in
  0 <= i' < n ->
  row_item <$> suggestions (page (press d st)) = row_item <$> suggestions (page st) /\
  forall j r, suggestions (page (press d st)) !! j = Some r ->
    row_active r = bool_decide (Z.of_nat j = i').
Proof.
  unfold press, rows_of, navigateSuggestions.
  destruct (suggestions (page st)) as [|r0 rs] eqn:Hrows; [simpl; lia|].
  cbv zeta. intros Hi.
  set (rows := r0 :: rs) in *.
  set (n := Z.of_nat (length rows)) in *.
  fold (next_index d n (activeIndex (globals st))).
  set (i' := next_index d n (activeIndex (globals st))) in *.
  pose proof (clear_active_items rows) as Hitems.
  pose proof (clear_active_lookup rows) as Hfalse.
  assert (Hlen : length (clear_active rows) = length rows) by apply length_map.
  set (cl := clear_active rows) in *. clearbody cl.
  assert (Hin : (Z.to_nat i' < length cl)%nat) by (rewrite Hlen; lia).
  destruct (lookup_lt_is_Some_2 _ _ Hin) as [row Hrow].
  unfold at_index. destruct (Z.ltb_spec i' 0) as [|_]; [lia|].
  rewrite Hrow. simpl. split.
  - rewrite list_fmap_insert. simpl.
    rewrite list_insert_id; [done|]. by rewrite list_lookup_fmap, Hrow.
  - intros j r Hr. destruct (decide (j = Z.to_nat i')) as [->|Hne].
    + rewrite list_lookup_insert_eq in Hr by done. injection Hr as <-. simpl.
      symmetry. apply bool_decide_eq_true. lia.
    + rewrite list_lookup_insert_ne in Hr by done.
      rewrite (Hfalse _ _ Hr). symmetry. apply bool_decide_eq_false. lia.
Qed.

(** [k] presses of ArrowDown from an index in range advance it by [k]
    modulo the number of rows. *)
Lemma press_down_iter k st :
  let n := Z.of_nat (rows_of st) in
  0 < n -> 0 <= activeIndex (globals st) < n ->
  activeIndex (globals (Nat.iter k (press Down) st))
    = (activeIndex (globals st) + Z.of_nat k) mod n /\
  rows_of (Nat.iter k (press Down) st) = rows_of st.
Proof.
  cbv zeta. intros Hn Hi. induction k as [|k [IHi IHn]].
  - simpl. rewrite Z.add_0_r, Z.mod_small by lia. done.
  - change (Nat.iter (S k) (press Down) st)
      with (press Down (Nat.iter k (press Down) st)).
    set (sk := Nat.iter k (press Down) st) in *.
    pose proof (Z.mod_pos_bound (activeIndex (globals st) + Z.of_nat k)
                  (Z.of_nat (rows_of st)) Hn) as Hb.
    destruct (navigate_step Down sk) as (_ & Hidx & Hrows & _).
    { simpl. rewrite IHn, rem_next by lia. apply Z.mod_pos_bound. lia. }
    rewrite Hrows, IHn. split; [|done].
    rewrite Hidx. simpl. rewrite IHn, rem_next by lia.
    rewrite IHi, Nat2Z.inj_succ.
    rewrite Zplus_mod_idemp_l. f_equal. lia.
Qed.

(** [k] presses of ArrowUp from an index in range take it back by [k]
    modulo the number of rows. *)
Lemma press_up_iter k st :
  let n := Z.of_nat (rows_of st) in
  0 < n -> 0 <= activeIndex (globals st) < n ->
  activeIndex (globals (Nat.iter k (press Up) st))
    = (activeIndex (globals st) - Z.of_nat k) mod n /\
  rows_of (Nat.iter k (press Up) st) = rows_of st.
Proof.
  cbv zeta. intros Hn Hi. induction k as [|k [IHi IHn]].
  - simpl. rewrite Z.sub_0_r, Z.mod_small by lia. done.
  - change (Nat.iter (S k) (press Up) st)
      with (press Up (Nat.iter k (press Up) st)).
    set (sk := Nat.iter k (press Up) st) in *.
    pose proof (Z.mod_pos_bound (activeIndex (globals st) - Z.of_nat k)
                  (Z.of_nat (rows_of st)) Hn) as Hb.
    destruct (navigate_step Up sk) as (_ & Hidx & Hrows & _).
    { simpl. rewrite IHn, rem_prev by lia. apply Z.mod_pos_bound. lia. }
    rewrite Hrows, IHn. split; [|done].
    rewrite Hidx. simpl. rewrite IHn, rem_prev by lia.
    rewrite IHi, Nat2Z.inj_succ.
    rewrite Zminus_mod_idemp_l. f_equal. lia.
Qed.

(** What the arrow keys start from: a list rendered without error is on
    the page row for row, with no row selected. *)
Lemma renderSuggestions_rows items st :
  fst (renderSuggestions items st) = Normal ->
  let st' := snd (renderSuggestions items st) in
  row_item <$> suggestions (page st') = items /\
  lastSuggestions (globals st') = items /\
  rows_of st' = length items /\
  activeIndex (globals st') = -1.
Proof.
  unfold renderSuggestions, rows_of, and_then, modify, throw. simpl.
  destruct items as [|s r]; [done|].
  destruct (forallb _ (s :: r)); [|done]. intros _. simpl.
  rewrite length_map. repeat split.
  f_equal. induction r as [|x r IH]; [done|]. simpl. by rewrite IH.
Qed.

End Navigation.

(** C6. Arrow keys move the selection in a circle. With [n] rows shown:
    ArrowDown from no selection (-1) selects row 0; [n] ArrowDowns from row
    0 come back to row 0; ArrowUp from row 0 selects row [n - 1]. With no
    row shown, either key leaves the state as it is. In general, from a
    selected row [i], ArrowDown selects row [(i + 1) mod n] and ArrowUp row
    [(i - 1) mod n], so that [k] presses move the selection by [k] places
    around the circle; ArrowUp from no selection selects row [n - 2] (row
    0 when there is one row). After either key the rows are the same items
    in the same order, and the selected row is the only one marked. *)
Theorem navigate_circular (st : State) :
  let n := rows_of st in
  (n = 0%nat ->
     navigateSuggestions Down st = (Normal, st) /\
     navigateSuggestions Up st = (Normal, st)) /\
  ((0 < n)%nat -> activeIndex (globals st) = -1 ->
     fst (navigateSuggestions Down st) = Normal /\
     activeIndex (globals (press Down st)) = 0) /\
  ((0 < n)%nat -> activeIndex (globals st) = 0 ->
     activeIndex (globals (Nat.iter n (press Down) st)) = 0) /\
  ((0 < n)%nat -> activeIndex (globals st) = 0 ->
     fst (navigateSuggestions Up st) = Normal /\
     activeIndex (globals (press Up st)) = Z.of_nat n - 1) /\
  (0 <= activeIndex (globals st) < Z.of_nat n ->
     fst (navigateSuggestions Down st) = Normal /\
     activeIndex (globals (press Down st))
       = (activeIndex (globals st) + 1) mod Z.of_nat n /\
     fst (navigateSuggestions Up st) = Normal /\
     activeIndex (globals (press Up st))
       = (activeIndex (globals st) - 1) mod Z.of_nat n /\
     forall k : nat,
       activeIndex (globals (Nat.iter k (press Down) st))
         = (activeIndex (globals st) + Z.of_nat k) mod Z.of_nat n /\
       activeIndex (globals (Nat.iter k (press Up) st))
         = (activeIndex (globals st) - Z.of_nat k) mod Z.of_nat n) /\
  ((0 < n)%nat -> activeIndex (globals st) = -1 ->
     fst (navigateSuggestions Up st) = Normal /\
     activeIndex (globals (press Up st)) = Z.max 0 (Z.of_nat n - 2)) /\
  ((0 < n)%nat -> -1 <= activeIndex (globals st) < Z.of_nat n ->
   forall d, d <> OtherDirection ->
     rows_of (press d st) = n /\
     row_item <$> suggestions (page (press d st))
       = row_item <$> suggestions (page st) /\
     forall j r, suggestions (page (press d st)) !! j = Some r ->
       row_active r = bool_decide (Z.of_nat j = activeIndex (globals (press d st)))).
Proof.
  cbv zeta. split; [|split; [|split; [|split; [|split; [|split]]]]].
  - intros Hn. split; apply navigate_empty; by apply nil_length_inv.
  - intros Hn Hi.
    destruct (navigate_step Down st) as (Hc & Hidx & _).
    + simpl. rewrite Hi. simpl. rewrite Z.rem_0_l by lia. lia.
    + split; [exact Hc|]. rewrite Hidx. simpl. rewrite Hi. simpl.
      apply Z.rem_0_l. lia.
  - intros Hn Hi.
    destruct (press_down_iter (rows_of st) st) as [Hidx _]; [lia..|].
    rewrite Hidx, Hi. simpl. apply Z_mod_same_full.
  - intros Hn Hi.
    destruct (navigate_step Up st) as (Hc & Hidx & _).
    + simpl. rewrite Hi. rewrite Z.rem_small by lia. lia.
    + split; [exact Hc|]. rewrite Hidx. simpl. rewrite Hi.
      rewrite Z.rem_small by lia. lia.
  - intros Hi.
    assert (Hn : 0 < Z.of_nat (rows_of st)) by lia.
    destruct (navigate_step Down st) as (Hcd & Hd & _).
    { apply next_index_range; [lia | lia | done]. }
    destruct (navigate_step Up st) as (Hcu & Hu & _).
    { apply next_index_range; [lia | lia | done]. }
    split; [exact Hcd|]. split.
    { rewrite Hd. simpl. apply rem_next; lia. }
    split; [exact Hcu|]. split.
    { rewrite Hu. simpl. apply rem_prev; lia. }
    intros k. split.
    + by destruct (press_down_iter k st Hn Hi).
    + by destruct (press_up_iter k st Hn Hi).
  - intros Hn Hi.
    destruct (navigate_step Up st) as (Hc & Hidx & _).
    { apply next_index_range; [lia | lia | done]. }
    split; [exact Hc|]. rewrite Hidx. simpl. rewrite Hi.
    destruct (decide (rows_of st = 1%nat)) as [->|Hne]; [reflexivity|].
    rewrite Z.rem_small by lia. lia.
  - intros Hn Hi d Hd.
    assert (Hr : 0 <= next_index d (Z.of_nat (rows_of st)) (activeIndex (globals st))
                 < Z.of_nat (rows_of st)).
    { apply next_index_range; [lia | lia | done]. }
    destruct (navigate_step d st Hr) as (_ & Hidx & Hrows & _).
    destruct (navigate_rows d st Hr) as (Hitems & Hmark).
    split; [exact Hrows|]. split; [exact Hitems|].
    intros j r Hj. rewrite Hidx. by apply Hmark.
Qed.

Lemma navigate_circular_witness :
  navigateSuggestions Up (initial None) = (Normal, initial None) /\
  activeIndex (globals (press Down three_rows)) = 0 /\
  activeIndex (globals (Nat.iter 3 (press Down) (press Down three_rows))) = 0 /\
  activeIndex (globals (press Up (press Down three_rows))) = 2 /\
  activeIndex (globals (press Down (press Down three_rows))) = 1 /\
  activeIndex (globals (Nat.iter 2 (press Up) (press Down three_rows))) = 1 /\
  activeIndex (globals (press Up three_rows)) = 1 /\
  row_active <$> suggestions (page (press Down (press Down three_rows)))
    = [false; true; false].
Proof.
  destruct (navigate_circular (initial None)) as (Hnone & _).
  destruct (navigate_circular three_rows) as (_ & Hdown & _ & _ & _ & Hfirst & _).
  destruct (navigate_circular (press Down three_rows))
    as (_ & _ & Hloop & Hup & Hstep & _ & Hrows).
  split; [apply Hnone; reflexivity|].
  split; [apply Hdown; [cbv; lia | reflexivity]|].
  split; [apply Hloop; [cbv; lia | reflexivity]|].
  split; [apply Hup; [cbv; lia | reflexivity]|].
  destruct Hstep as (_ & Hnext & _ & _ & Hk); [by vm_compute|].
  split; [exact Hnext|].
  split; [exact (proj2 (Hk 2%nat))|].
  split; [apply Hfirst; [cbv; lia | reflexivity]|].
  destruct (Hrows ltac:(cbv; lia) ltac:(by vm_compute) Down ltac:(discriminate))
    as (Hlen & _ & Hmark).
  unfold rows_of in Hlen. revert Hlen Hmark.
  generalize (suggestions (page (press Down (press Down three_rows)))).
  intros [|r0 [|r1 [|r2 [|r3 rest]]]] Hlen Hmark;
    vm_compute in Hlen; try discriminate Hlen.
  simpl. rewrite (Hmark 0%nat r0 eq_refl), (Hmark 1%nat r1 eq_refl),
    (Hmark 2%nat r2 eq_refl). reflexivity.
Defined.

(* ================================================================== *)
(** * Busy indicators: release on every exit *)

Section Release.

(** A [finally] block that only assigns runs after the body, whatever the
    body did, and keeps the body's completion. *)
Lemma try_finally_modify body f st :
  try_finally body (modify f) st = (fst (body st), f (snd (body st))).
Proof. unfold try_finally, modify. by destruct (body st). Qed.

(** A handler that logs and alerts turns every throw into a normal
    completion. *)
Lemma try_catch_alert body v st :
  fst (try_catch body (fun e => console e ;; alert v) st) = Normal.
Proof. unfold try_catch. by destruct (body st) as [[|e] st1]. Qed.

Lemma async_normal body st : fst (async body st) = Normal.
Proof. unfold async. by destruct (body st) as [[|e] st1]. Qed.

Lemma async_of_normal body st :
  fst (body st) = Normal -> async body st = body st.
Proof. unfold async. destruct (body st) as [[|e] st1]; simpl; congruence. Qed.

Lemma searchStock_settle_released body st :
  fst (searchStock_settle body st) = Normal /\
  searchBtn (page (snd (searchStock_settle body st))) = idle_search.
Proof.
  unfold searchStock_settle. rewrite try_finally_modify. simpl.
  split; [apply try_catch_alert | reflexivity].
Qed.

Lemma getRecommendations_settle_released body st :
  fst (getRecommendations_settle body st) = Normal /\
  recBtn (page (snd (getRecommendations_settle body st))) = idle_rec.
Proof.
  unfold getRecommendations_settle. rewrite try_finally_modify. simpl.
  split; [apply try_catch_alert | reflexivity].
Qed.

Lemma searchStock_resume_released symbol o st :
  exists st', searchStock_resume symbol o st = (Normal, st') /\
              searchBtn (page st') = idle_search.
Proof.
  unfold searchStock_resume.
  match goal with |- context [searchStock_settle ?b] =>
    destruct (searchStock_settle_released b st) as [Hc Hb];
    rewrite (async_of_normal _ _ Hc);
    exists (snd (searchStock_settle b st))
  end.
  split; [|exact Hb]. rewrite <- Hc. apply surjective_pairing.
Qed.

Lemma getRecommendations_resume_released o st :
  exists st', getRecommendations_resume o st = (Normal, st') /\
              recBtn (page st') = idle_rec.
Proof.
  unfold getRecommendations_resume.
  match goal with |- context [getRecommendations_settle ?b] =>
    destruct (getRecommendations_settle_released b st) as [Hc Hb];
    rewrite (async_of_normal _ _ Hc);
    exists (snd (getRecommendations_settle b st))
  end.
  split; [|exact Hb]. rewrite <- Hc. apply surjective_pairing.
Qed.

(** How a call of [searchStock] leaves the button: untouched (blank
    input), released (the URL could not be built), or busy with the
    request registered for its response. *)
Lemma searchStock_started st :
  let st' := snd (searchStock st) in
  fst (searchStock st) = Normal /\
  (st' = st \/
   searchBtn (page st') = idle_search \/
   searchBtn (page st') = busy_search /\
   exists symbol,
     inflight (host st') !! next_request (host st) = Some (ReqSearch symbol)).
Proof.
  cbv zeta. split; [apply async_normal|].
  unfold searchStock, async.
  destruct (bool_decide (toUpperCase (trim (stockSearch (page st))) = [])); [by left|].
  right. unfold and_then, modify.
  destruct (well_formed_utf16 _).
  - right. simpl. split; [done|]. eexists. apply lookup_insert_eq.
  - left.
    match goal with |- context [searchStock_settle ?b ?s] =>
      destruct (searchStock_settle_released b s) as [Hc Hb];
      destruct (searchStock_settle b s) as [c s'] end.
    simpl in *. by subst c.
Qed.

Lemma getRecommendations_started st :
  let st' := snd (getRecommendations st) in
  fst (getRecommendations st) = Normal /\
  recBtn (page st') = busy_rec /\
  inflight (host st') !! next_request (host st)
    = Some (ReqRecommendations (userProfile (globals st))).
Proof.
  cbv zeta. unfold getRecommendations, async, and_then, send, modify. simpl.
  repeat split. apply lookup_insert_eq.
Qed.

End Release.

(** C4. Guaranteed release. Whatever a search or a recommendation request
    ends in (network failure, a body that is not JSON, a 2xx or a non-2xx
    response with any body, an exception while rendering), the handler of
    its response completes normally with the trigger showing its idle label
    and enabled again; and a call that marked the trigger busy either
    released it before returning or left its request registered for such a
    response. *)
Theorem busy_indicator_released (st : State) (rid : nat) (o : Outcome) :
  (forall symbol, inflight (host st) !! rid = Some (ReqSearch symbol) ->
     exists st', handle (Response rid o) st = Some (Normal, st') /\
                 searchBtn (page st') = idle_search) /\
  (forall profile, inflight (host st) !! rid = Some (ReqRecommendations profile) ->
     exists st', handle (Response rid o) st = Some (Normal, st') /\
                 recBtn (page st') = idle_rec) /\
  (fst (searchStock st) = Normal /\
   (snd (searchStock st) = st \/
    searchBtn (page (snd (searchStock st))) = idle_search \/
    searchBtn (page (snd (searchStock st))) = busy_search /\
    exists symbol, inflight (host (snd (searchStock st))) !! next_request (host st)
                   = Some (ReqSearch symbol))) /\
  (fst (getRecommendations st) = Normal /\
   recBtn (page (snd (getRecommendations st))) = busy_rec /\
   inflight (host (snd (getRecommendations st))) !! next_request (host st)
     = Some (ReqRecommendations (userProfile (globals st)))).
Proof.
  split; [|split; [|split]].
  - intros symbol Hreq. unfold handle. rewrite Hreq.
    match goal with |- context [searchStock_resume symbol o ?s] =>
      destruct (searchStock_resume_released symbol o s) as (st' & Hrun & Hbtn) end.
    exists st'. by rewrite Hrun.
  - intros profile Hreq. unfold handle. rewrite Hreq.
    match goal with |- context [getRecommendations_resume o ?s] =>
      destruct (getRecommendations_resume_released o s) as (st' & Hrun & Hbtn) end.
    exists st'. by rewrite Hrun.
  - apply searchStock_started.
  - apply getRecommendations_started.
Qed.

Lemma busy_indicator_released_witness :
  searchBtn (page searching) = busy_search /\
  (exists st', handle (Response 0 (Body true JNull)) searching = Some (Normal, st') /\
               searchBtn (page st') = idle_search) /\
  (exists st', handle (Response 0 NetworkError) searching = Some (Normal, st') /\
               searchBtn (page st') = idle_search).
Proof.
  split; [reflexivity|]. split.
  - destruct (busy_indicator_released searching 0 (Body true JNull)) as (Hsearch & _).
    apply (Hsearch (str "TCS")). vm_compute. reflexivity.
  - destruct (busy_indicator_released searching 0 NetworkError) as (Hsearch & _).
    apply (Hsearch (str "TCS")). vm_compute. reflexivity.
Defined.

(** A body of [null] on a 2xx response makes [displayStockInfo] throw; the
    catch block alerts and the button is released all the same. *)
Example search_null_body :
  (fun st => (searchBtn (page st), head (effects (host st))))
    <$> (snd <$> handle (Response 0 (Body true JNull)) searching)
  = Some (idle_search,
          Some (Alert (JStr (str "Error fetching stock data. Please try again.")))).
Proof. vm_compute. reflexivity. Qed.

(* ================================================================== *)
(** * Loading the profile *)

Section Profile.

Variable st : State.

Lemma load_absent :
  saved_truthy (stored_profile (host st)) = None ->
  loadUserProfile st = (Normal, st).
Proof. intros H. unfold loadUserProfile. by rewrite H. Qed.

Lemma load_parsed saved v :
  saved_truthy (stored_profile (host st)) = Some saved ->
  JSON_parse saved = Some v ->
  loadUserProfile st = (Normal, upd_globals (set_userProfile v) st).
Proof. intros H Hp. unfold loadUserProfile. by rewrite H, Hp. Qed.

Lemma load_malformed saved :
  saved_truthy (stored_profile (host st)) = Some saved ->
  JSON_parse saved = None ->
  loadUserProfile st = (Thrown SyntaxError, st).
Proof. intros H Hp. unfold loadUserProfile. by rewrite H, Hp. Qed.

End Profile.

Lemma saved_truthy_Some saved text :
  saved_truthy saved = Some text <-> saved = Some text /\ text <> [].
Proof.
  destruct saved as [[|c r]|]; simpl; split; try done.
  - intros [[= <-] ?]. done.
  - intros [= <-]. done.
  - intros [[= <-] _]. done.
  - by intros [? _].
Qed.

Lemma saved_truthy_None saved :
  saved_truthy saved = None <-> saved = None \/ saved = Some [].
Proof.
  destruct saved as [[|c r]|]; simpl; split; auto; try done.
  intros [H|H]; discriminate H.
Qed.

(** The page load with the defaults still in place. *)
Lemma page_load_defaults saved :
  saved_truthy saved = None ->
  exists st', handle DOMContentLoaded (initial saved) = Some (Normal, st') /\
              userProfile (globals st') = default_profile /\
              wired (host st') = true.
Proof.
  intros H. unfold handle. simpl. unfold and_then at 1.
  rewrite load_absent by exact H. eexists. split; [reflexivity|]. done.
Qed.

(** C2, as the code has it. From the state the page starts in:
    - with nothing stored (no item, or the empty text), [loadUserProfile]
      completes normally, the profile keeps the defaults (budget 100000,
      risk medium, timeline medium) and the page load installs its handlers;
    - with a stored text that [JSON.parse] accepts, the profile becomes the
      parsed value, whatever it is;
    - with a non-empty stored text that [JSON.parse] rejects,
      [loadUserProfile] throws the SyntaxError; the profile variable still
      holds the defaults, and the page load stops there, before the handlers
      are installed. *)
Theorem loadUserProfile_from_storage (saved : option jsstring) :
  (saved = None \/ saved = Some [] ->
     loadUserProfile (initial saved) = (Normal, initial saved) /\
     userProfile (globals (initial saved)) = default_profile /\
     exists st', handle DOMContentLoaded (initial saved) = Some (Normal, st') /\
                 userProfile (globals st') = default_profile /\
                 wired (host st') = true) /\
  (forall text v, saved = Some text -> text <> [] -> JSON_parse text = Some v ->
     fst (loadUserProfile (initial saved)) = Normal /\
     userProfile (globals (snd (loadUserProfile (initial saved)))) = v) /\
  (forall text, saved = Some text -> text <> [] -> JSON_parse text = None ->
     loadUserProfile (initial saved) = (Thrown SyntaxError, initial saved) /\
     userProfile (globals (initial saved)) = default_profile /\
     handle DOMContentLoaded (initial saved) = Some (Thrown SyntaxError, initial saved) /\
     wired (host (initial saved)) = false).
Proof.
  split; [|split].
  - intros Habsent%saved_truthy_None. split; [by apply load_absent|].
    split; [done|]. by apply page_load_defaults.
  - intros text v Hs Hne Hp.
    rewrite (load_parsed (initial saved) text v); [done| |done].
    by apply saved_truthy_Some.
  - intros text Hs Hne Hp.
    assert (Hload : loadUserProfile (initial saved) = (Thrown SyntaxError, initial saved)).
    { apply (load_malformed _ text); [|done]. by apply saved_truthy_Some. }
    split; [done|]. split; [done|]. split; [|done].
    unfold handle. simpl. unfold and_then at 1. by rewrite Hload.
Qed.

Lemma loadUserProfile_from_storage_witness :
  loadUserProfile (initial None) = (Normal, initial None) /\
  userProfile (globals (snd (loadUserProfile (initial (Some (str "42"))))))
    = JNum (Fin (scale10 42 0)) /\
  loadUserProfile (initial (Some (str "{budget:1}")))
    = (Thrown SyntaxError, initial (Some (str "{budget:1}"))).
Proof.
  split; [|split].
  - destruct (loadUserProfile_from_storage None) as (Habsent & _).
    apply Habsent. by left.
  - destruct (loadUserProfile_from_storage (Some (str "42"))) as (_ & Hparsed & _).
    apply (Hparsed (str "42")); [reflexivity | discriminate | reflexivity].
  - destruct (loadUserProfile_from_storage (Some (str "{budget:1}"))) as (_ & _ & Hbad).
    apply (Hbad (str "{budget:1}")); [reflexivity | discriminate | reflexivity].
Defined.

(** C2 as the specification words it does not hold: on malformed text,
    here a stored [{], [loadUserProfile] throws, in the unified script and
    in the first revisions alike, and the page load with it. *)
Lemma load_malformed_throws :
  JSON_parse (str "{") = None /\
  loadUserProfile (initial (Some (str "{")))
    = (Thrown SyntaxError, initial (Some (str "{"))) /\
  Rev1.loadUserProfile (initial (Some (str "{")))
    = (Thrown SyntaxError, initial (Some (str "{"))) /\
  handle DOMContentLoaded (initial (Some (str "{")))
    = Some (Thrown SyntaxError, initial (Some (str "{"))).
Proof. repeat split. Qed.

(* ================================================================== *)
(** * What a handler keeps *)

Section Stability.

Variable P : State -> Prop.

Hypothesis P_effect : forall e st, P st -> P (upd_host (add_effect e) st).

Lemma stable_skip : stable P skip.
Proof. by intros st H. Qed.

Lemma stable_throw e : stable P (throw e).
Proof. by intros st H. Qed.

Lemma stable_modify f : (forall st, P st -> P (f st)) -> stable P (modify f).
Proof. intros Hf st H. by apply Hf. Qed.

Lemma stable_and_then a b : stable P a -> stable P b -> stable P (a ;; b).
Proof.
  intros Ha Hb st H. unfold and_then. specialize (Ha st H).
  destruct (a st) as [[|e] st1]; simpl in *; auto.
Qed.

Lemma stable_try_catch body handler :
  stable P body -> (forall e, stable P (handler e)) -> stable P (try_catch body handler).
Proof.
  intros Hb Hh st H. unfold try_catch. specialize (Hb st H).
  destruct (body st) as [[|e] st1]; simpl in *; [done|]. by apply Hh.
Qed.

Lemma stable_try_finally body final :
  stable P body -> stable P final -> stable P (try_finally body final).
Proof.
  intros Hb Hf st H. unfold try_finally. specialize (Hb st H).
  destruct (body st) as [c st1]. simpl in Hb. specialize (Hf st1 Hb).
  by destruct (final st1) as [[|e] st2].
Qed.

Lemma stable_async body : stable P body -> stable P (async body).
Proof.
  intros Hb st H. unfold async. specialize (Hb st H).
  destruct (body st) as [[|e] st1]; simpl in *; auto.
Qed.

Lemma stable_then_listener a b : stable P a -> stable P b -> stable P (then_listener a b).
Proof.
  intros Ha Hb st H. unfold then_listener. specialize (Ha st H).
  destruct (a st) as [[|e] st1]; simpl in *; auto.
Qed.

Lemma stable_if (c : bool) a b : stable P a -> stable P b -> stable P (if c then a else b).
Proof. by destruct c. Qed.

Lemma stable_console e : stable P (console e).
Proof. intros st H. by apply P_effect. Qed.

Lemma stable_alert v : stable P (alert v).
Proof. intros st H. by apply P_effect. Qed.

End Stability.

(* ================================================================== *)
(** * Timers *)

Lemma timers_ok_ext st st' :
  timer_state st' = timer_state st -> timers_ok st -> timers_ok st'.
Proof.
  unfold timer_state. intros [= Hn Ht Hr Hs] [H1 H2 H3 H4 H5 H6 H7].
  constructor; rewrite ?Hn, ?Ht, ?Hr, ?Hs; assumption.
Qed.

Lemma timers_ok_initial saved : timers_ok (initial saved).
Proof.
  constructor; simpl; try lia; try done.
Qed.

Lemma keeps_timer_state m st : keeps m -> timer_state (snd (m st)) = timer_state st.
Proof. intros H. by apply (H (timer_state st) st). Qed.

Lemma keeps_stable m : keeps m -> stable timers_ok m.
Proof.
  intros H st Hok. eapply timers_ok_ext; [|exact Hok]. by apply keeps_timer_state.
Qed.

(** Closing a [keeps] goal: the combinators, then assignments that do not
    touch the bookkeeping. *)
Ltac stable_step :=
  lazymatch goal with
  | |- stable _ (and_then _ _) => apply stable_and_then
  | |- stable _ (try_catch _ _) => apply stable_try_catch; [|intros ?]
  | |- stable _ (try_finally _ _) => apply stable_try_finally
  | |- stable _ (async _) => apply stable_async
  | |- stable _ (then_listener _ _) => apply stable_then_listener
  | |- stable _ (if _ then _ else _) => apply stable_if
  | |- stable _ skip => apply stable_skip
  | |- stable _ (throw _) => apply stable_throw
  | |- stable _ (console _) => apply stable_console
  | |- stable _ (alert _) => apply stable_alert
  end.

Ltac keeps_leaf :=
  lazymatch goal with
  | |- stable _ (modify _) => apply stable_modify; by intros [? ? ?] <-
  | |- forall _ _, _ -> _ = _ => by intros ? [? ? ?] <-
  | |- _ => idtac
  end.

Ltac stable_auto := repeat stable_step; keeps_leaf.

Ltac keeps_auto := intros ts; stable_auto.

Section Keeps.

Lemma keeps_renderSuggestions items : keeps (renderSuggestions items).
Proof.
  unfold renderSuggestions. destruct items as [|s r]; keeps_auto.
Qed.

Lemma keeps_send r : keeps (send r).
Proof. unfold send. keeps_auto. Qed.

Lemma keeps_fetchSuggestions q : keeps (fetchSuggestions q).
Proof.
  unfold fetchSuggestions, fetchSuggestions_catch. keeps_auto;
    first [apply keeps_renderSuggestions | apply keeps_send].
Qed.

Lemma keeps_fetchSuggestions_resume o : keeps (fetchSuggestions_resume o).
Proof.
  unfold fetchSuggestions_resume, fetchSuggestions_catch.
  destruct o; keeps_auto; apply keeps_renderSuggestions.
Qed.

Lemma keeps_drawPriceChart h : keeps (drawPriceChart h).
Proof.
  intros ts st <-. unfold drawPriceChart.
  destruct (has_canvas (host st)); [|done].
  destruct (has_Chart (host st)); simpl; [|by destruct st].
  destruct h as [| | | | |l|]; try done.
  destruct (forallb _ l); [|done]. by destruct st.
Qed.

Lemma keeps_displayStockInfo data : keeps (displayStockInfo data).
Proof.
  unfold displayStockInfo. keeps_auto. apply keeps_drawPriceChart.
Qed.

Lemma keeps_append_news items : keeps (append_news items).
Proof.
  induction items as [|item rest IH]; simpl; keeps_auto. apply IH.
Qed.

Lemma keeps_loadNews symbol : keeps (loadNews symbol).
Proof. unfold loadNews. keeps_auto. apply keeps_send. Qed.

Lemma keeps_loadNews_resume o : keeps (loadNews_resume o).
Proof.
  unfold loadNews_resume. destruct o as [| |ok news]; keeps_auto.
  destruct news as [| | | | |[|item rest]|]; stable_auto.
  apply (keeps_append_news (item :: rest)).
Qed.

Lemma keeps_searchStock_settle body : keeps body -> keeps (searchStock_settle body).
Proof. intros Hb. unfold searchStock_settle. keeps_auto. apply Hb. Qed.

Lemma keeps_searchStock : keeps searchStock.
Proof.
  unfold searchStock. intros ts. apply stable_async; [keeps_leaf|].
  intros st <-.
  destruct (bool_decide (toUpperCase (trim (stockSearch (page st))) = [])); [done|].
  match goal with |- timer_state (snd (?m st)) = _ =>
    apply (keeps_timer_state m st) end.
  intros ts'. stable_auto; [apply keeps_send|].
  apply keeps_searchStock_settle. keeps_auto.
Qed.

Lemma keeps_pickSuggestion idx : keeps (pickSuggestion idx).
Proof.
  intros ts st <-. unfold pickSuggestion.
  destruct ((idx <? 0) || _); [done|].
  destruct (lastSuggestions (globals st) !! Z.to_nat idx) as [s|]; [|done].
  destruct (get_prop s "symbol") as [sym|]; [|done].
  match goal with |- timer_state (snd (?m st)) = _ =>
    apply (keeps_timer_state m st) end.
  intros ts'. stable_auto; [apply keeps_renderSuggestions | apply keeps_searchStock].
Qed.

Lemma keeps_navigateSuggestions d : keeps (navigateSuggestions d).
Proof.
  intros ts st <-. unfold navigateSuggestions.
  destruct (suggestions (page st)) as [|r rs]; [done|]. cbv zeta.
  destruct (at_index _ _); by destruct st.
Qed.

Lemma keeps_append_cards recs : keeps (append_cards recs).
Proof.
  induction recs as [|rec rest IH]; simpl; [keeps_auto|].
  destruct (rec_card rec); keeps_auto. apply IH.
Qed.

Lemma keeps_displayRecommendations recs : keeps (displayRecommendations recs).
Proof.
  unfold displayRecommendations. keeps_auto.
  destruct recs as [| | | | |[|rec rest]|]; stable_auto.
  apply (keeps_append_cards (rec :: rest)).
Qed.

Lemma keeps_getRecommendations : keeps getRecommendations.
Proof.
  unfold getRecommendations. keeps_auto.
  intros st <-. apply (keeps_timer_state _ st), keeps_send.
Qed.

Lemma keeps_getRecommendations_resume o : keeps (getRecommendations_resume o).
Proof.
  unfold getRecommendations_resume, getRecommendations_settle.
  destruct o as [| |ok recs]; keeps_auto.
  apply keeps_displayRecommendations.
Qed.

Lemma keeps_loadUserProfile : keeps loadUserProfile.
Proof.
  intros ts st <-. unfold loadUserProfile.
  destruct (saved_truthy _) as [saved|]; [|done].
  destruct (JSON_parse saved); [|done]. by destruct st.
Qed.

Lemma keeps_updateProfileDisplay : keeps updateProfileDisplay.
Proof.
  intros ts st <-. unfold updateProfileDisplay.
  destruct (get_prop _ _) as [b|]; [|done].
  cbv zeta. destruct (negb (localizable b)); [done|].
  repeat (destruct (negb (stringable _)); [by destruct st|]). by destruct st.
Qed.

Lemma keeps_run_task tk : keeps (run_task tk).
Proof.
  destruct tk as [|symbol]; simpl.
  - intros ts st <-. apply (keeps_timer_state _ st), keeps_fetchSuggestions.
  - keeps_auto. apply keeps_searchStock.
Qed.

Lemma keeps_on_keydown k : keeps (on_keydown k).
Proof.
  destruct k; simpl; try (keeps_auto; fail).
  - intros ts st <-. destruct (0 <=? activeIndex (globals st)).
    + apply (keeps_timer_state _ st), keeps_pickSuggestion.
    + match goal with |- timer_state (snd (?m st)) = _ =>
        apply (keeps_timer_state m st) end.
      intros ts'. stable_auto; [apply keeps_renderSuggestions | apply keeps_searchStock].
  - apply keeps_navigateSuggestions.
  - apply keeps_navigateSuggestions.
  - apply keeps_renderSuggestions.
Qed.

End Keeps.

Section Polls.

Lemma polls_lookup st id tm :
  polls st !! id = Some tm <->
  timers (host st) !! id = Some tm /\ is_interval tm = true.
Proof. unfold polls. by rewrite map_lookup_filter_Some. Qed.

Lemma pending_lookup st id tm :
  pending_suggests st !! id = Some tm <->
  timers (host st) !! id = Some tm /\ is_interval tm = false.
Proof. unfold pending_suggests. by rewrite map_lookup_filter_Some. Qed.

(** A map all of whose entries sit at one key is empty or a singleton. *)
Lemma at_one_key (m : gmap nat Timer) (k : nat) :
  (forall i x, m !! i = Some x -> i = k) -> (size m <= 1)%nat.
Proof.
  intros Hk. destruct (m !! k) as [x|] eqn:Hx.
  - assert (m = {[k := x]}) as ->; [|rewrite map_size_singleton; lia].
    apply map_eq. intros i. destruct (decide (i = k)) as [->|Hne].
    + by rewrite lookup_singleton_eq.
    + rewrite lookup_singleton_ne by congruence.
      destruct (m !! i) as [y|] eqn:Hy; [|done]. apply Hk in Hy. congruence.
  - assert (m = ∅) as ->; [|rewrite map_size_empty; lia].
    apply map_empty. intros i.
    destruct (m !! i) as [y|] eqn:Hy; [|done].
    pose proof (Hk _ _ Hy) as ->. congruence.
Qed.

Lemma polls_at_most_one st : timers_ok st -> (size (polls st) <= 1)%nat.
Proof.
  intros Hok. destruct (refreshInterval (globals st)) as [k|] eqn:Hr.
  - apply (at_one_key _ k). intros i x [Hl Hi]%polls_lookup.
    apply (ok_interval st Hok _ _ Hl) in Hi. congruence.
  - apply (at_one_key _ 0%nat). intros i x [Hl Hi]%polls_lookup.
    apply (ok_interval st Hok _ _ Hl) in Hi. congruence.
Qed.

Lemma pending_at_most_one st : timers_ok st -> (size (pending_suggests st) <= 1)%nat.
Proof.
  intros Hok. destruct (suggestTimer (globals st)) as [k|] eqn:Hr.
  - apply (at_one_key _ k). intros i x [Hl Hi]%pending_lookup.
    apply (ok_timeout st Hok _ _ Hl) in Hi. congruence.
  - apply (at_one_key _ 0%nat). intros i x [Hl Hi]%pending_lookup.
    apply (ok_timeout st Hok _ _ Hl) in Hi. congruence.
Qed.

Lemma without_poll_lookup st i tm :
  timers_ok st ->
  without_poll st !! i = Some tm ->
  timers (host st) !! i = Some tm /\ is_interval tm = false.
Proof.
  intros Hok. unfold without_poll.
  destruct (refreshInterval (globals st)) as [[|old]|] eqn:Hr; simpl.
  - intros Hl. split; [done|]. destruct (is_interval tm) eqn:Hi; [|done].
    apply (ok_interval st Hok _ _ Hl) in Hi.
    destruct (ok_live st Hok _ _ Hl). assert (i = 0%nat) by congruence. lia.
  - intros [Hne Hl]%lookup_delete_Some. split; [done|].
    destruct (is_interval tm) eqn:Hi; [|done].
    apply (ok_interval st Hok _ _ Hl) in Hi. congruence.
  - intros Hl. split; [done|]. destruct (is_interval tm) eqn:Hi; [|done].
    apply (ok_interval st Hok _ _ Hl) in Hi. congruence.
Qed.

Lemma startAutoRefresh_state symbol st :
  let st' := snd (startAutoRefresh symbol st) in
  timers (host st')
    = <[next_timer (host st) := mkTimer (now (host st) + 30000) (Some 30000)
                                        (RefreshTask symbol)]> (without_poll st) /\
  next_timer (host st') = S (next_timer (host st)) /\
  refreshInterval (globals st') = Some (next_timer (host st)) /\
  suggestTimer (globals st') = suggestTimer (globals st).
Proof.
  unfold startAutoRefresh, without_poll, modify. simpl.
  destruct (handle_truthy _); [destruct (refreshInterval _)|]; done.
Qed.

Lemma startAutoRefresh_ok symbol : stable timers_ok (startAutoRefresh symbol).
Proof.
  intros st Hok.
  destruct (startAutoRefresh_state symbol st) as (Ht & Hn & Hr & Hs).
  pose proof (ok_next st Hok) as Hpos.
  constructor; rewrite ?Ht, ?Hn, ?Hr, ?Hs.
  - lia.
  - intros i tm [[<- _]|[Hne Hl]]%lookup_insert_Some; [lia|].
    apply (without_poll_lookup st _ _ Hok) in Hl as [Hl _].
    pose proof (ok_live st Hok _ _ Hl). lia.
  - intros i [= <-]. lia.
  - intros i Hi. pose proof (ok_suggest st Hok _ Hi). lia.
  - intros i tm [[<- <-]|[Hne Hl]]%lookup_insert_Some; [done|].
    apply (without_poll_lookup st _ _ Hok) in Hl as [_ Hl]. rewrite Hl.
    split; [done|]. intros [= ?]. done.
  - intros i tm [[<- <-]|[Hne Hl]]%lookup_insert_Some.
    + split; [done|]. intros Hi. pose proof (ok_suggest st Hok _ Hi). lia.
    + apply (without_poll_lookup st _ _ Hok) in Hl as [Hl _].
      apply (ok_timeout st Hok _ _ Hl).
  - intros i tm [[<- <-]|[Hne Hl]]%lookup_insert_Some; [done|].
    apply (without_poll_lookup st _ _ Hok) in Hl as [Hl _].
    apply (ok_task st Hok _ _ Hl).
Qed.

(** After [startAutoRefresh] the live polls are the new one alone. *)
Lemma startAutoRefresh_polls symbol st :
  timers_ok st ->
  polls (snd (startAutoRefresh symbol st))
    = {[next_timer (host st) := mkTimer (now (host st) + 30000) (Some 30000)
                                        (RefreshTask symbol)]}.
Proof.
  intros Hok. destruct (startAutoRefresh_state symbol st) as (Ht & _).
  apply map_eq. intros i. apply option_eq. intros tm.
  rewrite polls_lookup, Ht, lookup_singleton_Some, lookup_insert_Some.
  split.
  - intros [[[<- <-]|[Hne Hl]] Hi]; [done|].
    apply (without_poll_lookup st _ _ Hok) in Hl as [_ Hl]. congruence.
  - intros [<- <-]. split; [by left | done].
Qed.

Lemma startAutoRefresh_cancels symbol st old tm :
  timers_ok st ->
  polls st !! old = Some tm ->
  timers (host (snd (startAutoRefresh symbol st))) !! old = None.
Proof.
  intros Hok [Hl Hi]%polls_lookup.
  destruct (startAutoRefresh_state symbol st) as (Ht & _). rewrite Ht.
  pose proof (ok_live st Hok _ _ Hl).
  rewrite lookup_insert_ne by lia.
  destruct (without_poll st !! old) as [tm'|] eqn:Hw; [|done].
  apply (without_poll_lookup st _ _ Hok) in Hw as [Hl' Hi']. congruence.
Qed.

(** [stopAutoRefresh]: no poll is left, and nothing else changes. *)
Lemma stopAutoRefresh_polls st :
  timers_ok st -> polls (snd (stopAutoRefresh st)) = ∅.
Proof.
  intros Hok. apply map_empty. intros i.
  destruct (polls _ !! i) as [tm|] eqn:Hp; [|done].
  apply polls_lookup in Hp as [Hl Hi].
  change (timers (host (snd (stopAutoRefresh st)))) with (without_poll st) in Hl.
  apply (without_poll_lookup st _ _ Hok) in Hl as [_ Hl]. congruence.
Qed.

Lemma stopAutoRefresh_idle st :
  timers_ok st -> polls st = ∅ -> stopAutoRefresh st = (Normal, st).
Proof.
  intros Hok Hnone. unfold stopAutoRefresh, modify. f_equal.
  destruct (refreshInterval (globals st)) as [[|old]|] eqn:Hr; simpl; try done.
  unfold clear_timer, upd_host, set_timers.
  rewrite delete_id; [by destruct st as [g p []]|].
  destruct (timers (host st) !! S old) as [tm|] eqn:Hl; [|done].
  assert (polls st !! S old = Some tm) as Hp.
  { apply polls_lookup. split; [done|]. by apply (ok_interval st Hok _ _ Hl). }
  rewrite Hnone in Hp. done.
Qed.

End Polls.

Section Debounce.

Lemma without_suggest_lookup st i tm :
  timers_ok st ->
  without_suggest st !! i = Some tm <->
  timers (host st) !! i = Some tm /\ is_interval tm = true.
Proof.
  intros Hok. unfold without_suggest.
  destruct (suggestTimer (globals st)) as [sid|] eqn:Hs; simpl.
  - rewrite lookup_delete_Some. split.
    + intros [Hne Hl]. split; [done|].
      destruct (is_interval tm) eqn:Hi; [done|].
      apply (ok_timeout st Hok _ _ Hl) in Hi. congruence.
    + intros [Hl Hi]. split; [|done]. intros <-.
      assert (is_interval tm = false) by by apply (ok_timeout st Hok _ _ Hl).
      congruence.
  - split; [|by intros [? _]].
    intros Hl. split; [done|]. destruct (is_interval tm) eqn:Hi; [done|].
    apply (ok_timeout st Hok _ _ Hl) in Hi. congruence.
Qed.

Lemma debounced_state delay st :
  let st' := snd (debounce SuggestTask delay st) in
  timers (host st')
    = <[next_timer (host st) := mkTimer (now (host st) + delay) None SuggestTask]>
        (without_suggest st) /\
  next_timer (host st') = S (next_timer (host st)) /\
  suggestTimer (globals st') = Some (next_timer (host st)) /\
  refreshInterval (globals st') = refreshInterval (globals st) /\
  page st' = page st /\
  effects (host st') = effects (host st) /\
  now (host st') = now (host st) /\
  wired (host st') = wired (host st) /\
  inflight (host st') = inflight (host st) /\
  next_request (host st') = next_request (host st).
Proof.
  unfold debounce, without_suggest, modify. simpl.
  by destruct (suggestTimer _).
Qed.

Lemma debounced_ok delay : stable timers_ok (debounce SuggestTask delay).
Proof.
  intros st Hok.
  destruct (debounced_state delay st) as (Ht & Hn & Hs & Hr & _).
  pose proof (ok_next st Hok) as Hpos.
  constructor; rewrite ?Ht, ?Hn, ?Hr, ?Hs.
  - lia.
  - intros i tm [[<- _]|[Hne Hl]]%lookup_insert_Some; [lia|].
    apply (without_suggest_lookup st _ _ Hok) in Hl as [Hl _].
    pose proof (ok_live st Hok _ _ Hl). lia.
  - intros i Hi. pose proof (ok_refresh st Hok _ Hi). lia.
  - intros i [= <-]. lia.
  - intros i tm [[<- <-]|[Hne Hl]]%lookup_insert_Some.
    + split; [done|]. intros Hi. pose proof (ok_refresh st Hok _ Hi). lia.
    + apply (without_suggest_lookup st _ _ Hok) in Hl as [Hl _].
      apply (ok_interval st Hok _ _ Hl).
  - intros i tm [[<- <-]|[Hne Hl]]%lookup_insert_Some; [done|].
    apply (without_suggest_lookup st _ _ Hok) in Hl as [_ Hl]. rewrite Hl.
    split; [done|]. intros [= ?]. done.
  - intros i tm [[<- <-]|[Hne Hl]]%lookup_insert_Some; [done|].
    apply (without_suggest_lookup st _ _ Hok) in Hl as [Hl Hi]. congruence.
Qed.

(** After an input event the pending debounced calls are the new one
    alone, due [delay] ms later; the refresh poll is not disturbed. *)
Lemma debounced_pending delay st :
  timers_ok st ->
  pending_suggests (snd (debounce SuggestTask delay st))
    = {[next_timer (host st) := mkTimer (now (host st) + delay) None SuggestTask]}.
Proof.
  intros Hok. destruct (debounced_state delay st) as (Ht & _).
  apply map_eq. intros i. apply option_eq. intros tm.
  rewrite pending_lookup, Ht, lookup_singleton_Some, lookup_insert_Some.
  split.
  - intros [[[<- <-]|[Hne Hl]] Hi]; [done|].
    apply (without_suggest_lookup st _ _ Hok) in Hl as [_ Hl]. congruence.
  - intros [<- <-]. split; [by left | done].
Qed.

Lemma debounced_polls delay st :
  timers_ok st -> polls (snd (debounce SuggestTask delay st)) = polls st.
Proof.
  intros Hok. destruct (debounced_state delay st) as (Ht & _).
  apply map_eq. intros i. apply option_eq. intros tm.
  rewrite !polls_lookup, Ht, lookup_insert_Some. split.
  - intros [[[<- <-]|[Hne Hl]] Hi]; [done|].
    by apply (without_suggest_lookup st _ _ Hok) in Hl.
  - intros [Hl Hi]. split; [|done]. right.
    pose proof (ok_live st Hok _ _ Hl).
    split; [lia|]. by apply (without_suggest_lookup st _ _ Hok).
Qed.

End Debounce.

(* ================================================================== *)
(** * The invariant along every run *)

Section Invariant.

Lemma timers_ok_effect e st : timers_ok st -> timers_ok (upd_host (add_effect e) st).
Proof. apply timers_ok_ext. by destruct st as [g p []]. Qed.

Ltac ok_leaf :=
  lazymatch goal with
  | |- stable _ (modify _) =>
      apply stable_modify; intros [? ? []];
      apply timers_ok_ext; reflexivity
  | |- forall _ _, timers_ok _ -> timers_ok _ => apply timers_ok_effect
  | |- _ => idtac
  end.

Ltac ok_auto := repeat stable_step; ok_leaf.

Lemma searchStock_resume_ok symbol o : stable timers_ok (searchStock_resume symbol o).
Proof.
  unfold searchStock_resume, searchStock_settle.
  destruct o as [| |[] data]; ok_auto.
  - apply keeps_stable, keeps_displayStockInfo.
  - apply keeps_stable, keeps_loadNews.
  - apply startAutoRefresh_ok.
Qed.

(** Firing a timer: a timeout leaves the table, an interval is rearmed
    under the same handle. *)
Lemma fire_ok st id tm :
  timers_ok st ->
  timers (host st) !! id = Some tm ->
  timers_ok (upd_host (fun h => set_timers (next_timer h)
    match period tm with
    | None => delete id (timers (host st))
    | Some p => <[id := mkTimer (now (host st) + p) (Some p) (task tm)]> (timers (host st))
    end h) st).
Proof.
  intros Hok Hl. destruct Hok as [H1 H2 H3 H4 H5 H6 H7].
  destruct (period tm) as [p|] eqn:Hp.
  - assert (Hi : is_interval tm = true) by (unfold is_interval; by rewrite Hp).
    constructor; simpl; try done.
    + intros i x [[<- _]|[_ Hx]]%lookup_insert_Some; eauto.
    + intros i x [[<- <-]|[_ Hx]]%lookup_insert_Some; [|eauto].
      split; [|done]. intros _. by apply (H5 _ _ Hl).
    + intros i x [[<- <-]|[_ Hx]]%lookup_insert_Some; [|eauto].
      split; [done|]. intros Hs. apply (H6 _ _ Hl) in Hs. congruence.
    + intros i x [[<- <-]|[_ Hx]]%lookup_insert_Some; [done|eauto].
  - constructor; simpl; try done.
    + intros i x [_ Hx]%lookup_delete_Some. eauto.
    + intros i x [_ Hx]%lookup_delete_Some. eauto.
    + intros i x [_ Hx]%lookup_delete_Some. eauto.
    + intros i x [_ Hx]%lookup_delete_Some. eauto.
Qed.

Lemma result_state (r : Completion * State) c st' :
  Some r = Some (c, st') -> st' = snd r.
Proof. by intros [= ->]. Qed.

Lemma handle_ok ev st c st' :
  timers_ok st -> handle ev st = Some (c, st') -> timers_ok st'.
Proof.
  intros Hok. destruct ev as [|text|k| |i| | |id|rid o]; unfold handle.
  - destruct (wired (host st)); [done|]. intros ->%result_state.
    revert Hok. apply keeps_stable. intros ts. stable_auto.
    + apply keeps_loadUserProfile.
    + apply keeps_updateProfileDisplay.
  - destruct (wired (host st)); [|done]. intros ->%result_state.
    apply debounced_ok. revert Hok. apply timers_ok_ext. by destruct st.
  - destruct (wired (host st)); [|done]. intros ->%result_state.
    revert Hok. apply keeps_stable, keeps_on_keydown.
  - destruct (_ && _); [|done]. intros ->%result_state.
    revert Hok. apply keeps_stable. unfold document_click_outside.
    intros ts. stable_auto;
      first [apply keeps_renderSuggestions | apply keeps_searchStock].
  - destruct (_ && _); [|done]. intros ->%result_state.
    revert Hok. apply keeps_stable. unfold document_click_outside.
    intros ts. stable_auto; [apply keeps_pickSuggestion|].
    intros s <-. destruct (suggestions (page s)); [|done].
    apply (keeps_timer_state _ s), keeps_renderSuggestions.
  - destruct (wired (host st)); [|done]. intros ->%result_state.
    revert Hok. apply keeps_stable, keeps_renderSuggestions.
  - destruct (_ && _); [|done]. intros ->%result_state.
    revert Hok. apply keeps_stable. unfold document_click_outside.
    intros ts. stable_auto;
      first [apply keeps_getRecommendations | apply keeps_renderSuggestions].
  - destruct (timers (host st) !! id) as [tm|] eqn:Hl; [|done].
    destruct (due tm <=? now (host st)); [|done]. intros ->%result_state.
    apply keeps_stable; [apply keeps_run_task|]. by apply fire_ok.
  - destruct (inflight (host st) !! rid) as [req|]; [|done].
    intros ->%result_state.
    match goal with |- timers_ok (snd (_ ?s)) =>
      assert (Hok' : timers_ok s)
        by (revert Hok; apply timers_ok_ext; by destruct st as [? ? []])
    end.
    revert Hok'. destruct req.
    + apply keeps_stable, keeps_fetchSuggestions_resume.
    + apply searchStock_resume_ok.
    + apply keeps_stable, keeps_loadNews_resume.
    + apply keeps_stable, keeps_getRecommendations_resume.
Qed.

Lemma step_ok te st st' : timers_ok st -> step te st = Some st' -> timers_ok st'.
Proof.
  intros Hok. unfold step, dispatch.
  destruct (now (host st) <=? te.1); [|done].
  destruct (handle _ _) as [[c s]|] eqn:Hh; [|done]. intros [= <-].
  eapply handle_ok; [|exact Hh]. revert Hok. apply timers_ok_ext.
  by destruct st as [? ? []].
Qed.

Lemma run_ok trace : forall st st',
  timers_ok st -> run trace st = Some st' -> timers_ok st'.
Proof.
  induction trace as [|te rest IH]; simpl; intros st st' Hok.
  - by intros [= <-].
  - destruct (step te st) as [s|] eqn:Hs; [|done].
    apply IH. by eapply step_ok.
Qed.

End Invariant.

(** C8. One refresh poll at most.
    - In every state the page can reach from its start, by any sequence of
      events, at most one interval timer is live.
    - [startAutoRefresh] leaves exactly one live poll, the new one: a poll
      that was active before is cancelled.
    - [stopAutoRefresh] cancels the live poll; with no poll active it
      returns the state unchanged. *)
Theorem single_refresh_poll :
  (forall saved trace st,
     run trace (initial saved) = Some st -> (size (polls st) <= 1)%nat) /\
  (forall st symbol, timers_ok st ->
     size (polls (snd (startAutoRefresh symbol st))) = 1%nat /\
     forall old tm, polls st !! old = Some tm ->
       timers (host (snd (startAutoRefresh symbol st))) !! old = None) /\
  (forall st, timers_ok st ->
     polls (snd (stopAutoRefresh st)) = ∅ /\
     (polls st = ∅ -> stopAutoRefresh st = (Normal, st))).
Proof.
  split; [|split].
  - intros saved trace st Hrun. apply polls_at_most_one.
    eapply run_ok; [apply timers_ok_initial | exact Hrun].
  - intros st symbol Hok. split.
    + rewrite startAutoRefresh_polls by done. apply map_size_singleton.
    + intros old tm. by apply startAutoRefresh_cancels.
  - intros st Hok. split.
    + by apply stopAutoRefresh_polls.
    + by apply stopAutoRefresh_idle.
Qed.

Lemma polling_reached : run tcs_trace (initial None) = Some polling.
Proof. vm_compute. reflexivity. Qed.

Lemma single_refresh_poll_witness :
  (size (polls polling) <= 1)%nat /\
  refreshInterval (globals polling) = Some 2%nat /\
  size (polls (snd (startAutoRefresh (str "INFY") polling))) = 1%nat /\
  timers (host (snd (startAutoRefresh (str "INFY") polling))) !! 2%nat = None /\
  stopAutoRefresh (initial None) = (Normal, initial None).
Proof.
  destruct single_refresh_poll as (Hmost & Hstart & Hstop).
  assert (Hok : timers_ok polling)
    by (eapply run_ok; [apply (timers_ok_initial None) | exact polling_reached]).
  split; [exact (Hmost None tcs_trace polling polling_reached)|].
  split; [vm_compute; reflexivity|].
  destruct (Hstart polling (str "INFY") Hok) as [Hone Hgone].
  split; [exact Hone|].
  split.
  - apply (Hgone 2%nat (mkTimer 30100 (Some 30000) (RefreshTask (str "TCS")))).
    vm_compute. reflexivity.
  - apply (Hstop (initial None) (timers_ok_initial None)). reflexivity.
Defined.

(* ================================================================== *)
(** * Debounced typing *)

Section Typing.

Lemma keeps_effects_render items st :
  fetch_calls (snd (renderSuggestions items st)) = fetch_calls st.
Proof.
  unfold renderSuggestions, and_then, modify, throw. simpl.
  destruct items as [|s r]; [done|]. by destruct (forallb _ _).
Qed.

Lemma fetch_calls_async body st :
  fetch_calls (snd (async body st)) = fetch_calls (snd (body st)).
Proof. unfold async. by destruct (body st) as [[|e] s]. Qed.

Lemma fetchSuggestions_calls q st :
  fetch_calls (snd (fetchSuggestions q st)) = q :: fetch_calls st.
Proof.
  unfold fetchSuggestions. rewrite fetch_calls_async.
  unfold and_then at 1. unfold modify at 1.
  set (s := upd_host (add_effect (CallFetchSuggestions q)) st).
  change (q :: fetch_calls st) with (fetch_calls s).
  destruct (bool_decide (q = []) || (length q <? 2)%nat).
  - apply keeps_effects_render.
  - unfold try_catch, fetchSuggestions_catch.
    destruct (well_formed_utf16 q); [done|].
    unfold throw, and_then, console, modify.
    by rewrite keeps_effects_render.
Qed.

Lemma renderSuggestions_inflight items st :
  inflight (host (snd (renderSuggestions items st))) = inflight (host st).
Proof.
  unfold renderSuggestions, and_then, modify, throw. simpl.
  destruct items as [|s r]; [done|]. by destruct (forallb _ _).
Qed.

Lemma fetchSuggestions_inflight q st :
  inflight (host (snd (fetchSuggestions q st)))
  = if sends_request q
    then <[next_request (host st) := ReqSuggest q]> (inflight (host st))
    else inflight (host st).
Proof.
  unfold fetchSuggestions, sends_request, async.
  unfold and_then at 1. unfold modify at 1.
  set (s := upd_host (add_effect (CallFetchSuggestions q)) st).
  destruct (bool_decide (q = []) || (length q <? 2)%nat); simpl.
  - pose proof (renderSuggestions_inflight [] s) as Hr.
    by destruct (renderSuggestions [] s) as [[|e] s'].
  - unfold try_catch, fetchSuggestions_catch.
    destruct (well_formed_utf16 q); [done|].
    unfold throw, and_then, console, modify.
    match goal with |- context [renderSuggestions [] ?s0] =>
      pose proof (renderSuggestions_inflight [] s0) as Hr;
      by destruct (renderSuggestions [] s0) as [[|e] s'] end.
Qed.

(** One keystroke. *)
Lemma input_step st t text :
  timers_ok st -> wired (host st) = true -> now (host st) <= t ->
  exists st',
    step (t, InputEvent text) st = Some st' /\
    timers_ok st' /\ wired (host st') = true /\ now (host st') = t /\
    effects (host st') = effects (host st) /\
    stockSearch (page st') = text /\
    pending_suggests st'
      = {[next_timer (host st) := mkTimer (t + 250) None SuggestTask]} /\
    inflight (host st') = inflight (host st) /\
    next_request (host st') = next_request (host st).
Proof.
  intros Hok Hw Hnow. unfold step, dispatch. simpl.
  destruct (Z.leb_spec (now (host st)) t) as [_|]; [|lia].
  unfold handle. simpl. rewrite Hw. simpl.
  set (s := upd_page (set_stockSearch text) (upd_host (set_now t) st)).
  assert (Hs : timers_ok s)
    by (revert Hok; apply timers_ok_ext; by destruct st as [? ? []]).
  destruct (debounced_state 250 s)
    as (_ & _ & _ & _ & Hp & He & Hn & Hwd & Hfl & Hnr).
  exists (snd (debounce SuggestTask 250 s)).
  split; [done|]. split; [by apply debounced_ok|].
  split; [by rewrite Hwd|]. split; [by rewrite Hn|].
  split; [by rewrite He|]. split; [by rewrite Hp|].
  split; [by rewrite debounced_pending|].
  split; [by rewrite Hfl | by rewrite Hnr].
Qed.

(** A timer cannot fire before it is due. *)
Lemma not_due st id tm u :
  timers (host st) !! id = Some tm -> u < due tm ->
  step (u, TimerFires id) st = None.
Proof.
  intros Hl Hu. unfold step, dispatch. simpl.
  destruct (now (host st) <=? u); [|done].
  unfold handle. simpl. rewrite Hl.
  destruct (Z.leb_spec (due tm) u) as [|_]; [lia|done].
Qed.

(** The pending call, when it is the only one and it is due. *)
Lemma due_fires st id t u :
  now (host st) <= u -> t <= u ->
  pending_suggests st = {[id := mkTimer t None SuggestTask]} ->
  exists st',
    step (u, TimerFires id) st = Some st' /\
    fetch_calls st' = trim (stockSearch (page st)) :: fetch_calls st /\
    pending_suggests st' = ∅ /\
    inflight (host st')
    = if sends_request (trim (stockSearch (page st)))
      then <[next_request (host st) := ReqSuggest (trim (stockSearch (page st)))]>
             (inflight (host st))
      else inflight (host st).
Proof.
  intros Hnow Hdue Hp.
  assert (Hl : timers (host st) !! id = Some (mkTimer t None SuggestTask)).
  { apply (proj1 (pending_lookup st id _)). rewrite Hp. apply lookup_singleton_eq. }
  unfold step, dispatch. simpl.
  destruct (Z.leb_spec (now (host st)) u) as [_|]; [|lia].
  unfold handle. simpl. rewrite Hl. simpl.
  destruct (Z.leb_spec t u) as [_|]; [|lia]. simpl.
  eexists. split; [reflexivity|]. split; [|split].
  - by rewrite fetchSuggestions_calls.
  - unfold pending_suggests.
    match goal with |- context [fetchSuggestions ?q ?s] =>
      pose proof (keeps_timer_state _ s (keeps_fetchSuggestions q)) as Hk end.
    unfold timer_state in Hk. injection Hk as _ Hk _ _. rewrite Hk. simpl.
    rewrite map_filter_delete. fold (pending_suggests st). rewrite Hp.
    apply delete_singleton_eq.
  - by rewrite fetchSuggestions_inflight.
Qed.

Lemma last_cons {A} (l : list A) : forall a d, List.last (a :: l) d = List.last l a.
Proof.
  induction l as [|b l IH]; [done|]. intros a d.
  change (List.last (a :: b :: l) d) with (List.last (b :: l) d).
  by rewrite !IH.
Qed.

(** The burst as a whole: nothing is fetched while it lasts, and it
    leaves one pending call, due 250 ms after its last keystroke. *)
Lemma burst_run rest : forall st k,
  timers_ok st -> wired (host st) = true -> now (host st) <= k.1 ->
  spaced k.1 rest ->
  exists st1 id,
    run (keystrokes (k :: rest)) st = Some st1 /\
    timers_ok st1 /\
    now (host st1) = (List.last rest k).1 /\
    effects (host st1) = effects (host st) /\
    stockSearch (page st1) = (List.last rest k).2 /\
    pending_suggests st1
      = {[id := mkTimer ((List.last rest k).1 + 250) None SuggestTask]} /\
    inflight (host st1) = inflight (host st) /\
    next_request (host st1) = next_request (host st).
Proof.
  induction rest as [|k' rest IH]; intros st k Hok Hw Hnow Hsp.
  - destruct (input_step st k.1 k.2 Hok Hw Hnow)
      as (st' & Hstep & Hok' & _ & Hn & He & Hv & Hp & Hfl & Hnr).
    exists st', (next_timer (host st)). simpl. rewrite Hstep. done.
  - destruct Hsp as [Hgap Hsp].
    destruct (input_step st k.1 k.2 Hok Hw Hnow)
      as (st' & Hstep & Hok' & Hw' & Hn & He & _ & _ & Hfl & Hnr).
    destruct (IH st' k' Hok' Hw')
      as (st1 & id & Hrun & Hok1 & Hn1 & He1 & Hv1 & Hp1 & Hfl1 & Hnr1);
      [lia | done |].
    exists st1, id.
    change (run (keystrokes (k :: k' :: rest)) st)
      with (match step (k.1, InputEvent k.2) st with
            | Some s => run (keystrokes (k' :: rest)) s
            | None => None
            end).
    rewrite Hstep, Hrun.
    rewrite (last_cons rest k' k), He1, He, Hfl1, Hfl, Hnr1, Hnr. done.
Qed.

Lemma spaced_prefix pre : forall prev k more,
  spaced prev (pre ++ k :: more) -> spaced prev (pre ++ [k]).
Proof.
  induction pre as [|p pre IH]; simpl; intros prev k more.
  - tauto.
  - intros [Hg Hs]. split; [done|]. by eapply IH.
Qed.

Lemma spaced_next pre : forall prev k k' more,
  spaced prev (pre ++ k :: k' :: more) -> k.1 <= k'.1 < k.1 + 250.
Proof.
  induction pre as [|p pre IH]; simpl; intros prev k k' more.
  - tauto.
  - intros [_ Hs]. by eapply IH.
Qed.

End Typing.

(** ** Events between the burst and the call *)

Section Logging.

Variable P : State -> Prop.

Hypothesis P_log : forall e st,
  is_fetch_call e = false -> P st -> P (upd_host (add_effect e) st).

Lemma logged_async body : stable P body -> stable P (async body).
Proof.
  intros Hb st H. unfold async. specialize (Hb st H).
  destruct (body st) as [[|e] st1]; simpl in *; [done|]. by apply P_log.
Qed.

Lemma logged_console e : stable P (console e).
Proof. intros st H. by apply P_log. Qed.

Lemma logged_alert v : stable P (alert v).
Proof. intros st H. by apply P_log. Qed.

End Logging.

Section Apart.

Lemma typing_log v e st :
  is_fetch_call e = false -> typing_view st = v ->
  typing_view (upd_host (add_effect e) st) = v.
Proof. intros He <-. destruct e; [done|..]; by destruct st as [? ? []]. Qed.

Lemma calls_log v e st :
  is_fetch_call e = false -> fetch_calls st = v ->
  fetch_calls (upd_host (add_effect e) st) = v.
Proof. intros He <-. destruct e; [done|..]; by destruct st as [? ? []]. Qed.

Lemma apart_view m st : apart m -> typing_view (snd (m st)) = typing_view st.
Proof. intros H. by apply (H (typing_view st) st). Qed.

Lemma silent_calls m st : silent m -> fetch_calls (snd (m st)) = fetch_calls st.
Proof. intros H. by apply (H (fetch_calls st) st). Qed.

Lemma apart_silent m : apart m -> silent m.
Proof.
  intros H v st <-. exact (f_equal snd (apart_view m st H)).
Qed.

Lemma apart_field m st : apart m -> stockSearch (page (snd (m st))) = stockSearch (page st).
Proof. intros H. exact (f_equal fst (apart_view m st H)). Qed.

End Apart.

(** Closing an [apart] or [silent] goal: the combinators, with the three
    that log. *)
Ltac logged_step :=
  lazymatch goal with
  | |- stable _ (and_then _ _) => apply stable_and_then
  | |- stable _ (try_catch _ _) => apply stable_try_catch; [|intros ?]
  | |- stable _ (try_finally _ _) => apply stable_try_finally
  | |- stable _ (async _) =>
      apply logged_async; [first [apply typing_log | apply calls_log]|]
  | |- stable _ (then_listener _ _) => apply stable_then_listener
  | |- stable _ (if _ then _ else _) => apply stable_if
  | |- stable _ skip => apply stable_skip
  | |- stable _ (throw _) => apply stable_throw
  | |- stable _ (console _) =>
      apply logged_console; first [apply typing_log | apply calls_log]
  | |- stable _ (alert _) =>
      apply logged_alert; first [apply typing_log | apply calls_log]
  end.

Ltac logged_auto := repeat logged_step; keeps_leaf.

Ltac apart_auto := intros ?; logged_auto.

Section Handlers.

Lemma apart_renderSuggestions items : apart (renderSuggestions items).
Proof. unfold renderSuggestions. destruct items as [|s r]; apart_auto. Qed.

Lemma apart_send r : apart (send r).
Proof. intros v st <-. by destruct st as [? ? []]. Qed.

Lemma apart_fetchSuggestions_resume o : apart (fetchSuggestions_resume o).
Proof.
  unfold fetchSuggestions_resume, fetchSuggestions_catch.
  destruct o; apart_auto; apply apart_renderSuggestions.
Qed.

Lemma apart_drawPriceChart h : apart (drawPriceChart h).
Proof.
  intros v st <-. unfold drawPriceChart.
  destruct (has_canvas (host st)); [|done].
  destruct (has_Chart (host st)); simpl; [|by destruct st as [? ? []]].
  destruct h as [| | | | |l|]; try done.
  destruct (forallb _ l); [|done]. by destruct st.
Qed.

Lemma apart_displayStockInfo data : apart (displayStockInfo data).
Proof. unfold displayStockInfo. apart_auto. apply apart_drawPriceChart. Qed.

Lemma apart_append_news items : apart (append_news items).
Proof. induction items as [|item rest IH]; simpl; apart_auto. apply IH. Qed.

Lemma apart_loadNews symbol : apart (loadNews symbol).
Proof. unfold loadNews. apart_auto. apply apart_send. Qed.

Lemma apart_loadNews_resume o : apart (loadNews_resume o).
Proof.
  unfold loadNews_resume. destruct o as [| |ok news]; apart_auto.
  destruct news as [| | | | |[|item rest]|]; logged_auto.
  apply (apart_append_news (item :: rest)).
Qed.

Lemma apart_startAutoRefresh symbol : apart (startAutoRefresh symbol).
Proof.
  intros v st <-. unfold startAutoRefresh, modify. simpl.
  destruct (handle_truthy _); [|by destruct st as [? ? []]].
  destruct (refreshInterval _); by destruct st as [? ? []].
Qed.

Lemma apart_searchStock : apart searchStock.
Proof.
  unfold searchStock. intros v. apply logged_async; [apply typing_log|].
  intros st <-.
  destruct (bool_decide (toUpperCase (trim (stockSearch (page st))) = [])); [done|].
  match goal with |- typing_view (snd (?m st)) = _ =>
    apply (apart_view m st) end.
  unfold searchStock_settle. apart_auto. apply apart_send.
Qed.

Lemma apart_searchStock_resume symbol o : apart (searchStock_resume symbol o).
Proof.
  unfold searchStock_resume, searchStock_settle.
  destruct o as [| |[] data]; apart_auto.
  - apply apart_displayStockInfo.
  - apply apart_loadNews.
  - apply apart_startAutoRefresh.
Qed.

Lemma apart_navigateSuggestions d : apart (navigateSuggestions d).
Proof.
  intros v st <-. unfold navigateSuggestions.
  destruct (suggestions (page st)) as [|r rs]; [done|]. cbv zeta.
  destruct (at_index _ _); by destruct st.
Qed.

Lemma apart_append_cards recs : apart (append_cards recs).
Proof.
  induction recs as [|rec rest IH]; simpl; [apart_auto|].
  destruct (rec_card rec); apart_auto. apply IH.
Qed.

Lemma apart_displayRecommendations recs : apart (displayRecommendations recs).
Proof.
  unfold displayRecommendations. apart_auto.
  destruct recs as [| | | | |[|rec rest]|]; logged_auto.
  apply (apart_append_cards (rec :: rest)).
Qed.

Lemma apart_getRecommendations : apart getRecommendations.
Proof.
  unfold getRecommendations. apart_auto.
  intros st <-. apply (apart_view _ st), apart_send.
Qed.

Lemma apart_getRecommendations_resume o : apart (getRecommendations_resume o).
Proof.
  unfold getRecommendations_resume, getRecommendations_settle.
  destruct o as [| |ok recs]; apart_auto.
  apply apart_displayRecommendations.
Qed.

Lemma apart_loadUserProfile : apart loadUserProfile.
Proof.
  intros v st <-. unfold loadUserProfile.
  destruct (saved_truthy _) as [saved|]; [|done].
  destruct (JSON_parse saved); [|done]. by destruct st.
Qed.

Lemma apart_updateProfileDisplay : apart updateProfileDisplay.
Proof.
  intros v st <-. unfold updateProfileDisplay.
  destruct (get_prop _ _) as [b|]; [|done].
  cbv zeta. destruct (negb (localizable b)); [done|].
  repeat (destruct (negb (stringable _)); [by destruct st|]). by destruct st.
Qed.

(** A pick assigns to the field; it does not fetch suggestions. *)
Lemma silent_pickSuggestion idx : silent (pickSuggestion idx).
Proof.
  intros v st <-. unfold pickSuggestion.
  destruct ((idx <? 0) || _); [done|].
  destruct (lastSuggestions (globals st) !! Z.to_nat idx) as [s|]; [|done].
  destruct (get_prop s "symbol") as [sym|]; [|done].
  match goal with |- fetch_calls (snd (?m st)) = _ =>
    apply (silent_calls m st) end.
  intros v. logged_auto.
  - apply apart_silent, apart_renderSuggestions.
  - apply apart_silent, apart_searchStock.
Qed.

Lemma silent_on_keydown k : silent (on_keydown k).
Proof.
  destruct k; simpl.
  - intros v st <-. destruct (0 <=? activeIndex (globals st)).
    + apply (silent_calls _ st), silent_pickSuggestion.
    + match goal with |- fetch_calls (snd (?m st)) = _ =>
        apply (silent_calls m st) end.
      intros v. logged_auto.
      * apply apart_silent, apart_renderSuggestions.
      * apply apart_silent, apart_searchStock.
  - apply apart_silent, apart_navigateSuggestions.
  - apply apart_silent, apart_navigateSuggestions.
  - apply apart_silent, apart_renderSuggestions.
  - by intros v st.
Qed.

(** A key other than Enter leaves the field as it is, too. *)
Lemma apart_on_keydown k : k <> Enter -> apart (on_keydown k).
Proof.
  destruct k; simpl; [done|..]; intros _.
  - apply apart_navigateSuggestions.
  - apply apart_navigateSuggestions.
  - apply apart_renderSuggestions.
  - by intros v st.
Qed.

(** The tick of a poll assigns to the field and searches. *)
Lemma silent_refresh symbol : silent (run_task (RefreshTask symbol)).
Proof. simpl. intros v. logged_auto. apply apart_silent, apart_searchStock. Qed.

End Handlers.

Section Refresh.

Lemma polls_refresh_ext st st' :
  timers (host st') = timers (host st) -> polls_refresh st -> polls_refresh st'.
Proof. unfold polls_refresh. by intros ->. Qed.

Lemma polls_refresh_initial saved : polls_refresh (initial saved).
Proof. intros id tm Hl. simpl in Hl. by rewrite lookup_empty in Hl. Qed.

Lemma keeps_timers m st : keeps m -> timers (host (snd (m st))) = timers (host st).
Proof.
  intros H. pose proof (keeps_timer_state m st H) as Hk.
  exact (f_equal (fun x => x.1.1.2) Hk).
Qed.

Lemma keeps_refresh m : keeps m -> stable polls_refresh m.
Proof.
  intros H st Hok. eapply polls_refresh_ext; [|exact Hok]. by apply keeps_timers.
Qed.

Lemma keeps_pending m st :
  keeps m -> pending_suggests (snd (m st)) = pending_suggests st.
Proof. intros H. unfold pending_suggests. by rewrite keeps_timers. Qed.

Lemma without_poll_keeps st i tm :
  timers_ok st ->
  timers (host st) !! i = Some tm -> is_interval tm = false ->
  without_poll st !! i = Some tm.
Proof.
  intros Hok Hl Hi. unfold without_poll.
  destruct (handle_truthy _); [|done].
  destruct (refreshInterval (globals st)) as [old|] eqn:Hr; [|done]. simpl.
  apply lookup_delete_Some. split; [|done]. intros <-.
  pose proof (proj2 (ok_interval st Hok _ _ Hl) Hr). congruence.
Qed.

Lemma startAutoRefresh_pending symbol st :
  timers_ok st ->
  pending_suggests (snd (startAutoRefresh symbol st)) = pending_suggests st.
Proof.
  intros Hok. destruct (startAutoRefresh_state symbol st) as (Ht & _).
  apply map_eq. intros i. apply option_eq. intros tm.
  rewrite !pending_lookup, Ht, lookup_insert_Some. split.
  - intros [[[<- <-]|[Hne Hl]] Hi]; [done|].
    by apply (without_poll_lookup st _ _ Hok) in Hl.
  - intros [Hl Hi]. split; [|done]. right.
    pose proof (ok_live st Hok _ _ Hl).
    split; [lia|]. by apply without_poll_keeps.
Qed.

Lemma startAutoRefresh_refresh symbol st :
  timers_ok st -> polls_refresh (snd (startAutoRefresh symbol st)).
Proof.
  intros Hok id tm. destruct (startAutoRefresh_state symbol st) as (Ht & _).
  rewrite Ht. intros [[_ <-]|[_ Hl]]%lookup_insert_Some Hi; [by exists symbol|].
  apply (without_poll_lookup st _ _ Hok) in Hl as [_ Hl]. congruence.
Qed.

Lemma debounced_refresh delay st :
  timers_ok st -> polls_refresh st ->
  polls_refresh (snd (debounce SuggestTask delay st)).
Proof.
  intros Hok Hr id tm. destruct (debounced_state delay st) as (Ht & _).
  rewrite Ht. intros [[_ <-]|[_ Hl]]%lookup_insert_Some Hi; [done|].
  apply (without_suggest_lookup st _ _ Hok) in Hl as [Hl _]. by apply (Hr id).
Qed.

Lemma timers_view_ext v st st' :
  timer_state st' = timer_state st -> timers_view v st -> timers_view v st'.
Proof.
  intros Hts (Hok & Hr & Hp).
  assert (Ht : timers (host st') = timers (host st))
    by exact (f_equal (fun x => x.1.1.2) Hts).
  split; [by eapply timers_ok_ext|].
  split; [by eapply polls_refresh_ext|].
  unfold pending_suggests. by rewrite Ht.
Qed.

Lemma keeps_view v m : keeps m -> stable (timers_view v) m.
Proof.
  intros H st Hv. eapply timers_view_ext; [|exact Hv]. by apply keeps_timer_state.
Qed.

Lemma searchStock_resume_view v symbol o :
  stable (timers_view v) (searchStock_resume symbol o).
Proof.
  assert (Heff : forall e st, timers_view v st -> timers_view v (upd_host (add_effect e) st)).
  { intros e st. apply timers_view_ext. by destruct st as [? ? []]. }
  unfold searchStock_resume, searchStock_settle.
  destruct o as [| |[] data]; repeat stable_step; try exact Heff;
    try (apply stable_modify; intros [? ? []]; apply timers_view_ext; reflexivity).
  - apply keeps_view, keeps_displayStockInfo.
  - apply keeps_view, keeps_loadNews.
  - intros st (Hok & Hr & Hp). split; [by apply startAutoRefresh_ok|].
    split; [by apply startAutoRefresh_refresh|].
    by rewrite startAutoRefresh_pending.
Qed.

(** A poll that fires is rearmed under its handle, with its task. *)
Lemma rearmed_view v st id tm p :
  timers_view v st -> timers (host st) !! id = Some tm -> period tm = Some p ->
  timers_view v (upd_host (fun h => set_timers (next_timer h)
    (<[id := mkTimer (now (host st) + p) (Some p) (task tm)]> (timers (host st))) h) st).
Proof.
  intros (Hok & Hr & Hp) Hl Hper.
  assert (Hi : is_interval tm = true) by (unfold is_interval; by rewrite Hper).
  split; [|split].
  - pose proof (fire_ok st id tm Hok Hl) as H. by rewrite Hper in H.
  - intros i x. simpl. intros [[<- <-]|[_ Hx]]%lookup_insert_Some Hix.
    + simpl. by apply (Hr id).
    + by apply (Hr i).
  - rewrite <- Hp. apply map_eq. intros i. apply option_eq. intros x.
    rewrite !pending_lookup. simpl. rewrite lookup_insert_Some. split.
    + intros [[[<- <-]|[_ Hx]] Hix]; [done|done].
    + intros [Hx Hix]. split; [|done]. right. split; [|done].
      intros <-. congruence.
Qed.

End Refresh.

Section Elsewhere.

(** An event that is not a keystroke and fires no pending call keeps the
    invariants and the pending calls, and calls [fetchSuggestions] no
    more. *)
Lemma handle_elsewhere v ev st c st' :
  timers_view v st ->
  match ev with
  | InputEvent _ => False
  | TimerFires j => v !! j = None
  | _ => True
  end ->
  handle ev st = Some (c, st') ->
  timers_view v st' /\ fetch_calls st' = fetch_calls st /\
  (keeps_field ev = true -> stockSearch (page st') = stockSearch (page st)).
Proof.
  intros Hv Hev. destruct ev as [|text|k| |i| | |j|rid o]; unfold handle.
  - destruct (wired (host st)); [done|]. intros ->%result_state.
    assert (Hk : keeps (loadUserProfile ;; updateProfileDisplay ;;
                         modify (upd_host (set_wired true)))).
    { intros ts. stable_auto;
        [apply keeps_loadUserProfile | apply keeps_updateProfileDisplay]. }
    assert (Ha : apart (loadUserProfile ;; updateProfileDisplay ;;
                         modify (upd_host (set_wired true)))).
    { intros w. logged_auto;
        [apply apart_loadUserProfile | apply apart_updateProfileDisplay]. }
    split; [by apply keeps_view|].
    split; [by apply apart_silent | intros _; by apply apart_field].
  - done.
  - destruct (wired (host st)); [|done]. intros ->%result_state.
    split; [apply keeps_view; [apply keeps_on_keydown | done]|].
    split; [apply silent_calls, silent_on_keydown|].
    intros Hk. apply apart_field, apart_on_keydown. by destruct k.
  - destruct (_ && _); [|done]. intros ->%result_state.
    unfold document_click_outside.
    assert (Hk : keeps (then_listener (renderSuggestions [] ;; searchStock)
                                      (renderSuggestions []))).
    { intros ts. stable_auto;
        first [apply keeps_renderSuggestions | apply keeps_searchStock]. }
    assert (Ha : apart (then_listener (renderSuggestions [] ;; searchStock)
                                      (renderSuggestions []))).
    { intros w. logged_auto;
        first [apply apart_renderSuggestions | apply apart_searchStock]. }
    split; [by apply keeps_view|].
    split; [by apply apart_silent | intros _; by apply apart_field].
  - destruct (_ && _); [|done]. intros ->%result_state.
    unfold document_click_outside.
    match goal with |- context [then_listener ?a ?b] =>
      assert (Hk : keeps (then_listener a b));
      [|assert (Hs : silent (then_listener a b))] end.
    { intros ts. stable_auto; [apply keeps_pickSuggestion|].
      intros s <-. destruct (suggestions (page s)); [|done].
      apply (keeps_timer_state _ s), keeps_renderSuggestions. }
    { intros w. logged_auto; [apply silent_pickSuggestion|].
      intros s <-. destruct (suggestions (page s)); [|done].
      apply (silent_calls _ s), apart_silent, apart_renderSuggestions. }
    split; [by apply keeps_view|]. split; [by apply silent_calls | done].
  - destruct (wired (host st)); [|done]. intros ->%result_state.
    unfold document_click_outside.
    split; [apply keeps_view; [apply keeps_renderSuggestions | done]|].
    split; [apply silent_calls, apart_silent, apart_renderSuggestions|].
    intros _. apply apart_field, apart_renderSuggestions.
  - destruct (_ && _); [|done]. intros ->%result_state.
    unfold document_click_outside.
    assert (Hk : keeps (then_listener getRecommendations (renderSuggestions []))).
    { intros ts. stable_auto;
        first [apply keeps_getRecommendations | apply keeps_renderSuggestions]. }
    assert (Ha : apart (then_listener getRecommendations (renderSuggestions []))).
    { intros w. logged_auto;
        first [apply apart_getRecommendations | apply apart_renderSuggestions]. }
    split; [by apply keeps_view|].
    split; [by apply apart_silent | intros _; by apply apart_field].
  - destruct (timers (host st) !! j) as [tmj|] eqn:Hl; [|done].
    destruct (due tmj <=? now (host st)); [|done]. intros ->%result_state.
    destruct Hv as (Hok & Hr & Hp).
    destruct (period tmj) as [p|] eqn:Hper; cycle 1.
    { exfalso.
      assert (Hj : pending_suggests st !! j = Some tmj).
      { apply pending_lookup. split; [done|]. unfold is_interval. by rewrite Hper. }
      rewrite Hp in Hj. congruence. }
    destruct (Hr j tmj Hl) as [symbol Htask].
    { unfold is_interval. by rewrite Hper. }
    rewrite Htask.
    split; [|split; [|done]].
    + apply keeps_view; [apply keeps_run_task|].
      rewrite <- Htask. apply rearmed_view; done.
    + by rewrite (silent_calls _ _ (silent_refresh symbol)).
  - destruct (inflight (host st) !! rid) as [req|]; [|done].
    intros ->%result_state.
    match goal with |- context [snd (_ ?s0)] => set (s := s0) end.
    assert (Hv' : timers_view v s)
      by (revert Hv; apply timers_view_ext; by destruct st as [? ? []]).
    assert (Hc : fetch_calls s = fetch_calls st) by reflexivity.
    assert (Hf : stockSearch (page s) = stockSearch (page st)) by reflexivity.
    clearbody s. rewrite <- Hc, <- Hf.
    destruct req as [q|symbol|symbol|profile].
    + split; [apply keeps_view; [apply keeps_fetchSuggestions_resume | done]|].
      split; [apply silent_calls, apart_silent, apart_fetchSuggestions_resume|].
      intros _. apply apart_field, apart_fetchSuggestions_resume.
    + split; [by apply searchStock_resume_view|].
      split; [apply silent_calls, apart_silent, apart_searchStock_resume|].
      intros _. apply apart_field, apart_searchStock_resume.
    + split; [apply keeps_view; [apply keeps_loadNews_resume | done]|].
      split; [apply silent_calls, apart_silent, apart_loadNews_resume|].
      intros _. apply apart_field, apart_loadNews_resume.
    + split; [apply keeps_view; [apply keeps_getRecommendations_resume | done]|].
      split; [apply silent_calls, apart_silent, apart_getRecommendations_resume|].
      intros _. apply apart_field, apart_getRecommendations_resume.
Qed.

Lemma step_elsewhere id tm te st st' :
  timers_view {[id := tm]} st -> elsewhere id te.2 = true ->
  step te st = Some st' ->
  timers_view {[id := tm]} st' /\ fetch_calls st' = fetch_calls st /\
  (keeps_field te.2 = true -> stockSearch (page st') = stockSearch (page st)).
Proof.
  intros Hv Hev. unfold step, dispatch.
  destruct (now (host st) <=? te.1); [|done].
  destruct (handle _ _) as [[c s]|] eqn:Hh; [|done]. intros [= <-].
  assert (Hv0 : timers_view {[id := tm]} (upd_host (set_now te.1) st))
    by (revert Hv; apply timers_view_ext; by destruct st as [? ? []]).
  assert (Hev' : match te.2 with
                 | InputEvent _ => False
                 | TimerFires j => ({[id := tm]} : gmap nat Timer) !! j = None
                 | _ => True
                 end).
  { destruct te.2 as [|text|k| |i| | |j|rid o]; simpl in *; try done.
    apply negb_true_iff, bool_decide_eq_false in Hev.
    apply lookup_singleton_ne. congruence. }
  destruct (handle_elsewhere _ _ _ _ _ Hv0 Hev' Hh) as (Hv' & Hc & Hf).
  split; [exact Hv'|]. split; [rewrite Hc; by destruct st as [? ? []]|].
  intros Hk. rewrite (Hf Hk). by destruct st as [? ? []].
Qed.

Lemma run_elsewhere id tm mid : forall st st',
  timers_view {[id := tm]} st ->
  Forall (fun te => elsewhere id te.2 = true) mid ->
  run mid st = Some st' ->
  timers_view {[id := tm]} st' /\ fetch_calls st' = fetch_calls st /\
  (Forall (fun te => keeps_field te.2 = true) mid ->
   stockSearch (page st') = stockSearch (page st)).
Proof.
  induction mid as [|te rest IH]; simpl; intros st st' Hv Hall.
  - by intros [= <-].
  - apply Forall_cons in Hall as [Hte Hrest].
    destruct (step te st) as [s|] eqn:Hs; [|done]. intros Hrun.
    destruct (step_elsewhere id tm te st s Hv Hte Hs) as (Hv1 & Hc1 & Hf1).
    destruct (IH s st' Hv1 Hrest Hrun) as (Hv2 & Hc2 & Hf2).
    split; [exact Hv2|]. split; [by rewrite Hc2|].
    intros [Hk Hks]%Forall_cons. by rewrite (Hf2 Hks), (Hf1 Hk).
Qed.

(** The tasks of the polls, along every run. *)
Lemma handle_refresh ev st c st' :
  timers_ok st -> polls_refresh st -> handle ev st = Some (c, st') -> polls_refresh st'.
Proof.
  intros Hok Hr Hh.
  assert (Hv : timers_view (pending_suggests st) st) by done.
  assert (Hgen :
    match ev with
    | InputEvent _ => False
    | TimerFires j => pending_suggests st !! j = None
    | _ => True
    end -> polls_refresh st').
  { intros Hev. by destruct (handle_elsewhere _ _ _ _ _ Hv Hev Hh) as ((_ & ? & _) & _). }
  destruct ev as [|text|k| |i| | |j|rid o]; try by apply Hgen.
  - revert Hh. unfold handle. destruct (wired (host st)); [|done].
    intros ->%result_state. apply debounced_refresh.
    + revert Hok. apply timers_ok_ext. by destruct st.
    + revert Hr. apply polls_refresh_ext. by destruct st.
  - destruct (pending_suggests st !! j) as [tmj|] eqn:Hp; [|by apply Hgen].
    apply pending_lookup in Hp as [Hl Hi].
    revert Hh. unfold handle. rewrite Hl.
    destruct (due tmj <=? now (host st)); [|done]. intros ->%result_state.
    apply keeps_refresh; [apply keeps_run_task|].
    unfold is_interval in Hi. destruct (period tmj); [done|].
    intros i x. simpl. intros [_ Hx]%lookup_delete_Some. by apply (Hr i).
Qed.

Lemma run_refresh trace : forall st st',
  timers_ok st -> polls_refresh st -> run trace st = Some st' -> polls_refresh st'.
Proof.
  induction trace as [|te rest IH]; simpl; intros st st' Hok Hr.
  - by intros [= <-].
  - destruct (step te st) as [s|] eqn:Hs; [|done].
    apply IH; [by eapply step_ok|].
    revert Hs. unfold step, dispatch.
    destruct (now (host st) <=? te.1); [|done].
    destruct (handle _ _) as [[c s']|] eqn:Hh; [|done]. intros [= <-].
    eapply handle_refresh; [| |exact Hh].
    + revert Hok. apply timers_ok_ext. by destruct st as [? ? []].
    + revert Hr. apply polls_refresh_ext. by destruct st as [? ? []].
Qed.

End Elsewhere.

(** C3, as the code has it. Take a burst of keystrokes, each less than
    250 ms after the one before, on a page whose handlers are installed.
    - While the burst lasts [fetchSuggestions] is not called: the call a
      keystroke schedules cannot fire before the next keystroke, which
      cancels it.
    - The burst leaves exactly one pending call, due 250 ms after the last
      keystroke, and the field holding the last text typed; the call
      cannot fire sooner.
    - Whatever happens next, other than a further keystroke or that call
      firing, [fetchSuggestions] is still not called and the call stays
      pending, with its due time; the field keeps the typed text unless a
      row is picked or a refresh poll ticks.
    - When the call fires, [fetchSuggestions] is called once, with the text
      the field holds at that moment after [trim], and no call is left
      pending; a request goes out exactly when [sends_request] holds of
      that query. Fired straight after the burst, the query is the last
      text typed, after [trim]. *)
Theorem debounce_trailing_edge (st : State) (first : Z * jsstring)
    (more : list (Z * jsstring)) :
  timers_ok st -> polls_refresh st -> wired (host st) = true ->
  now (host st) <= first.1 -> spaced first.1 more ->
  let final := List.last more first in
  exists st1 id,
    run (keystrokes (first :: more)) st = Some st1 /\
    fetch_calls st1 = fetch_calls st /\
    stockSearch (page st1) = final.2 /\
    pending_suggests st1 = {[id := mkTimer (final.1 + 250) None SuggestTask]} /\
    (forall u, u < final.1 + 250 -> step (u, TimerFires id) st1 = None) /\
    (forall u, final.1 + 250 <= u ->
       exists st2, step (u, TimerFires id) st1 = Some st2 /\
                   fetch_calls st2 = trim final.2 :: fetch_calls st /\
                   pending_suggests st2 = ∅ /\
                   inflight (host st2)
                   = if sends_request (trim final.2)
                     then <[next_request (host st) := ReqSuggest (trim final.2)]>
                            (inflight (host st))
                     else inflight (host st)) /\
    (forall pre k k' post, first :: more = pre ++ k :: k' :: post ->
       exists s id',
         run (keystrokes (pre ++ [k])) st = Some s /\
         pending_suggests s = {[id' := mkTimer (k.1 + 250) None SuggestTask]} /\
         forall u, u <= k'.1 -> step (u, TimerFires id') s = None) /\
    (forall mid s,
       Forall (fun te => elsewhere id te.2 = true) mid ->
       run mid st1 = Some s ->
       fetch_calls s = fetch_calls st /\
       pending_suggests s = {[id := mkTimer (final.1 + 250) None SuggestTask]} /\
       (Forall (fun te => keeps_field te.2 = true) mid ->
        stockSearch (page s) = final.2) /\
       (forall u, u < final.1 + 250 -> step (u, TimerFires id) s = None) /\
       (forall u, final.1 + 250 <= u -> now (host s) <= u ->
          exists s2, step (u, TimerFires id) s = Some s2 /\
                     fetch_calls s2 = trim (stockSearch (page s)) :: fetch_calls st /\
                     pending_suggests s2 = ∅ /\
                     inflight (host s2)
                     = if sends_request (trim (stockSearch (page s)))
                       then <[next_request (host s)
                                := ReqSuggest (trim (stockSearch (page s)))]>
                              (inflight (host s))
                       else inflight (host s))).
Proof.
  intros Hok Hpr Hw Hnow Hsp final.
  destruct (burst_run more st first Hok Hw Hnow Hsp)
    as (st1 & id & Hrun & Hok1 & Hn1 & He1 & Hv1 & Hp1 & Hfl1 & Hnr1).
  fold final in Hn1, Hv1, Hp1.
  assert (Hl : forall s i t, pending_suggests s = {[i := mkTimer t None SuggestTask]} ->
                 timers (host s) !! i = Some (mkTimer t None SuggestTask)).
  { intros s i t Hp. apply (proj1 (pending_lookup s i _)).
    rewrite Hp. apply lookup_singleton_eq. }
  assert (Hc1 : fetch_calls st1 = fetch_calls st)
    by (unfold fetch_calls; by rewrite He1).
  exists st1, id. split; [exact Hrun|]. split; [exact Hc1|].
  split; [exact Hv1|]. split; [exact Hp1|]. split; [|split; [|split]].
  - intros u Hu. eapply not_due; [by apply Hl|]. simpl. lia.
  - intros u Hu.
    destruct (due_fires st1 id (final.1 + 250) u)
      as (st2 & Hstep & Hc & Hnone & Hsent); [lia | lia | exact Hp1 |].
    exists st2. split; [exact Hstep|].
    split; [by rewrite Hc, Hv1, Hc1|].
    split; [exact Hnone|].
    by rewrite Hsent, Hv1, Hfl1, Hnr1.
  - intros pre k k' post Hsplit.
    assert (Hprefix : exists p pre', pre ++ [k] = p :: pre' /\ now (host st) <= p.1 /\
              spaced p.1 pre' /\ List.last pre' p = k /\ k.1 <= k'.1 < k.1 + 250).
    { destruct pre as [|p pre']; simpl in Hsplit; injection Hsplit as -> ->.
      - exists k, []. simpl in *. repeat split; tauto || lia.
      - exists p, (pre' ++ [k]). split; [done|]. split; [done|].
        split; [by eapply spaced_prefix|].
        split; [apply last_last|]. by eapply spaced_next. }
    destruct Hprefix as (p & pre' & -> & Hp & Hs & Hlast & Hgap).
    destruct (burst_run pre' st p Hok Hw Hp Hs)
      as (s & id' & Hrun' & _ & _ & _ & _ & Hpend & _).
    rewrite Hlast in Hpend.
    exists s, id'. split; [exact Hrun'|]. split; [exact Hpend|].
    intros u Hu. eapply not_due; [by apply Hl|]. simpl. lia.
  - intros mid s Hmid Hs.
    assert (Hview : timers_view {[id := mkTimer (final.1 + 250) None SuggestTask]} st1).
    { split; [exact Hok1|]. split; [|exact Hp1].
      exact (run_refresh _ _ _ Hok Hpr Hrun). }
    destruct (run_elsewhere _ _ mid st1 s Hview Hmid Hs) as ((_ & _ & Hp) & Hc & Hf).
    split; [by rewrite Hc|]. split; [exact Hp|].
    split; [intros Hk; by rewrite (Hf Hk)|]. split.
    + intros u Hu. eapply not_due; [by apply Hl|]. simpl. lia.
    + intros u Hu Hclock.
      destruct (due_fires s id (final.1 + 250) u)
        as (s2 & Hstep & Hcs & Hnone & Hsent); [lia | lia | exact Hp |].
      exists s2. split; [exact Hstep|].
      split; [by rewrite Hcs, Hc, Hc1|]. split; [exact Hnone | exact Hsent].
Qed.

Lemma debounce_trailing_edge_witness :
  exists st1 id s,
    run (keystrokes [(30000, str "t"); (30050, str " ta ")]) polling = Some st1 /\
    fetch_calls st1 = [] /\
    pending_suggests st1 = {[id := mkTimer 30300 None SuggestTask]} /\
    step (30299, TimerFires id) st1 = None /\
    (exists st2, step (30300, TimerFires id) st1 = Some st2 /\
                 fetch_calls st2 = [str "ta"] /\
                 pending_suggests st2 = ∅ /\
                 inflight (host st2) !! 2%nat = Some (ReqSuggest (str "ta"))) /\
    run [(30100, TimerFires 2%nat)] st1 = Some s /\
    stockSearch (page s) = str "TCS" /\
    pending_suggests s = {[id := mkTimer 30300 None SuggestTask]} /\
    exists s2, step (30300, TimerFires id) s = Some s2 /\
               fetch_calls s2 = [str "TCS"] /\
               pending_suggests s2 = ∅.
Proof.
  assert (Hok : timers_ok polling).
  { apply (run_ok tcs_trace (initial None)).
    - apply timers_ok_initial.
    - vm_compute. reflexivity. }
  assert (Hpr : polls_refresh polling).
  { apply (run_refresh tcs_trace (initial None)).
    - apply timers_ok_initial.
    - apply polls_refresh_initial.
    - vm_compute. reflexivity. }
  assert (Hnone : fetch_calls polling = []) by (vm_compute; reflexivity).
  destruct (debounce_trailing_edge polling (30000, str "t")
              [(30050, str " ta ")] Hok Hpr)
    as (st1 & id & Hrun & Hcalls & _ & Hpend & Hearly & Hfire & _ & Hmid).
  - vm_compute. reflexivity.
  - vm_compute. discriminate.
  - simpl. lia.
  - cbv zeta in Hpend, Hearly, Hfire, Hmid.
    cbn [List.last fst snd] in Hpend, Hearly, Hfire, Hmid.
    change (30050 + 250) with 30300 in Hpend, Hearly, Hfire, Hmid.
    assert (Hst1 : st1 = default polling
              (run (keystrokes [(30000, str "t"); (30050, str " ta ")]) polling))
      by (by rewrite Hrun).
    assert (Hid : id = 4%nat).
    { assert (Hl : pending_suggests st1 !! 4%nat = Some (mkTimer 30300 None SuggestTask))
        by (rewrite Hst1; vm_compute; reflexivity).
      rewrite Hpend in Hl. by apply lookup_singleton_Some in Hl as [-> _]. }
    set (s := default st1 (run [(30100, TimerFires 2%nat)] st1)).
    assert (Hs : run [(30100, TimerFires 2%nat)] st1 = Some s)
      by (unfold s; rewrite Hst1; vm_compute; reflexivity).
    assert (Hfield : stockSearch (page s) = str "TCS")
      by (unfold s; rewrite Hst1; vm_compute; reflexivity).
    assert (Hclock : now (host s) <= 30300)
      by (unfold s; rewrite Hst1; vm_compute; discriminate).
    destruct (Hmid [(30100, TimerFires 2%nat)] s) as (_ & Hp & _ & _ & Hlate);
      [|exact Hs|].
    { constructor; [|constructor]. rewrite Hid. reflexivity. }
    exists st1, id, s. split; [exact Hrun|]. split; [by rewrite Hcalls|].
    split; [exact Hpend|]. split; [apply Hearly; lia|]. split.
    { destruct (Hfire 30300) as (st2 & Hstep & Hc & Hn & Hsent); [lia|].
      exists st2. split; [exact Hstep|]. split; [by rewrite Hc, Hnone|].
      split; [exact Hn|]. rewrite Hsent.
      change (sends_request (trim (str " ta "))) with true. cbv iota.
      replace (next_request (host polling)) with 2%nat by (vm_compute; reflexivity).
      apply lookup_insert_eq. }
    split; [exact Hs|]. split; [exact Hfield|]. split; [exact Hp|].
    destruct (Hlate 30300) as (s2 & Hstep & Hc & Hn & _); [lia | exact Hclock |].
    exists s2. split; [exact Hstep|]. split; [|exact Hn].
    by rewrite Hc, Hfield, Hnone.
Defined.

(** C3 as the specification words it does not hold where it takes the
    query to be the text typed last. With the field holding [ ta] (a
    leading space) the query is [ta]. And the call reads the field when it
    fires: with [tat] typed and a row picked before the call is due, the
    query is the symbol of that row, [TCS]. *)
Lemma debounce_query_is_trimmed :
  (exists st,
    run [(0, DOMContentLoaded); (10, InputEvent (str " ta")); (260, TimerFires 1%nat)]
        (initial None) = Some st /\
    stockSearch (page st) = str " ta" /\
    fetch_calls st = [str "ta"] /\
    str "ta" <> str " ta") /\
  (exists st,
    run [(0, DOMContentLoaded); (10, InputEvent (str "ta")); (260, TimerFires 1%nat);
         (300, Response 0%nat
                 (Body true (JArray [suggestion "TCS" "Tata Consultancy Services"])));
         (400, InputEvent (str "tat")); (500, ClickRow 0%nat);
         (650, TimerFires 2%nat)]
        (initial None) = Some st /\
    fetch_calls st = [str "TCS"; str "ta"] /\
    str "TCS" <> str "tat").
Proof.
  split.
  - eexists. split; [vm_compute; reflexivity|].
    split; [reflexivity|]. split; [reflexivity|]. discriminate.
  - eexists. split; [vm_compute; reflexivity|].
    split; [reflexivity|]. discriminate.
Qed.

(* ================================================================== *)
(** * Overlapping suggestion requests *)





(* ================================================================== *)
(** * Further properties of the handlers *)

Section Session.



Lemma calm_view m st : calm m -> session_view (snd (m st)) = session_view st.
Proof. intros H. by apply (H (session_view st) st). Qed.



Lemma calm_send r : calm (send r).
Proof. unfold send. keeps_auto. Qed.











Lemma calm_getRecommendations : calm getRecommendations.
Proof.
  unfold getRecommendations. keeps_auto.
  intros st <-. apply (calm_view _ st), calm_send.
Qed.







(** A list rendered without error is on the page row for row, no row
    selected. *)
Lemma session_rendered items st :
  fst (renderSuggestions items st) = Normal ->
  session_ok (snd (renderSuggestions items st)).
Proof.
  unfold renderSuggestions, and_then, modify, throw. simpl.
  destruct items as [|s r]; [intros _; by constructor; simpl; [|right|]|].
  destruct (forallb _ (s :: r)); [|done]. intros _.
  constructor; simpl.
  - f_equal. induction r as [|x r IH]; [done|]. simpl. by rewrite IH.
  - left. lia.
  - intros [|i] row.
    + intros [= <-]. simpl. split; [done|lia].
    + intros Hrow. apply list_lookup_fmap_Some in Hrow as (x & -> & _). simpl. 
      split; [done|lia].
Qed.





Lemma session_navigateSuggestions d : stable session_ok (navigateSuggestions d).
Proof.
  intros st Hok.
  destruct (suggestions (page st)) as [|r0 rs] eqn:Hs; [by rewrite navigate_empty|].
  destruct Hok as [Hrows Hidx Hact]. rewrite Hs in Hrows, Hidx, Hact.
  unfold navigateSuggestions. rewrite Hs. cbv zeta.
  set (rows := r0 :: rs) in *.
  set (n := Z.of_nat (length rows)).
  fold (next_index d n (activeIndex (globals st))).
  set (i' := next_index d n (activeIndex (globals st))).
  destruct Hidx as [Hidx|[? _]]; [|done].
  assert (Hn : 0 < n) by (subst n rows; simpl; lia).
  pose proof (clear_active_items rows) as Hitems.
  pose proof (clear_active_lookup rows) as Hfalse.
  assert (Hlen : length (clear_active rows) = length rows) by apply length_map.
  set (cl := clear_active rows) in *. clearbody cl.
  unfold at_index.
  destruct (Z.ltb_spec i' 0) as [Hneg|Hpos].
  - (* no such row: the rows stay cleared, the index stays at -1 *)
    assert (d = OtherDirection) as ->.
    { destruct d; [| |done]; exfalso.
      - pose proof (next_index_range Down n _ Hn Hidx ltac:(done)) as Hr.
        fold i' in Hr. lia.
      - pose proof (next_index_range Up n _ Hn Hidx ltac:(done)) as Hr.
        fold i' in Hr. lia. }
    simpl in i'. constructor; simpl.
    + by rewrite Hitems.
    + left. rewrite Hlen. exact Hidx.
    + intros i r Hr. rewrite (Hfalse _ _ Hr). split; [done|]. subst i'. lia.
  - assert (Hin' : i' < n).
    { destruct d; [| |subst i'; simpl; lia].
      - by apply (next_index_range Down n).
      - by apply (next_index_range Up n). }
    assert (Hin : (Z.to_nat i' < length cl)%nat) by (rewrite Hlen; lia).
    destruct (lookup_lt_is_Some_2 _ _ Hin) as [row Hrow].
    rewrite Hrow. constructor; simpl.
    + rewrite list_fmap_insert. simpl.
      rewrite list_insert_id; [by rewrite Hitems|].
      by rewrite list_lookup_fmap, Hrow.
    + left. rewrite length_insert, Hlen. fold n. lia.
    + intros i r Hr.
      destruct (decide (i = Z.to_nat i')) as [->|Hne].
      * rewrite list_lookup_insert_eq in Hr by done. injection Hr as <-. simpl.
        split; [lia|done].
      * rewrite list_lookup_insert_ne in Hr by done.
        rewrite (Hfalse _ _ Hr). split; [done|lia].
Qed.






End Session.

(* ================================================================== *)
(** * The typeahead along every run *)

(** What [searchStock] does with a symbol it can send. *)
Lemma searchStock_sends st :
  let symbol := toUpperCase (trim (stockSearch (page st))) in
  symbol <> [] -> well_formed_utf16 symbol = true ->
  let st' := snd (searchStock st) in
  fst (searchStock st) = Normal /\
  inflight (host st') = <[next_request (host st) := ReqSearch symbol]> (inflight (host st)) /\
  next_request (host st') = S (next_request (host st)) /\
  searchBtn (page st') = busy_search /\
  stockSearch (page st') = stockSearch (page st) /\
  session_view st' = session_view st /\
  timer_state st' = timer_state st.
Proof.
  cbv zeta. intros Hne Hwf. unfold searchStock, async.
  rewrite bool_decide_eq_false_2 by done.
  unfold and_then, modify. rewrite Hwf. done.
Qed.





(** X3. An index that is not one of the list: [pickSuggestion] returns with
    the page as it was, field, dropdown and requests included. *)
Theorem pickSuggestion_out_of_range (st : State) (idx : Z) :
  idx < 0 \/ Z.of_nat (length (lastSuggestions (globals st))) <= idx ->
  pickSuggestion idx st = (Normal, st).
Proof.
  intros H. unfold pickSuggestion.
  replace ((idx <? 0) || (Z.of_nat (length (lastSuggestions (globals st))) <=? idx))
    with true; [done|].
  symmetry. apply orb_true_iff.
  destruct H; [left; by apply Z.ltb_lt | right; by apply Z.leb_le].
Qed.

Lemma pickSuggestion_out_of_range_witness :
  pickSuggestion 3 three_rows = (Normal, three_rows) /\
  pickSuggestion (-1) three_rows = (Normal, three_rows).
Proof.
  split; apply pickSuggestion_out_of_range; [right|left]; simpl; lia.
Defined.

(** X4. Enter. On a consistent page, Enter with a highlighted row does what
    a click on that row does; with no row highlighted it closes the dropdown
    and searches for the text of the field as it is. *)
Theorem enter_follows_highlight (st : State) :
  session_ok st ->
  (forall i r, suggestions (page st) !! i = Some r -> row_active r = true ->
     on_keydown Enter st = pickSuggestion (Z.of_nat i) st) /\
  ((forall r, r ∈ suggestions (page st) -> row_active r = false) ->
     on_keydown Enter st = searchStock (snd (renderSuggestions [] st)) /\
     stockSearch (page (snd (on_keydown Enter st))) = stockSearch (page st)).
Proof.
  intros Hok. split.
  - intros i r Hrow Hact. apply (ok_active st Hok) in Hrow. apply Hrow in Hact.
    simpl. rewrite Hact.
    destruct (Z.leb_spec 0 (Z.of_nat i)) as [_|]; [done|lia].
  - intros Hnone.
    assert (Hi : activeIndex (globals st) = -1).
    { destruct (ok_index st Hok) as [Hr|[_ ?]]; [|done].
      destruct (Z.eq_dec (activeIndex (globals st)) (-1)) as [|Hne]; [done|].
      assert (Hin : (Z.to_nat (activeIndex (globals st)) < length (suggestions (page st)))%nat)
        by lia.
      destruct (lookup_lt_is_Some_2 _ _ Hin) as [r Hrow].
      pose proof (proj2 (ok_active st Hok _ _ Hrow) ltac:(lia)) as Hact.
      rewrite (Hnone r) in Hact; [done|]. by eapply list_elem_of_lookup_2. }
    simpl. rewrite Hi. simpl. split; [done|].
    unfold and_then, modify. simpl.
    unfold searchStock, async.
    destruct (bool_decide _); [done|]. unfold and_then, modify.
    destruct (well_formed_utf16 _); [done|].
    unfold searchStock_settle. rewrite try_finally_modify. simpl.
    unfold try_catch, throw, and_then, console, alert, modify. done.
Qed.

Lemma enter_follows_highlight_witness :
  on_keydown Enter (press Down three_rows) = pickSuggestion 0 (press Down three_rows) /\
  stockSearch (page (snd (on_keydown Enter (press Down three_rows)))) = str "TCS" /\
  stockSearch (page (snd (on_keydown Enter three_rows))) = [].
Proof.
  assert (Hok : session_ok three_rows) by (apply session_rendered; reflexivity).
  assert (Hok' : session_ok (press Down three_rows))
    by (apply session_navigateSuggestions; exact Hok).
  destruct (enter_follows_highlight _ Hok') as [Hhigh _].
  destruct (enter_follows_highlight _ Hok) as [_ Hnone].
  split; [|split].
  - apply (Hhigh 0%nat (mkRow (suggestion "TCS" "Tata Consultancy Services") true));
      reflexivity.
  - reflexivity.
  - apply Hnone. intros r Hr. vm_compute in Hr.
    repeat (apply elem_of_cons in Hr as [->|Hr]; [reflexivity|]).
    by apply elem_of_nil in Hr.
Defined.

(** X5. A query of fewer than two code units: [fetchSuggestions] sends
    nothing, and leaves the dropdown empty and hidden with no selection. *)
Theorem fetchSuggestions_short_query (q : jsstring) (st : State) :
  (length q < 2)%nat ->
  let st' := snd (fetchSuggestions q st) in
  fst (fetchSuggestions q st) = Normal /\
  inflight (host st') = inflight (host st) /\
  next_request (host st') = next_request (host st) /\
  suggestions (page st') = [] /\ suggestions_hidden (page st') = true /\
  lastSuggestions (globals st') = [] /\ activeIndex (globals st') = -1.
Proof.
  intros H. cbv zeta. unfold fetchSuggestions, async, and_then, modify.
  replace (bool_decide (q = []) || (length q <? 2)%nat) with true; [done|].
  symmetry. apply orb_true_iff. right. apply Nat.ltb_lt. lia.
Qed.

Lemma fetchSuggestions_short_query_witness :
  let st' := snd (fetchSuggestions (str "t") three_rows) in
  inflight (host st') = ∅ /\ suggestions (page st') = [] /\
  suggestions_hidden (page st') = true.
Proof.
  destruct (fetchSuggestions_short_query (str "t") three_rows) as (_ & Hf & _ & Hs & Hh & _).
  - simpl. lia.
  - split; [exact Hf|]. split; [exact Hs | exact Hh].
Defined.

(** * Trimming and upper case *)

Section Normalise.

Lemma drop_while_idem {A} (p : A -> bool) l : drop_while p (drop_while p l) = drop_while p l.
Proof.
  induction l as [|c r IH]; [done|]. simpl.
  destruct (p c) eqn:Hc; [done|]. simpl. by rewrite Hc.
Qed.

Lemma drop_while_head {A} (p : A -> bool) l c r :
  drop_while p l = c :: r -> p c = false.
Proof.
  induction l as [|x l IH]; [done|]. simpl.
  destruct (p x) eqn:Hx; [done|]. by intros [= <- _].
Qed.

Lemma drop_while_snoc {A} (p : A -> bool) l c :
  p c = false -> drop_while p (l ++ [c]) = drop_while p l ++ [c].
Proof.
  intros Hc. induction l as [|x l IH]; simpl; [by rewrite Hc|].
  by destruct (p x).
Qed.

Lemma drop_while_fmap {A} (p : A -> bool) (f : A -> A) l :
  (forall c, p (f c) = p c) -> drop_while p (f <$> l) = f <$> drop_while p l.
Proof.
  intros Hf. induction l as [|x l IH]; [done|]. simpl.
  rewrite Hf. by destruct (p x).
Qed.

Lemma trimEnd_cons c r : is_js_space c = false -> trimEnd (c :: r) = c :: trimEnd r.
Proof.
  intros Hc. unfold trimEnd, trimStart. simpl.
  rewrite drop_while_snoc by done. by rewrite rev_app_distr.
Qed.

Lemma trimEnd_idem s : trimEnd (trimEnd s) = trimEnd s.
Proof.
  unfold trimEnd, trimStart. by rewrite rev_involutive, drop_while_idem.
Qed.

Lemma trim_idem s : trim (trim s) = trim s.
Proof.
  unfold trim. destruct (trimStart s) as [|c r] eqn:Hs; [done|].
  pose proof (drop_while_head _ _ _ _ Hs) as Hc.
  rewrite trimEnd_cons by done.
  unfold trimStart at 1. simpl. rewrite Hc.
  by rewrite trimEnd_cons, trimEnd_idem.
Qed.

Lemma upper_unit_idem c : upper_unit (upper_unit c) = upper_unit c.
Proof.
  unfold upper_unit.
  destruct ((97 <=? c)%N && (c <=? 122)%N) eqn:E; [|by rewrite E].
  apply andb_true_iff in E as [E1%N.leb_le E2%N.leb_le].
  destruct (N.leb_spec 97 (c - 32)) as [|_]; [lia|done].
Qed.

Lemma upper_unit_space c : is_js_space (upper_unit c) = is_js_space c.
Proof.
  unfold upper_unit.
  destruct ((97 <=? c)%N && (c <=? 122)%N) eqn:E; [|done].
  apply andb_true_iff in E as [E1%N.leb_le E2%N.leb_le].
  unfold is_js_space.
  repeat match goal with
         | |- context [(?a <=? ?b)%N] => destruct (N.leb_spec a b); try lia
         | |- context [(?a =? ?b)%N] => destruct (N.eqb_spec a b); try lia
         end.
Qed.

Lemma toUpperCase_idem s : toUpperCase (toUpperCase s) = toUpperCase s.
Proof.
  unfold toUpperCase. rewrite <- list_fmap_compose.
  apply list_fmap_ext. intros _ c _. apply upper_unit_idem.
Qed.

Lemma fmap_rev {A B} (f : A -> B) l : f <$> rev l = rev (f <$> l).
Proof.
  induction l as [|x l IH]; [done|]. simpl. by rewrite fmap_app, IH.
Qed.

Lemma trim_toUpperCase s : trim (toUpperCase s) = toUpperCase (trim s).
Proof.
  unfold trim, trimEnd, trimStart, toUpperCase.
  rewrite drop_while_fmap by apply upper_unit_space.
  rewrite <- fmap_rev, drop_while_fmap by apply upper_unit_space.
  by rewrite fmap_rev.
Qed.

(** Normalising twice is normalising once. *)
Lemma normalise_idem s :
  toUpperCase (trim (toUpperCase (trim s))) = toUpperCase (trim s).
Proof. by rewrite trim_toUpperCase, trim_idem, toUpperCase_idem. Qed.

End Normalise.

(* ================================================================== *)
(** * Symbols on their way *)

Section Symbols.

Lemma symbols_ok_ext st st' : traffic st' = traffic st -> symbols_ok st -> symbols_ok st'.
Proof.
  unfold traffic. intros [= Ht Hf] [H1 H2].
  constructor; rewrite ?Ht, ?Hf; assumption.
Qed.

Lemma symbols_ok_initial saved : symbols_ok (initial saved).
Proof. constructor; simpl; intros ? ?; by rewrite lookup_empty. Qed.

Lemma symbols_ok_effect e st : symbols_ok st -> symbols_ok (upd_host (add_effect e) st).
Proof. apply symbols_ok_ext. by destruct st as [g p []]. Qed.

Lemma quiet_traffic m st : quiet m -> traffic (snd (m st)) = traffic st.
Proof. intros H. by apply (H (traffic st) st). Qed.

Lemma quiet_stable m : quiet m -> stable symbols_ok m.
Proof.
  intros H st Hok. eapply symbols_ok_ext; [|exact Hok]. by apply quiet_traffic.
Qed.

Lemma quiet_renderSuggestions items : quiet (renderSuggestions items).
Proof. unfold renderSuggestions. destruct items as [|s r]; keeps_auto. Qed.

Lemma quiet_fetchSuggestions_resume o : quiet (fetchSuggestions_resume o).
Proof.
  unfold fetchSuggestions_resume, fetchSuggestions_catch.
  destruct o; keeps_auto; apply quiet_renderSuggestions.
Qed.

Lemma quiet_drawPriceChart h : quiet (drawPriceChart h).
Proof.
  intros ts st <-. unfold drawPriceChart.
  destruct (has_canvas (host st)); [|done].
  destruct (has_Chart (host st)); simpl; [|by destruct st].
  destruct h as [| | | | |l|]; try done.
  destruct (forallb _ l); [|done]. by destruct st.
Qed.

Lemma quiet_displayStockInfo data : quiet (displayStockInfo data).
Proof. unfold displayStockInfo. keeps_auto. apply quiet_drawPriceChart. Qed.

Lemma quiet_append_news items : quiet (append_news items).
Proof. induction items as [|item rest IH]; simpl; keeps_auto. apply IH. Qed.

Lemma quiet_loadNews_resume o : quiet (loadNews_resume o).
Proof.
  unfold loadNews_resume. destruct o as [| |ok news]; keeps_auto.
  destruct news as [| | | | |[|item rest]|]; stable_auto.
  apply (quiet_append_news (item :: rest)).
Qed.

Lemma quiet_append_cards recs : quiet (append_cards recs).
Proof.
  induction recs as [|rec rest IH]; simpl; [keeps_auto|].
  destruct (rec_card rec); keeps_auto. apply IH.
Qed.

Lemma quiet_displayRecommendations recs : quiet (displayRecommendations recs).
Proof.
  unfold displayRecommendations. keeps_auto.
  destruct recs as [| | | | |[|rec rest]|]; stable_auto.
  apply (quiet_append_cards (rec :: rest)).
Qed.

Lemma quiet_getRecommendations_resume o : quiet (getRecommendations_resume o).
Proof.
  unfold getRecommendations_resume, getRecommendations_settle.
  destruct o as [| |ok recs]; keeps_auto.
  apply quiet_displayRecommendations.
Qed.

Lemma quiet_loadUserProfile : quiet loadUserProfile.
Proof.
  intros ts st <-. unfold loadUserProfile.
  destruct (saved_truthy _) as [saved|]; [|done].
  destruct (JSON_parse saved); [|done]. by destruct st.
Qed.

Lemma quiet_updateProfileDisplay : quiet updateProfileDisplay.
Proof.
  intros ts st <-. unfold updateProfileDisplay.
  destruct (get_prop _ _) as [b|]; [|done].
  cbv zeta. destruct (negb (localizable b)); [done|].
  repeat (destruct (negb (stringable _)); [by destruct st|]). by destruct st.
Qed.

Lemma quiet_navigateSuggestions d : quiet (navigateSuggestions d).
Proof.
  intros ts st <-. unfold navigateSuggestions.
  destruct (suggestions (page st)) as [|r rs]; [done|]. cbv zeta.
  destruct (at_index _ _); by destruct st.
Qed.

Ltac symbols_leaf :=
  lazymatch goal with
  | |- stable _ (modify _) =>
      apply stable_modify; intros [? ? []]; apply symbols_ok_ext; reflexivity
  | |- forall _ _, symbols_ok _ -> symbols_ok _ => apply symbols_ok_effect
  | |- _ => idtac
  end.

Ltac symbols_auto := repeat stable_step; symbols_leaf.

(** A request that is not a search, or a search for a searchable symbol. *)
Lemma symbols_send r :
  (forall symbol, r = ReqSearch symbol -> searchable symbol = true) ->
  stable symbols_ok (send r).
Proof.
  intros Hr st [H1 H2]. unfold send, modify. constructor; simpl.
  - intros rid symbol [[_ ->]|[_ Hl]]%lookup_insert_Some; eauto.
  - exact H2.
Qed.

Lemma symbols_searchStock : stable symbols_ok searchStock.
Proof.
  unfold searchStock. apply stable_async; [apply symbols_ok_effect|].
  intros st Hok.
  destruct (bool_decide (toUpperCase (trim (stockSearch (page st))) = [])) eqn:He; [done|].
  apply bool_decide_eq_false in He.
  destruct (well_formed_utf16 (toUpperCase (trim (stockSearch (page st))))) eqn:Hwf.
  - match goal with |- symbols_ok (snd (?m st)) =>
      cut (stable symbols_ok m); [intros Hm; by apply Hm|] end.
    symbols_auto. apply symbols_send. intros symbol [= <-].
    unfold searchable. rewrite Hwf, normalise_idem.
    rewrite bool_decide_eq_false_2, bool_decide_eq_true_2 by done. done.
  - match goal with |- symbols_ok (snd (?m st)) =>
      cut (stable symbols_ok m); [intros Hm; by apply Hm|] end.
    unfold searchStock_settle. symbols_auto.
Qed.

Lemma symbols_startAutoRefresh symbol :
  searchable symbol = true -> stable symbols_ok (startAutoRefresh symbol).
Proof.
  intros Hs st [H1 H2].
  destruct (startAutoRefresh_state symbol st) as (Ht & _).
  assert (Hf : inflight (host (snd (startAutoRefresh symbol st))) = inflight (host st)).
  { unfold startAutoRefresh, modify. simpl.
    destruct (handle_truthy _); [|done]. by destruct (refreshInterval _). }
  constructor; rewrite ?Ht, ?Hf; [exact H1|].
  intros id tm [[_ <-]|[_ Hl]]%lookup_insert_Some Hi; [eauto|].
  apply (H2 id); [|done]. revert Hl. unfold without_poll.
  destruct (handle_truthy _); [|done].
  destruct (refreshInterval (globals st)); [|done]. simpl.
  by intros [_ ?]%lookup_delete_Some.
Qed.

Lemma symbols_debounce delay : stable symbols_ok (debounce SuggestTask delay).
Proof.
  intros st [H1 H2].
  destruct (debounced_state delay st) as (Ht & _ & _ & _ & _ & _ & _ & _ & Hf & _).
  constructor; rewrite ?Ht, ?Hf; [exact H1|].
  intros id tm [[_ <-]|[_ Hl]]%lookup_insert_Some Hi; [done|].
  apply (H2 id); [|done]. revert Hl. unfold without_suggest.
  destruct (suggestTimer (globals st)); [|done]. simpl.
  by intros [_ ?]%lookup_delete_Some.
Qed.

Lemma symbols_loadNews symbol : stable symbols_ok (loadNews symbol).
Proof. unfold loadNews. symbols_auto. by apply symbols_send. Qed.

Lemma symbols_searchStock_resume symbol o :
  searchable symbol = true -> stable symbols_ok (searchStock_resume symbol o).
Proof.
  intros Hs. unfold searchStock_resume, searchStock_settle.
  destruct o as [| |[] data]; symbols_auto.
  - apply quiet_stable, quiet_displayStockInfo.
  - apply symbols_loadNews.
  - by apply symbols_startAutoRefresh.
Qed.

Lemma symbols_fetchSuggestions q : stable symbols_ok (fetchSuggestions q).
Proof.
  unfold fetchSuggestions, fetchSuggestions_catch. symbols_auto;
    first [apply quiet_stable, quiet_renderSuggestions | by apply symbols_send].
Qed.

Lemma symbols_getRecommendations : stable symbols_ok getRecommendations.
Proof.
  unfold getRecommendations. symbols_auto.
  intros st Hok. by apply symbols_send.
Qed.

Lemma symbols_pickSuggestion idx : stable symbols_ok (pickSuggestion idx).
Proof.
  intros st Hok. unfold pickSuggestion.
  destruct ((idx <? 0) || _); [done|].
  destruct (lastSuggestions (globals st) !! Z.to_nat idx) as [s|]; [|done].
  destruct (get_prop s "symbol") as [sym|]; [|done].
  match goal with |- symbols_ok (snd (?m st)) =>
    cut (stable symbols_ok m); [intros Hm; by apply Hm|] end.
  symbols_auto; [apply quiet_stable, quiet_renderSuggestions | apply symbols_searchStock].
Qed.

Lemma symbols_on_keydown k : stable symbols_ok (on_keydown k).
Proof.
  destruct k; simpl.
  - intros st Hok. destruct (0 <=? activeIndex (globals st)).
    + by apply symbols_pickSuggestion.
    + match goal with |- symbols_ok (snd (?m st)) =>
        cut (stable symbols_ok m); [intros Hm; by apply Hm|] end.
      symbols_auto; [apply quiet_stable, quiet_renderSuggestions | apply symbols_searchStock].
  - apply quiet_stable, quiet_navigateSuggestions.
  - apply quiet_stable, quiet_navigateSuggestions.
  - apply quiet_stable, quiet_renderSuggestions.
  - by intros st.
Qed.

Lemma symbols_run_task tk : stable symbols_ok (run_task tk).
Proof.
  destruct tk as [|symbol]; simpl.
  - intros st Hok. by apply symbols_fetchSuggestions.
  - symbols_auto. apply symbols_searchStock.
Qed.

(** Firing a timer keeps what its entry says. *)
Lemma symbols_fire st id tm :
  symbols_ok st -> timers (host st) !! id = Some tm ->
  symbols_ok (upd_host (fun h => set_timers (next_timer h)
    match period tm with
    | None => delete id (timers (host st))
    | Some p => <[id := mkTimer (now (host st) + p) (Some p) (task tm)]> (timers (host st))
    end h) st).
Proof.
  intros [H1 H2] Hl. constructor; simpl; [exact H1|].
  destruct (period tm) as [p|] eqn:Hp.
  - intros i x [[<- <-]|[_ Hx]]%lookup_insert_Some Hi; [|eauto]. simpl.
    rewrite <- Hp. apply (H2 _ _ Hl). unfold is_interval. by rewrite Hp.
  - intros i x [_ Hx]%lookup_delete_Some. eauto.
Qed.

Lemma handle_symbols ev st c st' :
  symbols_ok st -> handle ev st = Some (c, st') -> symbols_ok st'.
Proof.
  intros Hok. destruct ev as [|text|k| |i| | |id|rid o]; unfold handle.
  - destruct (wired (host st)); [done|]. intros ->%result_state.
    match goal with |- symbols_ok (snd (?m st)) =>
      cut (stable symbols_ok m); [intros Hm; by apply Hm|] end.
    symbols_auto.
    + apply quiet_stable, quiet_loadUserProfile.
    + apply quiet_stable, quiet_updateProfileDisplay.
  - destruct (wired (host st)); [|done]. intros ->%result_state.
    apply symbols_debounce. revert Hok. apply symbols_ok_ext. by destruct st.
  - destruct (wired (host st)); [|done]. intros ->%result_state.
    by apply symbols_on_keydown.
  - destruct (_ && _); [|done]. intros ->%result_state.
    unfold document_click_outside.
    match goal with |- symbols_ok (snd (?m st)) =>
      cut (stable symbols_ok m); [intros Hm; by apply Hm|] end.
    symbols_auto;
      first [apply quiet_stable, quiet_renderSuggestions | apply symbols_searchStock].
  - destruct (_ && _); [|done]. intros ->%result_state.
    unfold document_click_outside.
    match goal with |- symbols_ok (snd (?m st)) =>
      cut (stable symbols_ok m); [intros Hm; by apply Hm|] end.
    symbols_auto; [apply symbols_pickSuggestion|].
    intros s Hs. destruct (suggestions (page s)); [|done].
    exact (quiet_stable _ (quiet_renderSuggestions []) s Hs).
  - destruct (wired (host st)); [|done]. intros ->%result_state.
    revert Hok. apply quiet_stable, quiet_renderSuggestions.
  - destruct (_ && _); [|done]. intros ->%result_state.
    unfold document_click_outside.
    match goal with |- symbols_ok (snd (?m st)) =>
      cut (stable symbols_ok m); [intros Hm; by apply Hm|] end.
    symbols_auto;
      first [apply symbols_getRecommendations | apply quiet_stable, quiet_renderSuggestions].
  - destruct (timers (host st) !! id) as [tm|] eqn:Hl; [|done].
    destruct (due tm <=? now (host st)); [|done]. intros ->%result_state.
    apply symbols_run_task. by apply symbols_fire.
  - destruct (inflight (host st) !! rid) as [req|] eqn:Hreq; [|done].
    intros ->%result_state.
    match goal with |- symbols_ok (snd (_ ?s)) =>
      assert (Hok' : symbols_ok s)
    end.
    { destruct Hok as [H1 H2]. constructor; simpl; [|exact H2].
      intros i symbol [_ Hi]%lookup_delete_Some. eauto. }
    revert Hok'. destruct req as [q|symbol|symbol|profile].
    + apply quiet_stable, quiet_fetchSuggestions_resume.
    + apply symbols_searchStock_resume. apply (ok_search st Hok _ _ Hreq).
    + apply quiet_stable, quiet_loadNews_resume.
    + apply quiet_stable, quiet_getRecommendations_resume.
Qed.

Lemma run_symbols trace : forall st st',
  symbols_ok st -> run trace st = Some st' -> symbols_ok st'.
Proof.
  induction trace as [|te rest IH]; simpl; intros st st' Hok.
  - by intros [= <-].
  - destruct (step te st) as [s|] eqn:Hs; [|done].
    apply IH. revert Hs. unfold step, dispatch.
    destruct (now (host st) <=? te.1); [|done].
    destruct (handle _ _) as [[c s']|] eqn:Hh; [|done]. intros [= <-].
    eapply handle_symbols; [|exact Hh]. revert Hok. apply symbols_ok_ext.
    by destruct st as [? ? []].
Qed.

End Symbols.

(* ================================================================== *)
(** * Timers along every run *)

Section TimersAlong.

(** The polls after a poll has fired: the same handle, rearmed. *)
Lemma polls_rearmed st id tm tm' :
  timers_ok st -> timers (host st) !! id = Some tm -> is_interval tm = true ->
  is_interval tm' = true ->
  filter (fun kv => is_interval kv.2 = true) (<[id := tm']> (timers (host st)))
  = {[id := tm']}.
Proof.
  intros Hok Hl Hi Hi'.
  apply map_eq. intros i. apply option_eq. intros x.
  rewrite map_lookup_filter_Some, lookup_singleton_Some, lookup_insert_Some. simpl.
  split.
  - intros [[[<- <-]|[Hne Hx]] Hix]; [done|].
    apply (ok_interval st Hok _ _ Hx) in Hix.
    apply (ok_interval st Hok _ _ Hl) in Hi. congruence.
  - intros [<- <-]. split; [by left | done].
Qed.

End TimersAlong.

(** X6. In every state the page can reach, at most one debounced call is
    pending; it is the one [suggestTimer] names, and it runs the input
    callback. *)
Theorem one_pending_suggestion (saved : option jsstring) (trace : list (Z * Event))
    (st : State) :
  run trace (initial saved) = Some st ->
  (size (pending_suggests st) <= 1)%nat /\
  forall id tm, pending_suggests st !! id = Some tm ->
    suggestTimer (globals st) = Some id /\ task tm = SuggestTask.
Proof.
  intros Hrun.
  assert (Hok : timers_ok st) by (eapply run_ok; [apply timers_ok_initial | exact Hrun]).
  split; [by apply pending_at_most_one|].
  intros id tm [Hl Hi]%pending_lookup. split.
  - by apply (ok_timeout st Hok _ _ Hl).
  - by apply (ok_task st Hok _ _ Hl).
Qed.

Lemma one_pending_suggestion_witness :
  (size (pending_suggests polling) <= 1)%nat /\
  suggestTimer (globals polling) = Some 1%nat.
Proof.
  destruct (one_pending_suggestion None tcs_trace polling) as [Hone Hname].
  - vm_compute. reflexivity.
  - split; [exact Hone|].
    apply (Hname 1%nat (mkTimer 260 None SuggestTask)). vm_compute. reflexivity.
Defined.

(** X7. The two kinds of timers share one table of handles and do not
    disturb each other: a keystroke, which cancels and resets the debounce
    timeout, leaves the refresh poll as it is; starting or stopping the
    poll leaves the pending debounced call as it is. *)
Theorem timers_independent (st : State) (symbol : jsstring) (delay : Z) :
  timers_ok st ->
  polls (snd (debounce SuggestTask delay st)) = polls st /\
  pending_suggests (snd (startAutoRefresh symbol st)) = pending_suggests st /\
  pending_suggests (snd (stopAutoRefresh st)) = pending_suggests st.
Proof.
  intros Hok. split; [by apply debounced_polls|].
  split; [by apply startAutoRefresh_pending|].
  apply map_eq. intros i. apply option_eq. intros tm.
  rewrite !pending_lookup.
  change (timers (host (snd (stopAutoRefresh st)))) with (without_poll st).
  split.
  - intros [Hl Hi]. by apply (without_poll_lookup st _ _ Hok) in Hl.
  - intros [Hl Hi]. split; [|done]. by apply without_poll_keeps.
Qed.

Lemma timers_independent_witness :
  polls (snd (debounce SuggestTask 250 polling)) = polls polling /\
  pending_suggests (snd (startAutoRefresh (str "INFY") polling)) = pending_suggests polling /\
  pending_suggests (snd (stopAutoRefresh polling)) = pending_suggests polling.
Proof.
  apply timers_independent.
  apply (run_ok tcs_trace (initial None)); [apply timers_ok_initial|].
  vm_compute. reflexivity.
Defined.

(** X8. A tick of the refresh poll. In every state the page can reach, a
    live poll that is due fires: it writes the symbol it was started for
    into the search field, whatever the field held, sends the search
    request for exactly that symbol, and stays armed under the same handle
    for 30 s later, the only poll there is. *)
Theorem poll_refetches_symbol (saved : option jsstring) (trace : list (Z * Event))
    (st : State) (id : nat) (tm : Timer) (t : Z) :
  run trace (initial saved) = Some st ->
  polls st !! id = Some tm -> due tm <= t -> now (host st) <= t ->
  exists symbol st',
    task tm = RefreshTask symbol /\
    step (t, TimerFires id) st = Some st' /\
    stockSearch (page st') = symbol /\
    searchBtn (page st') = busy_search /\
    inflight (host st')
    = <[next_request (host st) := ReqSearch symbol]> (inflight (host st)) /\
    polls st' = {[id := mkTimer (t + 30000) (Some 30000) (RefreshTask symbol)]}.
Proof.
  intros Hrun [Hl Hi]%polls_lookup Hdue Hnow.
  assert (Hok : timers_ok st) by (eapply run_ok; [apply timers_ok_initial | exact Hrun]).
  assert (Hsym : symbols_ok st)
    by (eapply run_symbols; [apply symbols_ok_initial | exact Hrun]).
  destruct (ok_poll st Hsym _ _ Hl Hi) as (Hp & symbol & Htask & Hs).
  unfold searchable in Hs.
  apply andb_true_iff in Hs as [[Hne%negb_true_iff Hwf]%andb_true_iff Hnorm].
  apply bool_decide_eq_false in Hne. apply bool_decide_eq_true in Hnorm.
  exists symbol. unfold step, dispatch. simpl.
  destruct (Z.leb_spec (now (host st)) t) as [_|]; [|lia].
  unfold handle. simpl. rewrite Hl. simpl.
  destruct (Z.leb_spec (due tm) t) as [_|]; [|lia]. simpl.
  rewrite Hp, Htask. simpl.
  rewrite bool_decide_eq_false_2 by done.
  unfold and_then at 1. unfold modify at 1.
  match goal with |- context [searchStock ?s] =>
    set (s1 := s);
    destruct (searchStock_sends s1) as (_ & Hfl & _ & Hb & Hf & _ & Hts);
      [simpl; by rewrite Hnorm | simpl; by rewrite Hnorm |]
  end.
  eexists. split; [done|]. split; [reflexivity|]. simpl.
  split; [by rewrite Hf|]. split; [exact Hb|].
  split; [rewrite Hfl; simpl; by rewrite Hnorm|].
  unfold polls. unfold timer_state in Hts. injection Hts as _ Hts _ _. rewrite Hts.
  simpl. by apply (polls_rearmed st id tm).
Qed.

Lemma poll_refetches_symbol_witness :
  exists st',
    step (30100, TimerFires 2%nat) polling = Some st' /\
    stockSearch (page st') = str "TCS" /\
    inflight (host st')
    = <[next_request (host polling) := ReqSearch (str "TCS")]> (inflight (host polling)) /\
    polls st' = {[2%nat := mkTimer 60100 (Some 30000) (RefreshTask (str "TCS"))]}.
Proof.
  destruct (poll_refetches_symbol None tcs_trace polling 2%nat
              (mkTimer 30100 (Some 30000) (RefreshTask (str "TCS"))) 30100)
    as (symbol & st' & Htask & Hstep & Hf & _ & Hfl & Hp).
  - vm_compute. reflexivity.
  - vm_compute. reflexivity.
  - simpl. lia.
  - vm_compute. discriminate.
  - injection Htask as <-. exists st'.
    split; [exact Hstep|]. split; [exact Hf|]. split; [exact Hfl | exact Hp].
Defined.

Section Responses.











End Responses.





(* ================================================================== *)
(** * News and recommendations *)

Section Lists.




End Lists.




(* ================================================================== *)
(** * The profile form *)

Example parseInt10_plain : parseInt10 (str " 250000 ") = num_of_Z 250000.
Proof. reflexivity. Qed.

Example parseInt10_unit : parseInt10 (str "12.5k") = num_of_Z 12.
Proof. reflexivity. Qed.

Example parseInt10_hex : parseInt10 (str "0x1F") = num_of_Z 0.
Proof. reflexivity. Qed.

Example parseInt10_none : parseInt10 (str "ten") = NaN.
Proof. reflexivity. Qed.

Example JSON_quote_escapes :
  JSON_quote [97; 34; 10; 1; 55357; 56832; 56832; 98]%N
  = [34%N] ++ str "a\" ++ [34%N] ++ str "\n\u0001" ++ [55357; 56832]%N ++ str "\ude00b" ++ [34%N].
Proof. reflexivity. Qed.

Example stringify_profile_default :
  stringify_profile (num_of_Z 100000) (str "medium") (str "medium")
  = str "{" ++ quoted "budget" ++ str ":100000," ++ quoted "risk_tolerance" ++ str ":"
    ++ quoted "medium" ++ str "," ++ quoted "timeline" ++ str ":" ++ quoted "medium" ++ str "}".
Proof. vm_compute. reflexivity. Qed.

(** ** Integers as doubles *)

Section Integers.

Lemma Qred_integer (x : Q) (k : Z) : (x == inject_Z k)%Q -> Qred x = inject_Z k.
Proof.
  intros H. rewrite (Qred_complete _ _ H).
  unfold inject_Z, Qred. simpl.
  pose proof (Z.ggcd_correct_divisors k 1) as Hd.
  pose proof (Z.ggcd_gcd k 1) as Hg. rewrite Z.gcd_1_r in Hg.
  destruct (Z.ggcd k 1) as [g [a b]]. simpl in *. subst g.
  destruct Hd as [-> Hb]. rewrite Z.mul_1_l in Hb. subst b.
  f_equal. lia.
Qed.

Lemma round_half_even_integer (x : Q) (k : Z) :
  (x == inject_Z k)%Q -> round_half_even x = k.
Proof.
  intros H. unfold round_half_even.
  assert (Hf : Qfloor x = k).
  { rewrite (Qfloor_comp _ _ H). apply Qfloor_Z. }
  rewrite Hf.
  assert (Hc : (x - inject_Z k ?= 1 # 2)%Q = Lt).
  { apply Qlt_alt.
    assert (H0 : (x - inject_Z k == 0)%Q) by (rewrite H; ring).
    rewrite H0. reflexivity. }
  by rewrite Hc.
Qed.

(** An integer a double holds exactly is its own nearest double. *)
Lemma binary64_integer z : Z.abs z <= 2 ^ 53 -> binary64 (inject_Z z) = num_of_Z z.
Proof.
  intros Hz. unfold binary64, num_of_Z.
  assert (Habs : Qabs (inject_Z z) = inject_Z (Z.abs z)) by reflexivity.
  rewrite Habs.
  destruct (Z.eq_dec z 0) as [->|Hne]; [reflexivity|].
  assert (Hpos : 0 < Z.abs z) by lia.
  replace (Qeq_bool (inject_Z (Z.abs z)) 0) with false; cycle 1.
  { symmetry. apply not_true_iff_false. intros H%Qeq_bool_iff.
    unfold Qeq in H. simpl in H. lia. }
  set (a := Z.abs z) in *.
  assert (Hlog : ilog2 (inject_Z a) = Z.log2 a).
  { unfold ilog2. simpl. rewrite Z.sub_0_r.
    replace (Qle_bool (Qpower 2 (Z.log2 a)) (inject_Z a)) with true; [done|].
    symmetry. apply Qle_bool_iff.
    change 2%Q with (inject_Z 2). rewrite <- Zpower_Qpower by apply Z.log2_nonneg.
    rewrite <- Zle_Qle. by apply Z.log2_spec. }
  rewrite Hlog.
  assert (Hl : 0 <= Z.log2 a <= 53).
  { split; [apply Z.log2_nonneg|].
    rewrite <- (Z.log2_pow2 53) by lia. by apply Z.log2_le_mono. }
  set (e := Z.max (-1074) (Z.log2 a - 52)).
  assert (He : e = Z.log2 a - 52) by (unfold e; lia).
  (* the quotient by 2^e is an integer *)
  assert (Hk : exists k, 0 <= k /\ (inject_Z a == inject_Z k * Qpower 2 e)%Q).
  { destruct (Z.eq_dec (Z.log2 a) 53) as [E|E].
    - assert (a = 2 ^ 53) as Ha.
      { pose proof (Z.log2_spec a Hpos) as [Hlow _]. rewrite E in Hlow. lia. }
      exists (2 ^ 52). split; [lia|]. rewrite He, E, Ha. by vm_compute.
    - exists (a * 2 ^ (- e)). split; [apply Z.mul_nonneg_nonneg; [lia|]; apply Z.pow_nonneg; lia|].
      rewrite inject_Z_mult.
      rewrite (Zpower_Qpower 2 (- e)) by lia.
      change (inject_Z 2) with 2%Q.
      rewrite <- Qmult_assoc, <- Qpower_plus by done.
      replace (- e + e) with 0 by lia. simpl. ring. }
  destruct Hk as (k & Hk0 & Hk).
  assert (Hq : (inject_Z a / Qpower 2 e == inject_Z k)%Q).
  { rewrite Hk. field. pose proof (Qpower_0_lt 2 e ltac:(done)). lra. }
  rewrite (round_half_even_integer _ _ Hq).
  rewrite (Qred_integer _ a) by (by rewrite Hk).
  replace (Qle_bool (Qpower 2 1024) (inject_Z a)) with false; cycle 1.
  { symmetry. apply not_true_iff_false. intros H%Qle_bool_iff.
    change 2%Q with (inject_Z 2) in H. rewrite <- Zpower_Qpower in H by lia.
    rewrite <- Zle_Qle in H.
    assert (2 ^ 53 < 2 ^ 1024) by (by vm_compute). lia. }
  f_equal. unfold a. destruct (Qle_bool 0 (inject_Z z)) eqn:Hs.
  - apply Qle_bool_iff in Hs. unfold Qle in Hs. simpl in Hs.
    rewrite Z.abs_eq by lia. done.
  - assert (z < 0).
    { destruct (Z.lt_ge_cases z 0) as [|Hge]; [done|].
      assert (Qle_bool 0 (inject_Z z) = true); [|congruence].
      apply Qle_bool_iff. unfold Qle. simpl. lia. }
    rewrite Z.abs_neq by lia. unfold Qopp, inject_Z. simpl. f_equal. lia.
Qed.

End Integers.

(** * Decimal digits *)

Section Digits.

(** The code units of a decimal numeral. *)
Lemma to_uint_nonnil n : N.to_uint n <> Decimal.Nil.
Proof. destruct n as [|p]; [done|]. apply DecimalPos.Unsigned.to_uint_nonnil. Qed.

Lemma dec_chars n : dec n = str (NilEmpty.string_of_uint (N.to_uint n)).
Proof.
  unfold dec. pose proof (to_uint_nonnil n) as H. by destruct (N.to_uint n).
Qed.

Lemma uint_digits d : forallb is_digit (str (NilEmpty.string_of_uint d)) = true.
Proof. induction d; simpl; done. Qed.

Lemma dec_digits n : forallb is_digit (dec n) = true.
Proof. rewrite dec_chars. apply uint_digits. Qed.

Lemma uint_value d : forall acc,
  foldl (fun a c => a * 10 + dec_digit c) (Z.of_N (DecimalPos.Unsigned.of_lu acc))
        (str (NilEmpty.string_of_uint d))
  = Z.of_N (DecimalPos.Unsigned.of_lu (Decimal.revapp d acc)).
Proof.
  induction d; intros acc; simpl; [done|..];
    rewrite <- IHd; f_equal; simpl; unfold dec_digit; lia.
Qed.

Lemma dec_value n : decimal_value (dec n) = Z.of_N n.
Proof.
  unfold decimal_value, digits_value. rewrite dec_chars.
  etransitivity; [exact (uint_value (N.to_uint n) Decimal.Nil)|].
  change (Decimal.revapp (N.to_uint n) Decimal.Nil) with (Decimal.rev (N.to_uint n)).
  rewrite <- DecimalPos.Unsigned.of_uint_alt.
  change (Pos.of_uint (N.to_uint n)) with (N.of_uint (N.to_uint n)).
  by rewrite DecimalN.Unsigned.of_to.
Qed.

Lemma dec_nonempty n : dec n <> [].
Proof.
  rewrite dec_chars. pose proof (to_uint_nonnil n) as H.
  by destruct (N.to_uint n).
Qed.

Lemma dec_no_leading_zero n more : dec n = 48%N :: more -> more = [].
Proof.
  rewrite dec_chars. destruct n as [|p]; [by intros [= <-]|].
  change (N.to_uint (Npos p)) with (Pos.to_uint p).
  pose proof (DecimalPos.Unsigned.to_of (Pos.to_uint p)) as Hn.
  rewrite DecimalPos.Unsigned.of_to in Hn.
  change (N.to_uint (Npos p)) with (Pos.to_uint p) in Hn.
  intros Hd. exfalso.
  pose proof (DecimalPos.Unsigned.to_uint_nonzero p) as Hnz.
  destruct (Pos.to_uint p) as [|d|d|d|d|d|d|d|d|d|d]; try discriminate Hd.
  unfold Decimal.unorm in Hn. simpl in Hn.
  pose proof (nzhead_nonzero d) as Hz.
  destruct (Decimal.nzhead d) as [|u|u|u|u|u|u|u|u|u|u]; try discriminate Hn.
  - apply Hnz. exact Hn.
  - by apply (Hz u).
Qed.

(** A numeral of [k] digits after a first one that is not zero is worth at
    least [10^k]. *)
Lemma digits_lower_bound ds : forall acc,
  0 <= acc -> forallb is_digit ds = true ->
  acc * 10 ^ Z.of_nat (length ds) <= foldl (fun a c => a * 10 + dec_digit c) acc ds.
Proof.
  induction ds as [|c ds IH]; intros acc Hacc Hd.
  - simpl. lia.
  - apply andb_true_iff in Hd as [Hc Hd].
    unfold is_digit in Hc. apply andb_true_iff in Hc as [H1%N.leb_le H2%N.leb_le].
    cbn [foldl length]. rewrite Nat2Z.inj_succ, Z.pow_succ_r by lia.
    etransitivity; [|apply IH; [unfold dec_digit; lia | done]].
    unfold dec_digit. nia.
Qed.

Lemma dec_length n : (n < 10 ^ 21)%N -> (length (dec n) <= 21)%nat.
Proof.
  intros Hn. pose proof (dec_value n) as Hv. pose proof (dec_digits n) as Hd.
  pose proof (dec_no_leading_zero n) as Hz.
  destruct (dec n) as [|c ds] eqn:E; [simpl; lia|].
  apply andb_true_iff in Hd as [Hc Hd].
  destruct (decide (c = 48%N)) as [->|Hne].
  - rewrite (Hz ds eq_refl). simpl. lia.
  - unfold is_digit in Hc. apply andb_true_iff in Hc as [H1%N.leb_le H2%N.leb_le].
    unfold decimal_value, digits_value in Hv. cbn [foldl] in Hv.
    pose proof (digits_lower_bound ds (0 * 10 + dec_digit c)
                  ltac:(unfold dec_digit; lia) Hd) as Hb.
    rewrite Hv in Hb.
    assert (Hone : 1 <= 0 * 10 + dec_digit c) by (unfold dec_digit; lia).
    assert (Hpow : 10 ^ Z.of_nat (length ds) < 10 ^ 21).
    { assert (0 < 10 ^ Z.of_nat (length ds)) by (apply Z.pow_pos_nonneg; lia).
      assert (Z.of_N n < 10 ^ 21) by lia. nia. }
    apply Z.pow_lt_mono_r_iff in Hpow; [|lia|lia]. simpl. lia.
Qed.

End Digits.



(* ================================================================== *)
(** * JSON text of the profile, and back *)

Section RoundTrip.

Lemma hex_digit_unit d : (d < 16)%N -> hex_digit (hex_unit d) = Some (Z.of_N d).
Proof.
  intros Hd. unfold hex_unit, hex_digit, is_digit.
  destruct (N.ltb_spec d 10).
  - destruct (N.leb_spec 48 (48 + d)); [|lia].
    destruct (N.leb_spec (48 + d) 57); [|lia]. simpl. f_equal. lia.
  - destruct (N.leb_spec (87 + d) 57); [lia|]. rewrite andb_false_r.
    destruct (N.leb_spec 97 (87 + d)); [|lia].
    destruct (N.leb_spec (87 + d) 102); [|lia]. simpl. f_equal. lia.
Qed.

Lemma hex_digits_value c :
  (c < 65536)%N ->
  Z.to_N (((Z.of_N (c / 4096 mod 16) * 16 + Z.of_N (c / 256 mod 16)) * 16
           + Z.of_N (c / 16 mod 16)) * 16 + Z.of_N (c mod 16)) = c.
Proof.
  intros Hc.
  pose proof (N.div_mod c 16 ltac:(lia)) as H1.
  pose proof (N.div_mod (c / 16) 16 ltac:(lia)) as H2.
  pose proof (N.div_mod (c / 256) 16 ltac:(lia)) as H3.
  replace (c / 16 / 16)%N with (c / 256)%N in H2 by (rewrite N.Div0.div_div by lia; done).
  replace (c / 256 / 16)%N with (c / 4096)%N in H3 by (rewrite N.Div0.div_div by lia; done).
  assert (H4 : (c / 4096 < 16)%N) by (apply N.Div0.div_lt_upper_bound; lia).
  rewrite (N.mod_small (c / 4096) 16) by done.
  pose proof (N.mod_lt c 16 ltac:(lia)).
  pose proof (N.mod_lt (c / 16) 16 ltac:(lia)).
  pose proof (N.mod_lt (c / 256) 16 ltac:(lia)).
  lia.
Qed.

(** Reading back an escape [\uXXXX]. *)
Lemma parse_unicode_escape c t r rest :
  (c < 65536)%N -> parse_chars rest = Some (t, r) ->
  parse_chars (unicode_escape c ++ rest) = Some (c :: t, r).
Proof.
  intros Hc Hrest. unfold unicode_escape.
  cbn [app parse_chars N.eqb Pos.eqb].
  rewrite !hex_digit_unit by (apply N.mod_lt; lia).
  rewrite Hrest. by rewrite hex_digits_value.
Qed.

(** What [JSON.parse] reads between the quotes of the text [JSON.stringify]
    writes for a string is that string. *)
Lemma parse_quote_units n : forall s rest,
  (length s <= n)%nat ->
  parse_chars (quote_units s ++ 34%N :: rest) = Some (s, rest).
Proof.
  induction n as [|n IH]; intros [|c s] rest Hlen; simpl in Hlen; try lia.
  - simpl. done.
  - simpl. done.
  - assert (IHs : parse_chars (quote_units s ++ 34%N :: rest) = Some (s, rest))
      by (apply IH; lia).
    cbn [quote_units].
    repeat match goal with
           | |- context [(c =? ?k)%N] => destruct (N.eqb_spec c k) as [->|?];
               [simpl; by rewrite IHs|]
           end.
    destruct (N.ltb_spec c 32) as [Hlow|Hhigh].
    { rewrite <- app_assoc. apply parse_unicode_escape; [lia|done]. }
    assert (Hraw : forall t r, parse_chars t = Some (r, rest) ->
                     parse_chars (c :: t) = Some (c :: r, rest)).
    { intros t r Ht. cbn [parse_chars].
      destruct (N.eqb_spec c 34); [done|]. destruct (N.eqb_spec c 92); [done|].
      destruct (N.ltb_spec c 32); [lia|]. by rewrite Ht. }
    destruct (is_high_surrogate c) eqn:Hh.
    + unfold is_high_surrogate in Hh.
      apply andb_true_iff in Hh as [?%N.leb_le ?%N.leb_le].
      destruct s as [|d s'].
      * apply parse_unicode_escape; [lia|done].
      * destruct (is_low_surrogate d) eqn:Hl.
        -- unfold is_low_surrogate in Hl.
           apply andb_true_iff in Hl as [?%N.leb_le ?%N.leb_le].
           cbn [app]. apply Hraw. cbn [parse_chars].
           destruct (N.eqb_spec d 34); [lia|]. destruct (N.eqb_spec d 92); [lia|].
           destruct (N.ltb_spec d 32); [lia|].
           rewrite (IH s' rest) by (simpl in Hlen; lia). done.
        -- rewrite <- app_assoc. apply parse_unicode_escape; [lia|done].
    + destruct (is_low_surrogate c) eqn:Hl.
      * unfold is_low_surrogate in Hl.
        apply andb_true_iff in Hl as [?%N.leb_le ?%N.leb_le].
        rewrite <- app_assoc. apply parse_unicode_escape; [lia|done].
      * cbn [app]. by apply Hraw.
Qed.

Lemma parse_JSON_quote f s rest :
  parse_value (S f) (JSON_quote s ++ rest) = Some (JStr s, rest).
Proof.
  unfold JSON_quote. cbn [app]. rewrite <- app_assoc. cbn [app].
  cbn [parse_value skip_ws drop_while is_json_ws N.eqb Pos.eqb orb strip_prefix str
       list_ascii_of_string fmap list_fmap N_of_ascii].
  simpl. by rewrite (parse_quote_units (length s)).
Qed.


Lemma strip_zeros_end_app l :
  exists k, l = strip_zeros_end l ++ replicate k 48%N.
Proof.
  unfold strip_zeros_end.
  assert (H : forall m, exists k, m = replicate k 48%N ++ drop_while (fun c => (c =? 48)%N) m).
  { induction m as [|c m [k IH]]; [by exists 0%nat|]. simpl.
    destruct (N.eqb_spec c 48) as [->|]; [|by exists 0%nat].
    exists (S k). simpl. by rewrite <- IH. }
  destruct (H (rev l)) as [k Hk]. exists k.
  rewrite <- (rev_involutive l) at 1. rewrite Hk at 1.
  rewrite rev_app_distr. f_equal.
  clear. induction k as [|k IH]; [done|]. simpl. rewrite IH.
  clear. induction k as [|k IH]; [done|]. simpl. by rewrite <- IH.
Qed.

Lemma Qred_den_integer a : Qden (Qred (inject_Z a)) = 1%positive.
Proof.
  unfold inject_Z.
  assert (Hr : Qred (a # 1) = a # 1).
  { unfold Qred. pose proof (Z.ggcd_gcd a 1) as Hg.
    pose proof (Z.ggcd_correct_divisors a 1) as Hd.
    destruct (Z.ggcd a 1) as [g [aa bb]]. simpl in *.
    rewrite Z.gcd_1_r in Hg. subst g. destruct Hd as [-> Hb].
    assert (bb = 1) as -> by lia. f_equal. lia. }
  by rewrite Hr.
Qed.

(** [Number::toString] of an integer of fewer than 22 digits. *)
Lemma Number_toString_integer z :
  Z.abs z < 10 ^ 21 -> Number_toString (num_of_Z z) = int_text z.
Proof.
  intros Hz. unfold Number_toString, num_of_Z, int_text.
  destruct (Z.eq_dec z 0) as [->|Hne]; [done|].
  replace (Qeq_bool (inject_Z z) 0) with false; cycle 1.
  { symmetry. apply not_true_iff_false. intros H%Qeq_bool_iff.
    unfold Qeq in H. simpl in H. lia. }
  replace (Qle_bool 0 (inject_Z z)) with (negb (z <? 0)); cycle 1.
  { unfold Qle_bool. simpl. rewrite Z.mul_1_r.
    destruct (Z.ltb_spec z 0); destruct (Z.leb_spec 0 z); done || lia. }
  assert (Habs : Qabs (inject_Z z) = inject_Z (Z.abs z)) by done.
  rewrite Habs.
  replace (decimal_places _ _) with (Some 0); cycle 1.
  { destruct (Pos.to_nat _); simpl; by rewrite Qred_den_integer. }
  change (default 17 (Some 0)) with 0.
  replace (Qfloor (inject_Z (Z.abs z) * Qpower (inject_Z 10) 0)) with (Z.abs z); cycle 1.
  { unfold Qfloor, Qmult. simpl. rewrite Z.mul_1_r, Z.div_1_r. done. }
  set (all := dec (Z.to_N (Z.abs z))).
  assert (Hlen : (length all <= 21)%nat).
  { apply dec_length. change (10 ^ 21)%N with (Z.to_N (10 ^ 21)). lia. }
  destruct (strip_zeros_end_app all) as [k Hk].
  unfold place_digits. rewrite Z.sub_0_r.
  assert (Hk' : length all = (length (strip_zeros_end all) + k)%nat).
  { rewrite Hk at 1. by rewrite length_app, length_replicate. }
  destruct (Z.leb_spec (Z.of_nat (length (strip_zeros_end all))) (Z.of_nat (length all)));
    [|lia].
  destruct (Z.leb_spec (Z.of_nat (length all)) 21); [|lia]. cbn [andb].
  unfold zeros.
  replace (Z.to_nat (Z.of_nat (length all) - Z.of_nat (length (strip_zeros_end all))))
    with k by lia.
  rewrite <- Hk. by destruct (z <? 0).
Qed.

(** A run of digits followed by something else. *)
Lemma span_digits_app ds c rest :
  forallb is_digit ds = true -> is_digit c = false ->
  span_digits (ds ++ c :: rest) = (ds, c :: rest).
Proof.
  intros Hd Hc. induction ds as [|x ds IH]; simpl; [by rewrite Hc|].
  apply andb_true_iff in Hd as [Hx Hd]. by rewrite Hx, IH.
Qed.

Lemma scale10_integer z : scale10 z 0 = inject_Z z.
Proof.
  unfold scale10, inject_Z, Qmult. simpl. f_equal. lia.
Qed.

(** Reading back the digits of a natural number that a comma follows,
    after a minus sign or without one. *)
Lemma parse_number_digits (neg : bool) n rest :
  parse_number ((if neg then [45%N] else []) ++ dec n ++ 44%N :: rest)
  = Some (Fin (scale10 (if neg then - Z.of_N n else Z.of_N n) 0), 44%N :: rest).
Proof.
  pose proof (dec_digits n) as Hd. pose proof (dec_value n) as Hv.
  pose proof (dec_no_leading_zero n) as Hz.
  assert (Hsp : span_digits (dec n ++ 44%N :: rest) = (dec n, 44%N :: rest))
    by by apply span_digits_app.
  unfold parse_number.
  assert (Hsign : strip_prefix [45%N] ((if neg then [45%N] else []) ++ dec n ++ 44%N :: rest)
                  = if neg then Some (dec n ++ 44%N :: rest) else None).
  { destruct neg; [done|]. cbn [app].
    destruct (dec n) as [|d more]; [done|].
    apply andb_true_iff in Hd as [Hd _]. unfold is_digit in Hd.
    apply andb_true_iff in Hd as [?%N.leb_le ?%N.leb_le].
    cbn [app strip_prefix]. destruct (N.eqb_spec 45 d); [lia|done]. }
  rewrite Hsign.
  pose proof (dec_nonempty n) as Hne.
  destruct neg; cbn [app]; rewrite Hsp;
    (destruct (dec n) as [|d more] eqn:E; [done|]);
    (replace ((d =? 48)%N && negb (bool_decide (more = []))) with false
       by (symmetry; destruct (N.eqb_spec d 48) as [->|]; [|done];
           by rewrite (Hz more eq_refl)));
    cbn [strip_prefix N.eqb Pos.eqb exponent_part orb];
    by rewrite app_nil_r, Hv.
Qed.

(** Reading back the text of an integer that a comma follows. *)
Lemma parse_int_text f z rest :
  parse_value (S f) (int_text z ++ 44%N :: rest)
  = Some (JNum (num_of_Z z), 44%N :: rest).
Proof.
  assert (Hnum : parse_number (int_text z ++ 44%N :: rest)
                 = Some (num_of_Z z, 44%N :: rest)).
  { unfold int_text. rewrite <- app_assoc.
    change (str "-") with [45%N].
    rewrite (parse_number_digits (z <? 0)), scale10_integer.
    replace (if z <? 0 then - Z.of_N (Z.to_N (Z.abs z)) else Z.of_N (Z.to_N (Z.abs z)))
      with z by (destruct (Z.ltb_spec z 0); lia).
    done. }
  assert (Hfirst : exists c more, int_text z ++ 44%N :: rest = c :: more /\
                     (c = 45%N \/ is_digit c = true)).
  { unfold int_text. destruct (z <? 0); [eexists _, _; split; [reflexivity|by left]|].
    pose proof (dec_digits (Z.to_N (Z.abs z))) as Hd.
    pose proof (dec_nonempty (Z.to_N (Z.abs z))) as Hne.
    destruct (dec _) as [|d more]; [done|].
    apply andb_true_iff in Hd as [Hd _].
    eexists _, _. split; [reflexivity|by right]. }
  destruct Hfirst as (c & more & Heq & Hc). rewrite Heq in *.
  assert (Hrange : (c = 45 \/ 48 <= c <= 57)%N).
  { destruct Hc as [->|Hc]; [by left|right].
    unfold is_digit in Hc. apply andb_true_iff in Hc as [?%N.leb_le ?%N.leb_le]. lia. }
  cbn [parse_value].
  assert (Hws : skip_ws (c :: more) = c :: more).
  { unfold skip_ws, is_json_ws. cbn [drop_while].
    repeat match goal with
           | |- context [(c =? ?k)%N] => destruct (N.eqb_spec c k); [lia|] end.
    done. }
  rewrite Hws.
  change (str "null") with [110; 117; 108; 108]%N.
  change (str "true") with [116; 114; 117; 101]%N.
  change (str "false") with [102; 97; 108; 115; 101]%N.
  cbn [strip_prefix].
  repeat match goal with
         | |- context [(?k =? c)%N] => destruct (N.eqb_spec k c); [lia|] end.
  repeat match goal with
         | |- context [(c =? ?k)%N] => destruct (N.eqb_spec c k); [lia|] end.
  by rewrite Hnum.
Qed.


(** One member of an object, followed by a comma or by the closing brace. *)
Lemma parse_member f k vtext v (c : N) r acc :
  parse_value f vtext = Some (v, c :: r) -> is_json_ws c = false ->
  parse_members (S f) (JSON_quote k ++ 58%N :: vtext) acc
  = if (c =? 44)%N then parse_members f r ((k, v) :: acc)
    else if (c =? 125)%N then Some (JObject (rev ((k, v) :: acc)), r)
    else None.
Proof.
  intros Hv Hc. unfold JSON_quote. cbn [app]. rewrite <- app_assoc. cbn [app].
  cbn [parse_members].
  change (skip_ws (34%N :: quote_units k ++ 34%N :: 58%N :: vtext))
    with (34%N :: quote_units k ++ 34%N :: 58%N :: vtext).
  cbn [strip_prefix N.eqb Pos.eqb].
  rewrite (parse_quote_units (length k)) by done.
  change (skip_ws (58%N :: vtext)) with (58%N :: vtext).
  cbn [strip_prefix N.eqb Pos.eqb]. rewrite Hv.
  unfold skip_ws. cbn [drop_while]. by rewrite Hc.
Qed.

Lemma parse_object_open f rest :
  parse_value (S f) (123%N :: 34%N :: rest) = parse_members f (34%N :: rest) [].
Proof. reflexivity. Qed.

Lemma parse_null f rest :
  parse_value (S f) (str "null" ++ rest) = Some (JNull, rest).
Proof. reflexivity. Qed.

(** The value [JSON.stringify] stores for a budget: [null] for [NaN]. *)
Lemma parse_JSON_number f budget rest :
  (budget = NaN \/ exists z, budget = num_of_Z z /\ Z.abs z < 10 ^ 21) ->
  parse_value (S f) (JSON_number budget ++ 44%N :: rest)
  = Some (match budget with NaN => JNull | _ => JNum budget end, 44%N :: rest).
Proof.
  intros [->|(z & -> & Hz)].
  - apply parse_null.
  - unfold JSON_number. cbn [isFinite num_of_Z].
    change (Fin (inject_Z z)) with (num_of_Z z).
    rewrite Number_toString_integer by done. apply parse_int_text.
Qed.

(** What [JSON.parse] makes of the text [saveProfile] stores. *)
Lemma parse_stringify_profile budget risk timeline :
  (budget = NaN \/ exists z, budget = num_of_Z z /\ Z.abs z < 10 ^ 21) ->
  JSON_parse (stringify_profile budget risk timeline)
  = Some (JObject [(str "budget", match budget with NaN => JNull | _ => JNum budget end);
                   (str "risk_tolerance", JStr risk);
                   (str "timeline", JStr timeline)]).
Proof.
  intros Hb. apply (JSON_parse_budget 5 _ _ []); [|done].
  unfold stringify_profile.
  change (str "{" ++ JSON_quote (str "budget") ++ str ":" ++ JSON_number budget
          ++ str "," ++ JSON_quote (str "risk_tolerance") ++ str ":" ++ JSON_quote risk
          ++ str "," ++ JSON_quote (str "timeline") ++ str ":" ++ JSON_quote timeline
          ++ str "}")
    with (123%N :: 34%N :: (quote_units (str "budget") ++ [34%N]) ++ 58%N ::
            (JSON_number budget ++ 44%N ::
               (JSON_quote (str "risk_tolerance") ++ 58%N ::
                  (JSON_quote risk ++ 44%N ::
                     (JSON_quote (str "timeline") ++ 58%N ::
                        (JSON_quote timeline ++ [125%N])))))).
  rewrite parse_object_open.
  change (34%N :: (quote_units (str "budget") ++ [34%N]) ++ ?r)
    with (JSON_quote (str "budget") ++ r).
  rewrite (parse_member 3 _ _ _ 44%N _ _ (parse_JSON_number 2 _ _ Hb) eq_refl).
  cbn [N.eqb Pos.eqb].
  rewrite (parse_member 2 _ _ _ 44%N _ _ (parse_JSON_quote 1 _ _) eq_refl).
  cbn [N.eqb Pos.eqb].
  rewrite (parse_member 1 _ _ _ 125%N _ _ (parse_JSON_quote 0 _ _) eq_refl).
  done.
Qed.

End RoundTrip.



(* ================================================================== *)
(** * The profile dialog *)

Section ProfileDialog.

(** What [saveProfile] leaves behind, whatever the form holds. *)
Lemma saveProfile_state budget risk timeline d :
  saveProfile budget risk timeline d
  = (Normal,
     mkDialog
       (upd_page (set_recommendationsContainer [])
          (upd_page (set_profileView {|
               userBudget := JNum (parseInt10 budget);
               budgetField := JNum (parseInt10 budget);
               riskField := JStr risk;
               timelineField := JStr timeline |})
             (upd_host (set_stored_profile
                          (Some (stringify_profile (parseInt10 budget) risk timeline)))
                (upd_globals (set_userProfile (profile_of budget risk timeline))
                   (shown d)))))
       (str "none")).
Proof. reflexivity. Qed.


(** The text [saveProfile] stores is never empty. *)
Lemma stored_truthy budget risk timeline :
  saved_truthy (Some (stringify_profile budget risk timeline))
  = Some (stringify_profile budget risk timeline).
Proof. reflexivity. Qed.

End ProfileDialog.

(* ================================================================== *)
(** * Invariants of the page with its dialog *)

Section DialogRuns.

Variable P : State -> Prop.

Hypothesis P_views : forall st st',
  timer_state st' = timer_state st -> session_view st' = session_view st ->
  traffic st' = traffic st -> P st -> P st'.

Hypothesis P_handle : forall ev st c st',
  P st -> handle ev st = Some (c, st') -> P st'.



End DialogRuns.


Lemma saved_page_reached :
  run_dialog saving_trace (initial_dialog None []) = Some saved_page.
Proof. vm_compute. reflexivity. Qed.



(* ================================================================== *)
(** * Saving the profile, and the next page load *)

Section Reload.


(** A budget without [toLocaleString] stops the display at its first
    line. *)
Lemma updateProfileDisplay_unlocalizable b st :
  get_prop (userProfile (globals st)) "budget" = Some b -> localizable b = false ->
  updateProfileDisplay st = (Thrown TypeError, st).
Proof. unfold updateProfileDisplay. by intros -> ->. Qed.


(** ... and to a profile whose budget is [null]. *)
Lemma reload_throws text r t st :
  stored_profile (host st) = Some text ->
  saved_truthy (Some text) = Some text ->
  JSON_parse text = Some (JObject [(str "budget", JNull);
                                   (str "risk_tolerance", r); (str "timeline", t)]) ->
  wired (host st) = false ->
  exists st',
    handle DOMContentLoaded st = Some (Thrown TypeError, st') /\
    get_prop (userProfile (globals st')) "budget" = Some JNull /\
    wired (host st') = false.
Proof.
  intros Hs Ht Hp Hw. unfold handle. rewrite Hw.
  unfold and_then at 1.
  assert (Hload : loadUserProfile st
                  = (Normal, upd_globals (set_userProfile
                       (JObject [(str "budget", JNull);
                                 (str "risk_tolerance", r); (str "timeline", t)])) st)).
  { unfold loadUserProfile. by rewrite Hs, Ht, Hp. }
  rewrite Hload. unfold and_then at 1.
  rewrite (updateProfileDisplay_unlocalizable JNull) by (vm_compute; reflexivity).
  eexists. split; [reflexivity|]. split; [vm_compute; reflexivity|]. exact Hw.
Qed.

End Reload.




(** X15. A budget that does not read as a number. [saveProfile] completes
    normally all the same and the page shows the budget [NaN]; the stored
    text carries [null] for it, and the next page load throws a TypeError in
    [updateProfileDisplay], before the handlers are installed. *)
Theorem unreadable_budget_breaks_reload (budget risk timeline : jsstring) (d : Dialog) :
  parseInt10 budget = NaN ->
  let d' := snd (saveProfile budget risk timeline d) in
  fst (saveProfile budget risk timeline d) = Normal /\
  userBudget (profileView (page (shown d'))) = JNum NaN /\
  exists st',
    handle DOMContentLoaded (reload d') = Some (Thrown TypeError, st') /\
    get_prop (userProfile (globals st')) "budget" = Some JNull /\
    wired (host st') = false.
Proof.
  intros Hb. cbv zeta. rewrite saveProfile_state. cbn [fst snd shown].
  assert (Hparse : JSON_parse (stringify_profile (parseInt10 budget) risk timeline)
                   = Some (JObject [(str "budget", JNull);
                                    (str "risk_tolerance", JStr risk);
                                    (str "timeline", JStr timeline)])).
  { rewrite parse_stringify_profile by (left; done). by rewrite Hb. }
  split; [done|]. split.
  { cbn [page upd_page set_recommendationsContainer set_profileView profileView userBudget].
    by rewrite Hb. }
  change (reload _)
    with (initial (Some (stringify_profile (parseInt10 budget) risk timeline))).
  exact (reload_throws (stringify_profile (parseInt10 budget) risk timeline)
           (JStr risk) (JStr timeline)
           (initial (Some (stringify_profile (parseInt10 budget) risk timeline)))
           eq_refl (stored_truthy _ _ _) Hparse eq_refl).
Qed.

Lemma unreadable_budget_breaks_reload_witness :
  let d' := snd (saveProfile (str "ten lakh") (str "high") (str "long")
                   (initial_dialog None [])) in
  userBudget (profileView (page (shown d'))) = JNum NaN /\
  exists st',
    handle DOMContentLoaded (reload d') = Some (Thrown TypeError, st') /\
    wired (host st') = false.
Proof.
  destruct (unreadable_budget_breaks_reload (str "ten lakh") (str "high") (str "long")
              (initial_dialog None []))
    as (_ & Hshown & st' & Hload & _ & Hw); [reflexivity|].
  split; [exact Hshown|]. exists st'. split; [exact Hload | exact Hw].
Defined.

